(** * Order / contract reconciliation of the orders-management panel

    A shallow embedding of the pure and stateful logic of the
    [OrdersManagement] component (second module of
    [src/components/layout/FloatingWhatsApp.tsx]): the display reconciler
    [getDisplayItems], the workflow engine [ensureDeliveryTasks] /
    [saveWorkflow] / the per-task checkbox handler, the payment toggles
    [markDeliveryPaid] / [resetDeliveryPaid], the loader [fetchOrders] and
    the [filtered] / [counts] memos.

    Conventions of the embedding.
    - A JavaScript string is a [string]; each character stands for the code
      point of the same number, so the strings covered are those over
      U+0000..U+00FF (Latin-1, which holds the accented letters of Spanish
      and Portuguese).  Every literal of the source used here is ASCII.
    - An optional field ([x?: T], or a field read from an untyped document)
      is an [option]; [None] is JavaScript's [undefined] / [null].
    - A JavaScript number is a [Z]: quantities, prices and totals are taken
      to be integers, on which the products and sums of the source are exact.
    - [uid()] and the other sources of fresh values are threaded explicitly. *)

From Stdlib Require Import List String Ascii ZArith NArith Bool Arith Lia.
From Stdlib Require Import DecimalString.
Import ListNotations.
Open Scope string_scope.
Open Scope list_scope.

(* ================================================================== *)
(** ** JavaScript string primitives *)

Module JS.

(** [s.includes(needle)] *)
Fixpoint includes (s needle : string) : bool :=
  String.prefix needle s ||
  match s with
  | EmptyString => false
  | String _ s' => includes s' needle
  end.

(** [s.startsWith(p)] *)
Definition startsWith (s p : string) : bool := String.prefix p s.

(** [s.replace(/^p/, '')] for a literal prefix [p] *)
Definition stripPrefix (p s : string) : string :=
  if String.prefix p s
  then String.substring (String.length p) (String.length s - String.length p) s
  else s.

(** White space of [String.prototype.trim] below U+0100:
    TAB, LF, VT, FF, CR, SPACE and NO-BREAK SPACE. *)
Definition isWhiteSpace (c : ascii) : bool :=
  let n := N_of_ascii c in
  ((9 <=? n) && (n <=? 13) || (n =? 32) || (n =? 160))%N.

Fixpoint trimStart (s : string) : string :=
  match s with
  | EmptyString => EmptyString
  | String c s' => if isWhiteSpace c then trimStart s' else s
  end.

Fixpoint trimEnd (s : string) : string :=
  match s with
  | EmptyString => EmptyString
  | String c s' =>
      match trimEnd s' with
      | EmptyString => if isWhiteSpace c then EmptyString else String c EmptyString
      | r => String c r
      end
  end.

(** [s.trim()] *)
Definition trim (s : string) : string := trimEnd (trimStart s).

(** [toLowerCase] on one code point below U+0100: A-Z and the capital
    letters U+00C0..U+00DE (the multiplication sign U+00D7 apart). *)
Definition lowerChar (c : ascii) : ascii :=
  let n := N_of_ascii c in
  if ((65 <=? n) && (n <=? 90) ||
      (192 <=? n) && (n <=? 222) && negb (n =? 215))%N
  then ascii_of_N (n + 32) else c.

Fixpoint mapChars (f : ascii -> ascii) (s : string) : string :=
  match s with
  | EmptyString => EmptyString
  | String c s' => String (f c) (mapChars f s')
  end.

(** [s.toLowerCase()] *)
Definition toLowerCase (s : string) : string := mapChars lowerChar s.

(** Code points below U+0100 with the Unicode property [Diacritic]:
    ^ ` and U+00A8, U+00AF, U+00B4, U+00B7, U+00B8. *)
Definition isDiacritic (c : ascii) : bool :=
  let n := N_of_ascii c in
  ((n =? 94) || (n =? 96) || (n =? 168) || (n =? 175) ||
   (n =? 180) || (n =? 183) || (n =? 184))%N.

(** The base letter left of a code point below U+0100 by
    [normalize('NFD')] once its combining marks (U+0300.., all of them
    [Diacritic]) are removed; code points without a canonical decomposition
    are unchanged. *)
Definition baseLetter (c : ascii) : ascii :=
  let n := N_of_ascii c in
  let within (lo hi : N) := ((lo <=? n) && (n <=? hi))%N in
  (if within 192 197 then "A"
   else if n =? 199 then "C"
   else if within 200 203 then "E"
   else if within 204 207 then "I"
   else if n =? 209 then "N"
   else if within 210 214 then "O"
   else if within 217 220 then "U"
   else if n =? 221 then "Y"
   else if within 224 229 then "a"
   else if n =? 231 then "c"
   else if within 232 235 then "e"
   else if within 236 239 then "i"
   else if n =? 241 then "n"
   else if within 242 246 then "o"
   else if within 249 252 then "u"
   else if (n =? 253) || (n =? 255) then "y"
   else c)%N%char.

(** [s.normalize('NFD').replace(/\p{Diacritic}/gu, '')] *)
Fixpoint stripDiacritics (s : string) : string :=
  match s with
  | EmptyString => EmptyString
  | String c s' =>
      if isDiacritic c then stripDiacritics s'
      else String (baseLetter c) (stripDiacritics s')
  end.

(** [a || b] on strings: [a] unless it is undefined or empty. *)
Definition orStr (a : option string) (b : string) : string :=
  match a with
  | Some EmptyString | None => b
  | Some s => s
  end.

(** [a || b] where [b] may itself be undefined. *)
Definition orOpt (a b : option string) : option string :=
  match a with
  | Some EmptyString | None => b
  | Some s => Some s
  end.

(** [a ?? b] *)
Definition nullish {A} (a : option A) (b : A) : A :=
  match a with
  | Some x => x
  | None => b
  end.

(** [n || d] on numbers: [d] when [n] is 0. *)
Definition orNum (n d : Z) : Z := if (n =? 0)%Z then d else n.

(** [arr.find(p)] *)
Definition find {A} (p : A -> bool) (l : list A) : option A := List.find p l.

(** [arr.findIndex(p)]; [None] is the source's [-1]. *)
Fixpoint findIndex {A} (p : A -> bool) (l : list A) : option nat :=
  match l with
  | [] => None
  | x :: l' => if p x then Some 0 else option_map S (findIndex p l')
  end.

End JS.

(** [normalize] of the component (line 377):
    [s.normalize('NFD').replace(/\p{Diacritic}/gu, '').toLowerCase().trim()] *)
Definition normalize (s : string) : string :=
  JS.trim (JS.toLowerCase (JS.stripDiacritics s)).

(** [normalizeStr] (line 152): [normalize] of [String(s || '')]. *)
Definition normalizeStr (s : option string) : string :=
  normalize (JS.orStr s "").

(** [String(e).toLowerCase().trim()], the key under which contracts are
    looked up by e-mail. *)
Definition emailKey (e : string) : string := JS.trim (JS.toLowerCase e).

(* ================================================================== *)
(** ** Data model (interfaces of lines 93-126 and the document shapes) *)

(** [due?: string | null]: absent, [null], or a timestamp. *)
Record WorkflowTask := mkTask {
  wt_id : string;
  wt_title : string;
  wt_done : bool;
  wt_due : option (option string);
  wt_note : option string
}.

Record WorkflowCategory := mkCat {
  wc_id : string;
  wc_name : string;
  wc_tasks : list WorkflowTask
}.

Definition Workflow := list WorkflowCategory.

(** [OrderLineItem], with the [image_url] that the loader writes. *)
Record OrderLineItem := mkLine {
  li_product_id : option string;
  li_productId : option string;
  li_name : option string;
  li_qty : option Z;
  li_quantity : option Z;
  li_price : option Z;
  li_total : option Z;
  li_image_url : option string
}.

(** An element of a contract's [storeItems]. *)
Record StoreItem := mkStore {
  si_name : option string;
  si_productName : option string;
  si_title : option string;
  si_quantity : option Z;
  si_qty : option Z;
  si_price : option Z;
  si_total : option Z;
  si_image_url : option string
}.

(** A contract document with its id. *)
Record Contract := mkContract {
  c_id : string;
  c_clientName : option string;
  c_client_name : option string;
  c_clientEmail : option string;
  c_client_email : option string;
  c_storeItems : option (list StoreItem);
  c_workflow : option Workflow;
  c_depositPaid : option bool;
  c_travelFee : option Z;
  c_paymentMethod : option string;
  c_contractDate : option string;
  c_createdAt : option string
}.

(** An order: the fields of [OrderItem] and the fields that the component
    reads or writes on order documents beyond that interface.
    [o_deliveredAt] is absent ([None]), [null] ([Some None]) or a time. *)
Record OrderItem := mkOrder {
  o_id : string;
  o_customer_name : option string;
  o_customer_email : option string;
  o_payment_method : option string;
  o_notes : option string;
  o_items : option (list OrderLineItem);
  o_total : option Z;
  o_created_at : option string;
  o_status : option string;
  o_workflow : option Workflow;
  o_contractId : option string;
  o_contract_id : option string;
  o_contract : option string;
  o_clientName : option string;
  o_clientEmail : option string;
  o_totalAmount : option Z;
  o_paymentMethod : option string;
  o_createdAt : option string;
  o_depositPaid : option bool;
  o_deliveredAt : option (option string);
  o_thumbnail : option string
}.

(** [export type OrderStatus = 'pendiente' | 'procesando' | 'completado'] *)
Inductive OrderStatus := pendiente | procesando | completado.

Definition statusString (s : OrderStatus) : string :=
  match s with
  | pendiente => "pendiente"
  | procesando => "procesando"
  | completado => "completado"
  end.

(** The state [statusFilter : 'todas' | OrderStatus]. *)
Inductive StatusFilter := todas | only (s : OrderStatus).

(* ================================================================== *)
(** ** Fresh identifiers

    [uid()] (line 128) draws on [Math.random] and the clock.  A
    computation that may call it is a function of the sequence of values
    the successive calls return, and yields the rest of that sequence. *)

Definition UidSupply := nat -> string.

Definition Fresh (A : Type) := UidSupply -> A * UidSupply.

Definition ret {A} (a : A) : Fresh A := fun s => (a, s).

Definition bind {A B} (m : Fresh A) (k : A -> Fresh B) : Fresh B :=
  fun s => let (a, s') := m s in k a s'.

Notation "x <- m ;; k" := (bind m (fun x => k))
  (at level 61, m at next level, right associativity).

Definition uid : Fresh string := fun s => (s 0, fun n => s (S n)).

(* ================================================================== *)
(** ** Display reconciler: [getDisplayItems] (lines 379-431) *)

(** [it.name || it.product_id || it.productId || ''] *)
Definition lineName (it : OrderLineItem) : string :=
  JS.orStr (JS.orOpt (JS.orOpt (li_name it) (li_product_id it)) (li_productId it)) "".

(** [const norm = (s: string) => normalize(String(s || ''))] on a string. *)
Definition norm (s : string) : string := normalize s.

(** The canonical contract items of line 391. *)
Record ContractItem := mkCI {
  ci_name : string;
  ci_quantity : Z;
  ci_price : Z;
  ci_total : Z
}.

Definition canonicalItem (si : StoreItem) : ContractItem :=
  let quantity := JS.nullish (si_quantity si) (JS.nullish (si_qty si) 1%Z) in
  let price := JS.nullish (si_price si) 0%Z in
  {| ci_name := JS.orStr (JS.orOpt (JS.orOpt (si_name si) (si_productName si)) (si_title si)) "";
     ci_quantity := quantity;
     ci_price := price;
     ci_total := match si_total si with
                 | Some t => t
                 | None => (price * quantity)%Z
                 end |}.

(** A display row: [{ name, qty, price, total } as OrderLineItem]. *)
Definition row (name : string) (qty price total : Z) : OrderLineItem :=
  {| li_product_id := None; li_productId := None; li_name := Some name;
     li_qty := Some qty; li_quantity := None; li_price := Some price;
     li_total := Some total; li_image_url := None |}.

(** The order's own item in display shape (lines 414-419 and 425-430). *)
Definition normalizedRow (e : OrderLineItem) : OrderLineItem :=
  let qty := JS.nullish (li_qty e) (JS.nullish (li_quantity e) 1%Z) in
  let price := JS.nullish (li_price e) 0%Z in
  row (lineName e) qty price
      (match li_total e with
       | Some t => t
       | None => (price * qty)%Z
       end).

(** The callback of [contractItems.map] at lines 402-411. *)
Definition mergeItem (orderItems : list OrderLineItem) (ci : ContractItem)
  : OrderLineItem :=
  match JS.find (fun oi => norm (lineName oi) =? norm (ci_name ci)) orderItems with
  | Some m =>
      let qty := JS.nullish (li_qty m) (JS.nullish (li_quantity m) (ci_quantity ci)) in
      let price := JS.nullish (li_price m) (JS.nullish (li_price m) (ci_price ci)) in
      let total := match li_total m with
                   | Some t => t
                   | None => (price * qty)%Z
                   end in
      row (JS.orStr (li_name m) (ci_name ci)) qty price total
  | None => row (ci_name ci) (ci_quantity ci) (ci_price ci) (ci_total ci)
  end.

(** [contractNames.has(k)] for the [Set] of normalised contract names. *)
Definition inNames (names : list string) (k : string) : bool :=
  existsb (String.eqb k) names.

(** The component state read by [getDisplayItems]: the two contract
    lookups, objects used as maps: association lists in insertion order
    (the order of [Object.values] for keys that are not array indices). *)
Record Lookups := mkLookups {
  contractsMap : list (string * Contract);
  contractsByEmail : list (string * Contract)
}.

(** [obj[key]], for keys that are document ids or e-mail keys (none of
    them the name of a member of [Object.prototype]). *)
Fixpoint lookup {A} (key : string) (m : list (string * A)) : option A :=
  match m with
  | [] => None
  | (k, v) :: m' => if k =? key then Some v else lookup key m'
  end.

(** [obj[key] = v]: replaces the value of a key already present, else adds
    the key after the others. *)
Fixpoint store {A} (key : string) (v : A) (m : list (string * A))
  : list (string * A) :=
  match m with
  | [] => [(key, v)]
  | (k, v') :: m' => if k =? key then (k, v) :: m' else (k, v') :: store key v m'
  end.

(** [Object.values(obj)] *)
Definition values {A} (m : list (string * A)) : list A := map snd m.

(** [String((x.clientEmail || x.client_email || '')).toLowerCase().trim()] *)
Definition contractEmailKey (x : Contract) : string :=
  emailKey (JS.orStr (JS.orOpt (c_clientEmail x) (c_client_email x)) "").

(** [contractsByEmail[key] || Object.values(contractsMap).find(...) || null] *)
Definition contractByEmail (st : Lookups) (key : string) : option Contract :=
  match lookup key (contractsByEmail st) with
  | Some c => Some c
  | None => JS.find (fun x => contractEmailKey x =? key) (values (contractsMap st))
  end.

(** Lines 381-385: the contract of an order, by [contractId], else by the
    customer's e-mail. *)
Definition resolveContract (st : Lookups) (o : OrderItem) : option Contract :=
  let c := match o_contractId o with
           | Some EmptyString | None => None
           | Some cid => lookup cid (contractsMap st)
           end in
  match c with
  | Some c => Some c
  | None =>
      match o_customer_email o with
      | Some EmptyString | None => None
      | Some e => contractByEmail st (emailKey e)
      end
  end.

Definition getDisplayItems (st : Lookups) (o : OrderItem) : list OrderLineItem :=
  let c := resolveContract st o in
  let orderItems := JS.nullish (o_items o) [] in
  match c with
  | Some {| c_storeItems := Some (si :: sis) |} =>
      let contractItems := map canonicalItem (si :: sis) in
      let contractNames := map (fun ci => norm (ci_name ci)) contractItems in
      let merged := map (mergeItem orderItems) contractItems in
      let extras :=
        map normalizedRow
            (filter (fun oi => negb (inNames contractNames (norm (lineName oi))))
                    orderItems) in
      merged ++ extras
  | _ => map normalizedRow orderItems
  end.

(** [items.map(it => String(it.name || it.product_id || it.productId || ''))] *)
Definition displayNames (items : list OrderLineItem) : list string :=
  map lineName items.

(* ================================================================== *)
(** ** Workflow engine: [ensureDeliveryTasks] (lines 433-447) *)

(** [normalize(c.name).includes('entrega')] *)
Definition isDelivery (c : WorkflowCategory) : bool :=
  JS.includes (normalize (wc_name c)) "entrega".

(** [JSON.parse(JSON.stringify(base))]: every category, task list and task
    is built anew from the fields of the original. *)
Definition cloneTask (t : WorkflowTask) : WorkflowTask :=
  {| wt_id := wt_id t; wt_title := wt_title t; wt_done := wt_done t;
     wt_due := wt_due t; wt_note := wt_note t |}.

Definition cloneCategory (c : WorkflowCategory) : WorkflowCategory :=
  {| wc_id := wc_id c; wc_name := wc_name c; wc_tasks := map cloneTask (wc_tasks c) |}.

Definition jsonClone (w : Workflow) : Workflow := map cloneCategory w.

(** [cat.tasks.some(t => normalize(t.title) === normalize(title))] *)
Definition hasTitle (tasks : list WorkflowTask) (title : string) : bool :=
  existsb (fun t => normalize (wt_title t) =? normalize title) tasks.

Definition deliveryTitle (n : string) : string := "Entregar " ++ n.

(** The body of [productNames.forEach] on the task list of [cat]. *)
Definition addDeliveryTask (tasks : list WorkflowTask) (n : string)
  : Fresh (list WorkflowTask) :=
  let title := deliveryTitle n in
  if hasTitle tasks title then ret tasks
  else id <- uid ;;
       ret (tasks ++ [ {| wt_id := id; wt_title := title; wt_done := false;
                          wt_due := None; wt_note := None |} ]).

Fixpoint addDeliveryTasks (tasks : list WorkflowTask) (productNames : list string)
  : Fresh (list WorkflowTask) :=
  match productNames with
  | [] => ret tasks
  | n :: rest => tasks' <- addDeliveryTask tasks n ;; addDeliveryTasks tasks' rest
  end.

(** [arr[i] = x] for [i] within the array. *)
Fixpoint setNth {A} (i : nat) (x : A) (l : list A) : list A :=
  match l, i with
  | [], _ => []
  | _ :: l', O => x :: l'
  | y :: l', S i' => y :: setNth i' x l'
  end.

Definition ensureDeliveryTasks (base : Workflow) (productNames : list string)
  : Fresh Workflow :=
  let cloned := jsonClone base in
  let findIdx := JS.findIndex isDelivery cloned in
  let idx := match findIdx with Some i => i | None => List.length cloned end in
  cloned <- match findIdx with
            | Some _ => ret cloned
            | None => id <- uid ;;
                      ret (cloned ++ [ {| wc_id := id; wc_name := "Entrega de productos";
                                          wc_tasks := [] |} ])
            end ;;
  match nth_error cloned idx with
  | Some cat =>
      tasks <- addDeliveryTasks (wc_tasks cat) productNames ;;
      ret (setNth idx {| wc_id := wc_id cat; wc_name := wc_name cat; wc_tasks := tasks |}
                  cloned)
  | None => ret cloned
  end.

(* ================================================================== *)
(** ** The list memos: [filtered] and [counts] (lines 350-364) *)

(** [statusFilter === 'todas' ? true : (o.status === statusFilter)] *)
Definition byStatus (statusFilter : StatusFilter) (o : OrderItem) : bool :=
  match statusFilter with
  | todas => true
  | only s =>
      match o_status o with
      | Some x => x =? statusString s
      | None => false
      end
  end.

Definition bySearch (search : string) (o : OrderItem) : bool :=
  let s := JS.toLowerCase (JS.trim search) in
  match s with
  | EmptyString => true
  | _ => JS.includes (JS.toLowerCase (JS.orStr (o_customer_name o) "")) s ||
         JS.includes (JS.toLowerCase (JS.orStr (o_customer_email o) "")) s
  end.

Definition filtered (orders : list OrderItem) (statusFilter : StatusFilter)
           (search : string) : list OrderItem :=
  filter (fun o => byStatus statusFilter o && bySearch search o) orders.

Record Counts := mkCounts {
  n_todas : nat;
  n_pendiente : nat;
  n_procesando : nat;
  n_completado : nat
}.

(** [o.status === s] for a literal [s] *)
Definition hasStatus (s : string) (o : OrderItem) : bool :=
  match o_status o with
  | Some x => x =? s
  | None => false
  end.

Definition counts (orders : list OrderItem) : Counts :=
  {| n_todas := List.length orders;
     n_pendiente := List.length (filter (hasStatus "pendiente") orders);
     n_procesando := List.length (filter (hasStatus "procesando") orders);
     n_completado := List.length (filter (hasStatus "completado") orders) |}.

(* ================================================================== *)
(** ** The document database and its client

    The collections are lists of documents, each with its id.  Writes and
    reads by id are modelled on the lists.  What a list query answers
    (which documents, in which order, or a rejection) belongs to the
    database: it is taken from the environment, as a function of the
    stored documents. *)

Record Product := mkProduct {
  p_id : string;
  p_name : option string;
  p_image_url : option string
}.

Record Db := mkDb {
  db_orders : list OrderItem;
  db_contracts : list Contract;
  db_products : list Product
}.

(** [None] is a rejected promise. *)
Record Env := mkEnv {
  (** [navigator.onLine] *)
  onLine : bool;
  (** [new Date().toISOString()] *)
  now : string;
  (** [getDocs(collection(db, 'products'))] *)
  getProducts : Db -> option (list Product);
  (** [getDocs(query(collection(db, 'orders'), orderBy('created_at', 'desc')))] *)
  getOrdersByCreatedAt : Db -> option (list OrderItem);
  (** [getDocs(collection(db, 'orders'))] *)
  getOrders : Db -> option (list OrderItem);
  (** [items.sort(...)] by [created_at], descending, under [localeCompare] *)
  sortByCreatedAt : list OrderItem -> list OrderItem;
  (** [getDocs(query(collection(db, 'contracts'), orderBy('createdAt', 'desc')))] *)
  getContractsByCreatedAt : Db -> option (list Contract);
  (** [getDocs(collection(db, 'contracts'))] *)
  getContracts : Db -> option (list Contract);
  (** [getDocs(query(collection(db, 'orders'), where('contractId', '==', id)))] *)
  getOrdersWhereContractId : Db -> string -> option (list OrderItem);
  (** the id that [addDoc(collection(db, 'orders'), data)] gives the new
      document *)
  addDocId : Db -> OrderItem -> option string
}.

Definition setOrders (os : list OrderItem) (db : Db) : Db :=
  {| db_orders := os; db_contracts := db_contracts db; db_products := db_products db |}.

Definition setContracts (cs : list Contract) (db : Db) : Db :=
  {| db_orders := db_orders db; db_contracts := cs; db_products := db_products db |}.

(** [getDoc(doc(db, 'orders', id))] and [getDoc(doc(db, 'contracts', id))];
    [None] when [exists()] is false. *)
Definition getOrder (id : string) (db : Db) : option OrderItem :=
  List.find (fun o => o_id o =? id) (db_orders db).

Definition getContract (id : string) (db : Db) : option Contract :=
  List.find (fun c => c_id c =? id) (db_contracts db).

(** [updateDoc(doc(db, 'orders', id), fields)], [f] writing the fields;
    rejected when there is no such document. *)
Definition updateOrder (id : string) (f : OrderItem -> OrderItem) (db : Db)
  : option Db :=
  match getOrder id db with
  | Some _ => Some (setOrders (map (fun o => if o_id o =? id then f o else o)
                                   (db_orders db)) db)
  | None => None
  end.

Definition updateContract (id : string) (f : Contract -> Contract) (db : Db)
  : option Db :=
  match getContract id db with
  | Some _ => Some (setContracts (map (fun c => if c_id c =? id then f c else c)
                                      (db_contracts db)) db)
  | None => None
  end.

(** The field sets written by the handlers. *)
Definition withWorkflow (w : Workflow) (o : OrderItem) : OrderItem :=
  {| o_id := o_id o; o_customer_name := o_customer_name o;
     o_customer_email := o_customer_email o; o_payment_method := o_payment_method o;
     o_notes := o_notes o; o_items := o_items o; o_total := o_total o;
     o_created_at := o_created_at o; o_status := o_status o;
     o_workflow := Some w;
     o_contractId := o_contractId o; o_contract_id := o_contract_id o;
     o_contract := o_contract o; o_clientName := o_clientName o;
     o_clientEmail := o_clientEmail o; o_totalAmount := o_totalAmount o;
     o_paymentMethod := o_paymentMethod o; o_createdAt := o_createdAt o;
     o_depositPaid := o_depositPaid o; o_deliveredAt := o_deliveredAt o;
     o_thumbnail := o_thumbnail o |}.

(** [{ ...o, depositPaid, workflow, status }] *)
Definition withPaidState (w : Workflow) (paid : bool) (status : string)
           (o : OrderItem) : OrderItem :=
  {| o_id := o_id o; o_customer_name := o_customer_name o;
     o_customer_email := o_customer_email o; o_payment_method := o_payment_method o;
     o_notes := o_notes o; o_items := o_items o; o_total := o_total o;
     o_created_at := o_created_at o; o_status := Some status;
     o_workflow := Some w;
     o_contractId := o_contractId o; o_contract_id := o_contract_id o;
     o_contract := o_contract o; o_clientName := o_clientName o;
     o_clientEmail := o_clientEmail o; o_totalAmount := o_totalAmount o;
     o_paymentMethod := o_paymentMethod o; o_createdAt := o_createdAt o;
     o_depositPaid := Some paid; o_deliveredAt := o_deliveredAt o;
     o_thumbnail := o_thumbnail o |}.

(** [{ workflow, depositPaid, status, deliveredAt }] *)
Definition withPaidFields (w : Workflow) (paid : bool) (status : string)
           (deliveredAt : option string) (o : OrderItem) : OrderItem :=
  {| o_id := o_id o; o_customer_name := o_customer_name o;
     o_customer_email := o_customer_email o; o_payment_method := o_payment_method o;
     o_notes := o_notes o; o_items := o_items o; o_total := o_total o;
     o_created_at := o_created_at o; o_status := Some status;
     o_workflow := Some w;
     o_contractId := o_contractId o; o_contract_id := o_contract_id o;
     o_contract := o_contract o; o_clientName := o_clientName o;
     o_clientEmail := o_clientEmail o; o_totalAmount := o_totalAmount o;
     o_paymentMethod := o_paymentMethod o; o_createdAt := o_createdAt o;
     o_depositPaid := Some paid; o_deliveredAt := Some deliveredAt;
     o_thumbnail := o_thumbnail o |}.

(** [{ workflow }] and [{ workflow, depositPaid }] on a contract. *)
Definition withContractWorkflow (w : Workflow) (paid : option bool) (c : Contract)
  : Contract :=
  {| c_id := c_id c; c_clientName := c_clientName c; c_client_name := c_client_name c;
     c_clientEmail := c_clientEmail c; c_client_email := c_client_email c;
     c_storeItems := c_storeItems c; c_workflow := Some w;
     c_depositPaid := match paid with Some b => Some b | None => c_depositPaid c end;
     c_travelFee := c_travelFee c; c_paymentMethod := c_paymentMethod c;
     c_contractDate := c_contractDate c; c_createdAt := c_createdAt c |}.

(* ================================================================== *)
(** ** Component state *)

(** The state variables that the modelled code reads or writes. *)
Record State := mkState {
  orders : list OrderItem;
  viewing : option OrderItem;
  workflow : option Workflow;
  wfEditMode : bool;
  lookups : Lookups;
  productsById : list (string * Product);
  productsByName : list (string * Product)
}.

Definition withOrders (os : list OrderItem) (st : State) : State :=
  {| orders := os; viewing := viewing st; workflow := workflow st;
     wfEditMode := wfEditMode st; lookups := lookups st;
     productsById := productsById st; productsByName := productsByName st |}.

Definition withProducts (byId byName : list (string * Product)) (st : State) : State :=
  {| orders := orders st; viewing := viewing st; workflow := workflow st;
     wfEditMode := wfEditMode st; lookups := lookups st;
     productsById := byId; productsByName := byName |}.

Definition withLookups (lk : Lookups) (st : State) : State :=
  {| orders := orders st; viewing := viewing st; workflow := workflow st;
     wfEditMode := wfEditMode st; lookups := lk;
     productsById := productsById st; productsByName := productsByName st |}.

Definition withStaged (w : Workflow) (st : State) : State :=
  {| orders := orders st; viewing := viewing st; workflow := Some w;
     wfEditMode := wfEditMode st; lookups := lookups st;
     productsById := productsById st; productsByName := productsByName st |}.

Definition withViewing (v : option OrderItem) (st : State) : State :=
  {| orders := orders st; viewing := v; workflow := workflow st;
     wfEditMode := wfEditMode st; lookups := lookups st;
     productsById := productsById st; productsByName := productsByName st |}.

Definition withEditMode (b : bool) (st : State) : State :=
  {| orders := orders st; viewing := viewing st; workflow := workflow st;
     wfEditMode := b; lookups := lookups st;
     productsById := productsById st; productsByName := productsByName st |}.

(* ================================================================== *)
(** ** Order store loader: [fetchOrders] (lines 168-315) *)

(** A value that is truthy: a non-empty string. *)
Definition truthy (a : option string) : option string := JS.orOpt a None.

(** [resolveImageForItem] (lines 154-166), on the fields of the records. *)
Definition resolveImageForItem (st : State) (it : OrderLineItem) : option string :=
  match truthy (li_image_url it) with
  | Some u => Some u
  | None =>
      let pid := JS.orOpt (JS.orOpt (li_productId it) (li_product_id it)) (li_productId it) in
      let byPid := match truthy pid with
                   | Some k => match lookup k (productsById st) with
                               | Some p => truthy (p_image_url p)
                               | None => None
                               end
                   | None => None
                   end in
      match byPid with
      | Some u => Some u
      | None =>
          match normalizeStr (li_name it) with
          | EmptyString => None
          | nameKey => match lookup nameKey (productsByName st) with
                       | Some p => truthy (p_image_url p)
                       | None => None
                       end
          end
      end
  end.

(** The two product lookups built from the products snapshot. *)
Definition productMaps (docs : list Product)
  : list (string * Product) * list (string * Product) :=
  fold_left
    (fun acc pdoc =>
       let nameKey := emailKey (JS.orStr (p_name pdoc) "") in
       (store (p_id pdoc) pdoc (fst acc),
        match nameKey with
        | EmptyString => snd acc
        | _ => store nameKey pdoc (snd acc)
        end))
    docs ([], []).

(** [String(it.contractId || it.contract_id || it.contract).replace(/^contract-/, '')] *)
Definition contractRef (it : OrderItem) : string :=
  JS.stripPrefix "contract-"
    (match JS.orOpt (JS.orOpt (o_contractId it) (o_contract_id it)) (o_contract it) with
     | Some s => s
     | None => "undefined"
     end).

(** The accumulators of the aggregation loop of lines 236-255. *)
Record Aggregate := mkAggregate {
  aggItems : list OrderLineItem;
  totalAmt : Z;
  createdAt : option string;
  thumbnail : option string
}.

(** The body of [its.forEach] at lines 243-253. *)
Definition aggregateItem (st : State) (acc : Aggregate) (it : OrderLineItem) : Aggregate :=
  let qty := JS.orNum (JS.nullish (li_quantity it) (JS.nullish (li_qty it) 1%Z)) 1%Z in
  let price := JS.orNum (JS.nullish (li_price it) 0%Z) 0%Z in
  let total := match li_total it with
               | Some t => t
               | None => (price * qty)%Z
               end in
  {| aggItems := aggItems acc ++
                 [ {| li_product_id := None; li_productId := None;
                      li_name := Some (JS.orStr (JS.orOpt (li_name it) (li_product_id it)) "");
                      li_qty := Some qty; li_quantity := None; li_price := Some price;
                      li_total := Some total; li_image_url := None |} ];
     totalAmt := (totalAmt acc + total)%Z;
     createdAt := createdAt acc;
     thumbnail := match truthy (thumbnail acc) with
                  | Some t => Some t
                  | None => match resolveImageForItem st it with
                            | Some r => Some r
                            | None => thumbnail acc
                            end
                  end |}.

(** The body of [for (const eo of existingOrders)]. *)
Definition aggregateOrder (st : State) (acc : Aggregate) (eo : OrderItem) : Aggregate :=
  let acc' := fold_left (aggregateItem st) (JS.nullish (o_items eo) []) acc in
  {| aggItems := aggItems acc'; totalAmt := totalAmt acc';
     createdAt := JS.orOpt (createdAt acc') (JS.orOpt (o_createdAt eo) (o_created_at eo));
     thumbnail := thumbnail acc' |}.

(** The order view pushed at lines 257-268. *)
Definition aggregatedOrder (env : Env) (st : State) (c : Contract)
           (first : OrderItem) (existingOrders : list OrderItem) : OrderItem :=
  let acc := fold_left (aggregateOrder st) existingOrders
               {| aggItems := []; totalAmt := 0;
                  createdAt := JS.orOpt (JS.orOpt (o_createdAt first) (o_created_at first))
                                        (Some (now env));
                  thumbnail := None |} in
  {| o_id := o_id first;
     o_customer_name := Some (JS.orStr (JS.orOpt (c_clientName c) (c_client_name c)) "");
     o_customer_email := Some (JS.orStr (JS.orOpt (c_clientEmail c) (c_client_email c)) "");
     o_payment_method := None; o_notes := None;
     o_items := Some (aggItems acc);
     o_total := Some (totalAmt acc);
     o_created_at := createdAt acc;
     o_status := Some (JS.orStr (o_status first) "pendiente");
     o_workflow := c_workflow c;
     o_contractId := Some (c_id c);
     o_contract_id := None; o_contract := None; o_clientName := None;
     o_clientEmail := None; o_totalAmount := None; o_paymentMethod := None;
     o_createdAt := None; o_depositPaid := None; o_deliveredAt := None;
     o_thumbnail := thumbnail acc |}.

(** [itemsForOrder] (lines 273-278). *)
Definition itemForOrder (si : StoreItem) : OrderLineItem :=
  let qty := JS.orNum (JS.nullish (si_quantity si) (JS.nullish (si_qty si) 1%Z)) 1%Z in
  let price := JS.orNum (JS.nullish (si_price si) 0%Z) 0%Z in
  let total := match si_total si with
               | Some t => t
               | None => (price * qty)%Z
               end in
  {| li_product_id := None; li_productId := None;
     li_name := Some (JS.orStr (JS.orOpt (si_name si) (si_title si)) "");
     li_qty := None; li_quantity := Some qty; li_price := Some price;
     li_total := Some total; li_image_url := si_image_url si |}.

(** [itemsForOrder.reduce((s, it) => s + Number(it.total || 0), 0) + Number(c.travelFee || 0)] *)
Definition totalAmountForContract (itemsForOrder : list OrderLineItem) (c : Contract) : Z :=
  (fold_left (fun s it => s + JS.nullish (li_total it) 0) itemsForOrder 0 +
   JS.nullish (c_travelFee c) 0)%Z.

(** [orderData] (lines 281-290).  The data carries no id: [o_id] is left
    empty until [addDoc] stores the document. *)
Definition orderData (env : Env) (c : Contract) : OrderItem :=
  let itemsForOrder := map itemForOrder (JS.nullish (c_storeItems c) []) in
  {| o_id := "";
     o_customer_name := None; o_customer_email := None; o_payment_method := None;
     o_notes := None;
     o_items := Some itemsForOrder;
     o_total := None; o_created_at := None;
     o_status := Some "pending";
     o_workflow := None;
     o_contractId := Some (c_id c);
     o_contract_id := None; o_contract := None;
     o_clientName := Some (JS.orStr (JS.orOpt (c_clientName c) (c_client_name c)) "");
     o_clientEmail := Some (JS.orStr (JS.orOpt (c_clientEmail c) (c_client_email c)) "");
     o_totalAmount := Some (totalAmountForContract itemsForOrder c);
     o_paymentMethod := Some (JS.orStr (c_paymentMethod c) "");
     o_createdAt := Some (JS.orStr (JS.orOpt (c_contractDate c) (c_createdAt c)) (now env));
     o_depositPaid := None; o_deliveredAt := None; o_thumbnail := None |}.

(** [{ id, ...data, thumbnail }] *)
Definition withId (id : string) (thumb : option string) (d : OrderItem) : OrderItem :=
  {| o_id := id; o_customer_name := o_customer_name d;
     o_customer_email := o_customer_email d; o_payment_method := o_payment_method d;
     o_notes := o_notes d; o_items := o_items d; o_total := o_total d;
     o_created_at := o_created_at d; o_status := o_status d;
     o_workflow := o_workflow d;
     o_contractId := o_contractId d; o_contract_id := o_contract_id d;
     o_contract := o_contract d; o_clientName := o_clientName d;
     o_clientEmail := o_clientEmail d; o_totalAmount := o_totalAmount d;
     o_paymentMethod := o_paymentMethod d; o_createdAt := o_createdAt d;
     o_depositPaid := o_depositPaid d; o_deliveredAt := o_deliveredAt d;
     o_thumbnail := thumb |}.

(** [{ id: refDoc.id, ...orderData, thumbnail: itemsForOrder[0] && itemsForOrder[0].image_url }] *)
Definition generatedOrder (id : string) (d : OrderItem) : OrderItem :=
  withId id (match o_items d with
             | Some (it :: _) => li_image_url it
             | _ => None
             end) d.

(** [addDoc(collection(db, 'orders'), data)]: the document is stored under
    the id the database gives it. *)
Definition addDoc (env : Env) (data : OrderItem) (db : Db) : option (string * Db) :=
  match addDocId env db data with
  | Some id => Some (id, setOrders (db_orders db ++ [withId id (o_thumbnail data) data]) db)
  | None => None
  end.

(** One turn of [for (const c of contractsList)] (lines 217-298): the
    database and the list [generatedFromContracts] after it. *)
Definition ensureOrder (env : Env) (st : State) (items : list OrderItem)
           (acc : Db * list OrderItem) (c : Contract) : Db * list OrderItem :=
  let (db, generatedFromContracts) := acc in
  match JS.nullish (c_storeItems c) [] with
  | [] => acc
  | _ :: _ =>
      if existsb (fun it => contractRef it =? c_id c) items then acc
      else
        let existingOrders :=
          match getOrdersWhereContractId env db (c_id c) with
          | Some docs => docs
          | None => []
          end in
        match existingOrders with
        | first :: _ =>
            (db, generatedFromContracts ++ [aggregatedOrder env st c first existingOrders])
        | [] =>
            match addDoc env (orderData env c) db with
            | Some (id, db') =>
                (db', generatedFromContracts ++ [generatedOrder id (orderData env c)])
            | None => acc
            end
        end
  end.

(** Lines 196-208: the orders by creation time, else all the orders
    sorted by the client, else none. *)
Definition loadItems (env : Env) (db : Db) : list OrderItem :=
  match getOrdersByCreatedAt env db with
  | Some docs => docs
  | None => match getOrders env db with
            | Some docs => sortByCreatedAt env docs
            | None => []
            end
  end.

Definition fetchOrders (env : Env) (st : State) (db : Db) : State * Db :=
  if negb (onLine env) then (withOrders [] st, db)
  else
    let (byId, byName) := match getProducts env db with
                          | Some docs => productMaps docs
                          | None => ([], [])
                          end in
    let items := loadItems env db in
    match getContractsByCreatedAt env db with
    | Some contractsList =>
        let (db', generatedFromContracts) :=
          fold_left (ensureOrder env st items) contractsList (db, []) in
        (withOrders (items ++ generatedFromContracts) (withProducts byId byName st), db')
    | None => (withOrders items (withProducts byId byName st), db)
    end.

(* ================================================================== *)
(** ** Contract lookups: [loadContractsMap] (lines 327-346) *)

Definition contractLookups (docs : list Contract) : Lookups :=
  fold_left
    (fun lk d =>
       {| contractsMap := store (c_id d) d (contractsMap lk);
          contractsByEmail :=
            match contractEmailKey d with
            | EmptyString => contractsByEmail lk
            | email => store email d (contractsByEmail lk)
            end |})
    docs {| contractsMap := []; contractsByEmail := [] |}.

Definition loadContractsMap (env : Env) (st : State) (db : Db) : State :=
  withLookups (match getContracts env db with
               | Some docs => contractLookups docs
               | None => {| contractsMap := []; contractsByEmail := [] |}
               end) st.

(* ================================================================== *)
(** ** Workflow engine: the handlers *)

(** [(x.workflow && x.workflow.length) ? x.workflow : []] *)
Definition workflowOrEmpty (w : option Workflow) : Workflow := JS.nullish w [].

(** [openWorkflow] (lines 449-462).  [getDisplayItems] reads the lookups
    of the render in which the handler was created, also when
    [loadContractsMap] runs first.  The workflow templates are not part of
    the modelled state. *)
Definition openWorkflow (env : Env) (st : State) (o : OrderItem) (db : Db)
  : Fresh State :=
  let st1 := withViewing (Some o) st in
  let st2 := match contractsMap (lookups st) with
             | [] => loadContractsMap env st1 db
             | _ => st1
             end in
  let base := workflowOrEmpty (o_workflow o) in
  let names := displayNames (getDisplayItems (lookups st) o) in
  wf <- ensureDeliveryTasks base names ;;
  ret (withEditMode false (withStaged (jsonClone wf) st2)).

(** The contract an order is synchronised to (lines 471-477, and the same
    text in the other handlers): its [contractId], else the id of the
    contract found by the customer's e-mail. *)
Definition targetContractId (st : State) (v : OrderItem) : option string :=
  match truthy (o_contractId v) with
  | Some cid => Some cid
  | None =>
      match truthy (o_customer_email v) with
      | Some e =>
          match contractByEmail (lookups st) (emailKey e) with
          | Some matched => truthy (Some (c_id matched))
          | None => None
          end
      | None => None
      end
  end.

(** [{ ...t, done: b }] *)
Definition setDone (b : bool) (t : WorkflowTask) : WorkflowTask :=
  {| wt_id := wt_id t; wt_title := wt_title t; wt_done := b;
     wt_due := wt_due t; wt_note := wt_note t |}.

(** [{ ...cat, tasks }] *)
Definition setTasks (tasks : list WorkflowTask) (cat : WorkflowCategory)
  : WorkflowCategory :=
  {| wc_id := wc_id cat; wc_name := wc_name cat; wc_tasks := tasks |}.

(** Lines 489-496: every task of every delivery category of [merged] takes
    the [done] of the first task of [ordDeliveryCat] with its normalised
    title, when there is one. *)
Definition mergeDone (ordDeliveryCat : WorkflowCategory) (merged : Workflow) : Workflow :=
  map (fun cat =>
         if isDelivery cat
         then setTasks
                (map (fun t =>
                        match JS.find (fun ot => normalize (wt_title ot) =? normalize (wt_title t))
                                      (wc_tasks ordDeliveryCat) with
                        | Some m => setDone (wt_done m) t
                        | None => t
                        end)
                     (wc_tasks cat))
                cat
         else cat)
      merged.

(** Lines 479-499 (and 806-826, 837-857): the delivery state of the
    order's workflow [wf] written to the contract [cid], when it exists. *)
Definition syncDeliveryToContract (st : State) (v : OrderItem) (wf : Workflow)
           (cid : string) (db : Db) : Fresh Db :=
  match getContract cid db with
  | Some contract =>
      let base := workflowOrEmpty (c_workflow contract) in
      let names := displayNames (getDisplayItems (lookups st) v) in
      merged <- ensureDeliveryTasks base names ;;
      let merged := match JS.find isDelivery wf with
                    | Some ordDeliveryCat => mergeDone ordDeliveryCat merged
                    | None => merged
                    end in
      ret (JS.nullish (updateContract cid (withContractWorkflow merged None) db) db)
  | None => ret db
  end.

(** [saveWorkflow] (lines 464-506); [None] when the promise rejects, which
    is when the order document is missing. *)
Definition saveWorkflow (env : Env) (st : State) (db : Db)
  : Fresh (option (State * Db)) :=
  match viewing st, workflow st with
  | Some v, Some wf =>
      match updateOrder (o_id v) (withWorkflow wf) db with
      | None => ret None
      | Some db1 =>
          db2 <- match targetContractId st v with
                 | Some cid => syncDeliveryToContract st v wf cid db1
                 | None => ret db1
                 end ;;
          ret (Some (fetchOrders env st db2))
      end
  | _, _ => ret (Some (st, db))
  end.

(** [l.map((x, i) => i === k ? f(x) : x)] *)
Fixpoint mapAt {A} (k : nat) (f : A -> A) (l : list A) : list A :=
  match l, k with
  | [], _ => []
  | x :: l', O => f x :: l'
  | x :: l', S k' => x :: mapAt k' f l'
  end.

(** The [onChange] handler of the checkbox of task [ti] of category [ci]
    (lines 796-863). *)
Definition onTaskChange (st : State) (ci ti : nat) (checked : bool) (db : Db)
  : Fresh (State * Db) :=
  match workflow st, viewing st with
  | Some wf, Some v =>
      let updated :=
        mapAt ci (fun c => setTasks (mapAt ti (setDone checked) (wc_tasks c)) c) wf in
      let st' := withStaged updated st in
      if JS.startsWith (o_id v) "contract-" then
        match truthy (Some (JS.orStr (o_contractId v) (JS.stripPrefix "contract-" (o_id v)))) with
        | Some contractId =>
            db' <- syncDeliveryToContract st v updated contractId db ;;
            ret (st', db')
        | None => ret (st', db)
        end
      else
        match updateOrder (o_id v) (withWorkflow updated) db with
        | None => ret (st', db)
        | Some db1 =>
            match targetContractId st v with
            | Some cid =>
                db2 <- syncDeliveryToContract st v updated cid db1 ;;
                ret (st', db2)
            | None => ret (st', db1)
            end
        end
  | _, _ => ret (st, db)
  end.

(* ================================================================== *)
(** ** Payment state toggle (lines 555-664) *)

(** [wf.map(cat => ({ ...cat, tasks: cat.tasks.map(t =>
      ({ ...t, done: normalize(cat.name).includes('entrega') ? b : t.done })) }))] *)
Definition setDeliveryDone (b : bool) (wf : Workflow) : Workflow :=
  map (fun cat =>
         setTasks (map (fun t => setDone (if isDelivery cat then b else wt_done t) t)
                       (wc_tasks cat))
                  cat)
      wf.

(** [merged.forEach(cat => { if (...includes('entrega'))
      cat.tasks = cat.tasks.map(t => ({ ...t, done: b })) })] *)
Definition setContractDeliveryDone (b : bool) (merged : Workflow) : Workflow :=
  map (fun cat => if isDelivery cat
                  then setTasks (map (setDone b) (wc_tasks cat)) cat
                  else cat)
      merged.

(** The contract's side of the two handlers (lines 580-602, 636-656):
    [st1] is the state with the staged workflow written, [db1] the store
    after the order's update. *)
Definition writePaidContract (paid : bool) (env : Env) (st st1 : State)
           (v : OrderItem) (db1 : Db) : Fresh (State * Db) :=
  match targetContractId st v with
  | Some cid =>
      match getContract cid db1 with
      | Some contract =>
          let base := workflowOrEmpty (c_workflow contract) in
          let names := displayNames (getDisplayItems (lookups st) v) in
          merged <- ensureDeliveryTasks base names ;;
          let merged := setContractDeliveryDone paid merged in
          let db2 := JS.nullish
                       (updateContract cid (withContractWorkflow merged (Some paid)) db1)
                       db1 in
          ret (loadContractsMap env st1 db2, db2)
      | None => ret (st1, db1)
      end
  | None => ret (st1, db1)
  end.

(** The common text of [markDeliveryPaid] and [resetDeliveryPaid], which
    differ in the flag, the status and the delivery time they write. *)
Definition writePaidState (paid : bool) (status : string) (deliveredAt : option string)
           (env : Env) (st : State) (db : Db) : Fresh (State * Db) :=
  match viewing st with
  | None => ret (st, db)
  | Some v =>
      let updatedLocal := setDeliveryDone paid (workflowOrEmpty (workflow st)) in
      let st1 := withViewing (Some (withPaidState updatedLocal paid status v))
                             (withStaged updatedLocal st) in
      let db1 := JS.nullish
                   (updateOrder (o_id v)
                                (withPaidFields updatedLocal paid status deliveredAt) db)
                   db in
      r <- writePaidContract paid env st st1 v db1 ;;
      let (st3, db3) := fetchOrders env (fst r) (snd r) in
      ret (loadContractsMap env st3 db3, db3)
  end.

Definition markDeliveryPaid (env : Env) : State -> Db -> Fresh (State * Db) :=
  writePaidState true "completado" (Some (now env)) env.

Definition resetDeliveryPaid (env : Env) : State -> Db -> Fresh (State * Db) :=
  writePaidState false "pendiente" None env.

(* ================================================================== *)
(** ** [ensureDeliveryTasks] on objects

    The workflow that the handlers pass around is an array of category
    objects, each holding an array of task objects.  To state what the
    function does to the objects it is given, it is modelled here a second
    time, on a heap: an array, a category and a task are references, the
    heap maps the references of each kind to the objects, a new object
    gets the next reference, and [push] and index assignment write the
    array they are applied to.  [None] is a [TypeError] (a property read
    on [undefined]). *)

Definition Ref := nat.

(** A category object: [{ id, name, tasks }]. *)
Record CategoryObject := mkCategoryObject {
  co_id : string;
  co_name : string;
  co_tasks : Ref
}.

Record Heap := mkHeap {
  taskObjects : list WorkflowTask;
  taskArrays : list (list Ref);
  categoryObjects : list CategoryObject;
  categoryArrays : list (list Ref)
}.

Definition OnHeap (A : Type) := Heap -> UidSupply -> option (A * Heap * UidSupply).

Definition hret {A} (a : A) : OnHeap A := fun h s => Some (a, h, s).

Definition hbind {A B} (m : OnHeap A) (k : A -> OnHeap B) : OnHeap B :=
  fun h s => match m h s with
             | Some (a, h', s') => k a h' s'
             | None => None
             end.

Notation "x <~ m ;; k" := (hbind m (fun x => k))
  (at level 61, m at next level, right associativity).

Definition typeError {A} : OnHeap A := fun _ _ => None.

(** [uid()] *)
Definition huid : OnHeap string := fun h s => Some (s 0, h, fun n => s (S n)).

(** Reading an object through its reference. *)
Definition getTask (r : Ref) : OnHeap WorkflowTask :=
  fun h s => option_map (fun t => (t, h, s)) (nth_error (taskObjects h) r).

Definition getTasks (r : Ref) : OnHeap (list Ref) :=
  fun h s => option_map (fun a => (a, h, s)) (nth_error (taskArrays h) r).

Definition getCategory (r : Ref) : OnHeap CategoryObject :=
  fun h s => option_map (fun c => (c, h, s)) (nth_error (categoryObjects h) r).

Definition getCategories (r : Ref) : OnHeap (list Ref) :=
  fun h s => option_map (fun a => (a, h, s)) (nth_error (categoryArrays h) r).

(** Creating an object: it gets the next reference of its kind. *)
Definition newTask (t : WorkflowTask) : OnHeap Ref :=
  fun h s => Some (List.length (taskObjects h),
                   {| taskObjects := taskObjects h ++ [t];
                      taskArrays := taskArrays h;
                      categoryObjects := categoryObjects h;
                      categoryArrays := categoryArrays h |}, s).

Definition newTasks (a : list Ref) : OnHeap Ref :=
  fun h s => Some (List.length (taskArrays h),
                   {| taskObjects := taskObjects h;
                      taskArrays := taskArrays h ++ [a];
                      categoryObjects := categoryObjects h;
                      categoryArrays := categoryArrays h |}, s).

Definition newCategory (c : CategoryObject) : OnHeap Ref :=
  fun h s => Some (List.length (categoryObjects h),
                   {| taskObjects := taskObjects h;
                      taskArrays := taskArrays h;
                      categoryObjects := categoryObjects h ++ [c];
                      categoryArrays := categoryArrays h |}, s).

Definition newCategories (a : list Ref) : OnHeap Ref :=
  fun h s => Some (List.length (categoryArrays h),
                   {| taskObjects := taskObjects h;
                      taskArrays := taskArrays h;
                      categoryObjects := categoryObjects h;
                      categoryArrays := categoryArrays h ++ [a] |}, s).

(** Writing the elements of an array. *)
Definition putTasks (r : Ref) (a : list Ref) : OnHeap unit :=
  fun h s => match nth_error (taskArrays h) r with
             | Some _ => Some (tt,
                   {| taskObjects := taskObjects h;
                      taskArrays := setNth r a (taskArrays h);
                      categoryObjects := categoryObjects h;
                      categoryArrays := categoryArrays h |}, s)
             | None => None
             end.

Definition putCategories (r : Ref) (a : list Ref) : OnHeap unit :=
  fun h s => match nth_error (categoryArrays h) r with
             | Some _ => Some (tt,
                   {| taskObjects := taskObjects h;
                      taskArrays := taskArrays h;
                      categoryObjects := categoryObjects h;
                      categoryArrays := setNth r a (categoryArrays h) |}, s)
             | None => None
             end.

Fixpoint mapOnHeap {A B} (f : A -> OnHeap B) (l : list A) : OnHeap (list B) :=
  match l with
  | [] => hret []
  | x :: l' => y <~ f x ;; ys <~ mapOnHeap f l' ;; hret (y :: ys)
  end.

Fixpoint forEachOnHeap {A} (f : A -> OnHeap unit) (l : list A) : OnHeap unit :=
  match l with
  | [] => hret tt
  | x :: l' => _ <~ f x ;; forEachOnHeap f l'
  end.

(** [JSON.parse(JSON.stringify(base))]: a new object for every task,
    task array and category, and a new array of the categories. *)
Definition cloneTaskObject (r : Ref) : OnHeap Ref :=
  t <~ getTask r ;; newTask (cloneTask t).

Definition cloneCategoryObject (r : Ref) : OnHeap Ref :=
  c <~ getCategory r ;;
  ts <~ getTasks (co_tasks c) ;;
  ts' <~ mapOnHeap cloneTaskObject ts ;;
  a <~ newTasks ts' ;;
  newCategory {| co_id := co_id c; co_name := co_name c; co_tasks := a |}.

Definition jsonCloneObject (base : Ref) : OnHeap Ref :=
  cs <~ getCategories base ;;
  cs' <~ mapOnHeap cloneCategoryObject cs ;;
  newCategories cs'.

(** [cloned.findIndex(c => normalize(c.name).includes('entrega'))] *)
Fixpoint findDeliveryIndex (cs : list Ref) : OnHeap (option nat) :=
  match cs with
  | [] => hret None
  | r :: cs' =>
      c <~ getCategory r ;;
      if JS.includes (normalize (co_name c)) "entrega" then hret (Some 0)
      else i <~ findDeliveryIndex cs' ;; hret (option_map S i)
  end.

(** [tasks.some(t => normalize(t.title) === normalize(title))] *)
Fixpoint someTitle (title : string) (ts : list Ref) : OnHeap bool :=
  match ts with
  | [] => hret false
  | r :: ts' =>
      t <~ getTask r ;;
      if normalize (wt_title t) =? normalize title then hret true
      else someTitle title ts'
  end.

(** The body of [productNames.forEach] for the category object [cat]. *)
Definition pushDeliveryTask (cat : Ref) (n : string) : OnHeap unit :=
  let title := deliveryTitle n in
  c <~ getCategory cat ;;
  ts <~ getTasks (co_tasks c) ;;
  found <~ someTitle title ts ;;
  if found then hret tt
  else id <~ huid ;;
       t <~ newTask {| wt_id := id; wt_title := title; wt_done := false;
                       wt_due := None; wt_note := None |} ;;
       ts <~ getTasks (co_tasks c) ;;
       putTasks (co_tasks c) (ts ++ [t]).

Definition ensureDeliveryTasksObject (base : Ref) (productNames : list string)
  : OnHeap Ref :=
  cloned <~ jsonCloneObject base ;;
  cs <~ getCategories cloned ;;
  findIdx <~ findDeliveryIndex cs ;;
  let idx := match findIdx with Some i => i | None => List.length cs end in
  _ <~ match findIdx with
       | Some _ => hret tt
       | None =>
           id <~ huid ;;
           a <~ newTasks [] ;;
           c <~ newCategory {| co_id := id; co_name := "Entrega de productos";
                               co_tasks := a |} ;;
           cs <~ getCategories cloned ;;
           putCategories cloned (cs ++ [c])
       end ;;
  cs <~ getCategories cloned ;;
  match nth_error cs idx with
  | Some cat =>
      _ <~ forEachOnHeap (pushDeliveryTask cat) productNames ;;
      cs <~ getCategories cloned ;;
      _ <~ putCategories cloned (setNth idx cat cs) ;;
      hret cloned
  | None => typeError
  end.

(** The workflow value that a reference stands for in a heap. *)
Fixpoint mapOption {A B} (f : A -> option B) (l : list A) : option (list B) :=
  match l with
  | [] => Some []
  | x :: l' =>
      match f x, mapOption f l' with
      | Some y, Some ys => Some (y :: ys)
      | _, _ => None
      end
  end.

Definition taskAt (h : Heap) (r : Ref) : option WorkflowTask :=
  nth_error (taskObjects h) r.

Definition tasksAt (h : Heap) (r : Ref) : option (list WorkflowTask) :=
  match nth_error (taskArrays h) r with
  | Some a => mapOption (taskAt h) a
  | None => None
  end.

Definition categoryAt (h : Heap) (r : Ref) : option WorkflowCategory :=
  match nth_error (categoryObjects h) r with
  | Some c => option_map (mkCat (co_id c) (co_name c)) (tasksAt h (co_tasks c))
  | None => None
  end.

Definition workflowAt (h : Heap) (r : Ref) : option Workflow :=
  match nth_error (categoryArrays h) r with
  | Some a => mapOption (categoryAt h) a
  | None => None
  end.
(* ================================================================== *)
(** * The rest of the component

    The code of the three source files that the sections above leave
    out: the status badges, the remaining handlers of [OrdersManagement],
    the summary of the open order, the floating WhatsApp panel and the
    header and layout of the site. *)

(* ------------------------------------------------------------------ *)
(** ** Status badges (lines 677-699) *)

(** [(counts as any)[s]] for [s] one of ['todas', 'pendiente',
    'procesando', 'completado']: the number shown on the button that sets
    [statusFilter] to [s]. *)
Definition badgeCount (s : StatusFilter) (c : Counts) : nat :=
  match s with
  | todas => n_todas c
  | only pendiente => n_pendiente c
  | only procesando => n_procesando c
  | only completado => n_completado c
  end.

(* ------------------------------------------------------------------ *)
(** ** [updateStatus] and [remove] (lines 366-375) *)

(** [{ status }] *)
Definition withStatus (status : string) (o : OrderItem) : OrderItem :=
  {| o_id := o_id o; o_customer_name := o_customer_name o;
     o_customer_email := o_customer_email o; o_payment_method := o_payment_method o;
     o_notes := o_notes o; o_items := o_items o; o_total := o_total o;
     o_created_at := o_created_at o; o_status := Some status;
     o_workflow := o_workflow o;
     o_contractId := o_contractId o; o_contract_id := o_contract_id o;
     o_contract := o_contract o; o_clientName := o_clientName o;
     o_clientEmail := o_clientEmail o; o_totalAmount := o_totalAmount o;
     o_paymentMethod := o_paymentMethod o; o_createdAt := o_createdAt o;
     o_depositPaid := o_depositPaid o; o_deliveredAt := o_deliveredAt o;
     o_thumbnail := o_thumbnail o |}.

(** [updateStatus]; [None] when [updateDoc] rejects, the orders then not
    being loaded again. *)
Definition updateStatus (env : Env) (st : State) (id : string) (status : OrderStatus)
           (db : Db) : option (State * Db) :=
  match updateOrder id (withStatus (statusString status)) db with
  | Some db1 => Some (fetchOrders env st db1)
  | None => None
  end.

(** [deleteDoc(doc(db, 'orders', id))], which succeeds whether or not the
    document exists. *)
Definition deleteOrder (id : string) (db : Db) : Db :=
  setOrders (filter (fun o => negb (o_id o =? id)) (db_orders db)) db.

(** [remove]; [confirmed] is the answer to [confirm('¿Eliminar esta orden?')]. *)
Definition remove (env : Env) (confirmed : bool) (st : State) (id : string) (db : Db)
  : State * Db :=
  if negb confirmed then (st, db)
  else fetchOrders env st (deleteOrder id db).

(* ------------------------------------------------------------------ *)
(** ** [applyTemplateToOrder] (lines 508-512) *)

(** A task and a category of a workflow template, by the fields that
    [applyTemplateToOrder] reads or copies; an id may be missing. *)
Record TemplateTask := mkTemplateTask {
  tt_id : option string;
  tt_title : string;
  tt_done : bool;
  tt_due : option (option string);
  tt_note : option string
}.

Record TemplateCategory := mkTemplateCategory {
  tc_id : option string;
  tc_name : string;
  tc_tasks : list TemplateTask
}.

Record WorkflowTemplate := mkTemplate {
  tpl_id : string;
  tpl_name : string;
  tpl_categories : list TemplateCategory
}.

(** [id || uid()]: [uid] is called only when the id is missing or empty. *)
Definition orUid (id : option string) : Fresh string :=
  match truthy id with
  | Some i => ret i
  | None => uid
  end.

(** [l.map(f)] for a callback that may call [uid]. *)
Fixpoint mapFresh {A B} (f : A -> Fresh B) (l : list A) : Fresh (list B) :=
  match l with
  | [] => ret []
  | x :: l' => y <- f x ;; ys <- mapFresh f l' ;; ret (y :: ys)
  end.

(** [{ ...t, id: t.id || uid(), done: false }] *)
Definition templateTask (t : TemplateTask) : Fresh WorkflowTask :=
  id <- orUid (tt_id t) ;;
  ret {| wt_id := id; wt_title := tt_title t; wt_done := false;
         wt_due := tt_due t; wt_note := tt_note t |}.

(** [{ id: c.id || uid(), name: c.name, tasks: c.tasks.map(...) }] *)
Definition templateCategory (c : TemplateCategory) : Fresh WorkflowCategory :=
  id <- orUid (tc_id c) ;;
  tasks <- mapFresh templateTask (tc_tasks c) ;;
  ret {| wc_id := id; wc_name := tc_name c; wc_tasks := tasks |}.

Definition applyTemplateToOrder (tpl : option WorkflowTemplate) (st : State)
  : Fresh State :=
  match tpl with
  | None => ret st
  | Some t =>
      cloned <- mapFresh templateCategory (tpl_categories t) ;;
      ret (withStaged cloned st)
  end.

(* ------------------------------------------------------------------ *)
(** ** [autoLinkOrders] (lines 516-552) *)

(** [{ contractId: target.id }] *)
Definition withContractId (cid : string) (o : OrderItem) : OrderItem :=
  {| o_id := o_id o; o_customer_name := o_customer_name o;
     o_customer_email := o_customer_email o; o_payment_method := o_payment_method o;
     o_notes := o_notes o; o_items := o_items o; o_total := o_total o;
     o_created_at := o_created_at o; o_status := o_status o;
     o_workflow := o_workflow o;
     o_contractId := Some cid; o_contract_id := o_contract_id o;
     o_contract := o_contract o; o_clientName := o_clientName o;
     o_clientEmail := o_clientEmail o; o_totalAmount := o_totalAmount o;
     o_paymentMethod := o_paymentMethod o; o_createdAt := o_createdAt o;
     o_depositPaid := o_depositPaid o; o_deliveredAt := o_deliveredAt o;
     o_thumbnail := o_thumbnail o |}.

(** [!o.contractId] *)
Definition noContractId (o : OrderItem) : bool :=
  match truthy (o_contractId o) with
  | Some _ => false
  | None => true
  end.

(** Lines 523-531: the contract found for an order, by the customer's
    e-mail, else the first contract with a store item whose name, in lower
    case and trimmed, is that of an item of the order. *)
Definition linkTarget (lk : Lookups) (o : OrderItem) : option Contract :=
  let byEmail := match truthy (o_customer_email o) with
                 | Some e => contractByEmail lk (emailKey e)
                 | None => None
                 end in
  match byEmail with
  | Some target => Some target
  | None =>
      let onames := map (fun it => emailKey (lineName it)) (JS.nullish (o_items o) []) in
      JS.find (fun c =>
                 match c_storeItems c with
                 | Some sis =>
                     existsb (fun si => inNames onames (emailKey (JS.orStr (si_name si) "")))
                             sis
                 | None => false
                 end)
              (values (contractsMap lk))
  end.

(** One turn of [for (const o of toProcess)]: the store and [count]. *)
Definition linkOrder (lk : Lookups) (acc : Db * nat) (o : OrderItem) : Db * nat :=
  match linkTarget lk o with
  | Some target =>
      match updateOrder (o_id o) (withContractId (c_id target)) (fst acc) with
      | Some db' => (db', S (snd acc))
      | None => acc
      end
  | None => acc
  end.

(** [autoLinkOrders]: the state, the store, and the number that the final
    [alert] shows ([None] when there is no alert: the confirmation was
    declined, or the contracts could not be read again). *)
Definition autoLinkOrders (env : Env) (confirmed : bool) (st : State) (db : Db)
  : State * Db * option nat :=
  if negb confirmed then (st, db, None)
  else
    let toProcess := filter noContractId (orders st) in
    let (db1, count) := fold_left (linkOrder (lookups st)) toProcess (db, 0) in
    let (st1, db2) := fetchOrders env st db1 in
    match getContracts env db2 with
    | Some docs => (withLookups (contractLookups docs) st1, db2, Some count)
    | None => (st1, db2, None)
    end.

(* ------------------------------------------------------------------ *)
(** ** Edit mode (lines 780-903)

    The handlers of edit mode update the staged workflow with
    [setWorkflow(w => ...)] on a copy [n] of it ([[]] when there is none).
    The indices [ci] and [ti] are those of the category and the task that
    the control was rendered for.  A result is [None] when the source
    builds no workflow: an index beyond the array makes [n[ci] = {...}] or
    [ts[ti] = {...}] store an object without the fields of a category or a
    task, and makes [n[ci].tasks] a [TypeError]. *)

(** [n.splice(k, 1)] and [l.filter((_, idx) => idx !== k)] *)
Fixpoint removeAt {A} (k : nat) (l : list A) : list A :=
  match l, k with
  | [], _ => []
  | _ :: l', O => l'
  | x :: l', S k' => x :: removeAt k' l'
  end.

(** [n[k] = f(n[k])] for [k] within the array. *)
Definition updateAt {A} (k : nat) (f : A -> A) (l : list A) : option (list A) :=
  match nth_error l k with
  | Some x => Some (setNth k (f x) l)
  | None => None
  end.

(** [{ ...cat, name }], [{ ...t, title }] and [{ ...t, due }] *)
Definition setName (name : string) (cat : WorkflowCategory) : WorkflowCategory :=
  {| wc_id := wc_id cat; wc_name := name; wc_tasks := wc_tasks cat |}.

Definition setTitle (title : string) (t : WorkflowTask) : WorkflowTask :=
  {| wt_id := wt_id t; wt_title := title; wt_done := wt_done t;
     wt_due := wt_due t; wt_note := wt_note t |}.

Definition setDue (due : option string) (t : WorkflowTask) : WorkflowTask :=
  {| wt_id := wt_id t; wt_title := wt_title t; wt_done := wt_done t;
     wt_due := Some due; wt_note := wt_note t |}.

(** Line 781: the name of category [ci]. *)
Definition renameCategory (ci : nat) (val : string) (w : option Workflow)
  : option Workflow :=
  updateAt ci (setName val) (workflowOrEmpty w).

(** Line 788: category [ci] removed. *)
Definition deleteCategory (ci : nat) (w : option Workflow) : Workflow :=
  removeAt ci (workflowOrEmpty w).

(** The update of the tasks of category [ci] that lines 868-891 share:
    [n[ci] = { ...n[ci], tasks: ts }] for [ts] computed from [n[ci].tasks]. *)
Definition updateTasks (ci : nat)
           (f : list WorkflowTask -> option (list WorkflowTask))
           (w : option Workflow) : option Workflow :=
  match nth_error (workflowOrEmpty w) ci with
  | Some cat =>
      match f (wc_tasks cat) with
      | Some ts => Some (setNth ci (setTasks ts cat) (workflowOrEmpty w))
      | None => None
      end
  | None => None
  end.

(** Lines 868 and 879: the title, and the due time, of task [ti]. *)
Definition renameTask (ci ti : nat) (val : string) (w : option Workflow)
  : option Workflow :=
  updateTasks ci (updateAt ti (setTitle val)) w.

Definition setTaskDue (ci ti : nat) (iso : option string) (w : option Workflow)
  : option Workflow :=
  updateTasks ci (updateAt ti (setDue iso)) w.

(** Line 882: task [ti] removed. *)
Definition deleteTask (ci ti : nat) (w : option Workflow) : option Workflow :=
  updateTasks ci (fun ts => Some (removeAt ti ts)) w.

(** Line 891: a task "Nueva tarea" added to category [ci]; [uid] is
    called after [n[ci].tasks] is read. *)
Definition addTask (ci : nat) (w : option Workflow) : Fresh (option Workflow) :=
  match nth_error (workflowOrEmpty w) ci with
  | Some cat =>
      id <- uid ;;
      ret (Some (setNth ci
                   (setTasks (wc_tasks cat ++
                              [ {| wt_id := id; wt_title := "Nueva tarea";
                                   wt_done := false; wt_due := None; wt_note := None |} ])
                             cat)
                   (workflowOrEmpty w)))
  | None => ret None
  end.

(** Line 902: a category "Nueva categoría" (with í = U+00ED) added. *)
Definition addCategory (w : option Workflow) : Fresh Workflow :=
  id <- uid ;;
  ret (workflowOrEmpty w ++
       [ {| wc_id := id;
            wc_name := ("Nueva categor" ++ String (ascii_of_nat 237) "a")%string;
            wc_tasks := [] |} ]).

(* ------------------------------------------------------------------ *)
(** ** The summary of the order viewed (lines 963-1007)

    The subtotal is a sum of products of the integers of the embedding.
    The deposit and the rest are computed from it with [0.5], [100] and
    [Math.round]; on an integer subtotal below 2^46 in size every step of
    that computation is exact in double precision, and it is written here
    on rationals. *)

From Stdlib Require QArith Qround.

(** [viewing.contractId ? contractsMap[viewing.contractId] : null] *)
Definition summaryContract (lk : Lookups) (v : OrderItem) : option Contract :=
  match truthy (o_contractId v) with
  | Some cid => lookup cid (contractsMap lk)
  | None => None
  end.

(** [storeTotal] (lines 968-975): the contract's prices times quantities
    when the contract of [contractId] has store items, else the totals of
    the rows of the display. *)
Definition storeTotal (lk : Lookups) (v : OrderItem) : Z :=
  match summaryContract lk v with
  | Some {| c_storeItems := Some (si :: sis) |} =>
      fold_left
        (fun s it => s + JS.nullish (si_price it) 0 *
                         JS.nullish (si_quantity it) (JS.nullish (si_qty it) 1))%Z
        (si :: sis) 0%Z
  | _ =>
      fold_left
        (fun s it => s + JS.nullish (li_total it)
                           (JS.nullish (li_price it) 0 *
                            JS.nullish (li_qty it) (JS.nullish (li_quantity it) 1)))%Z
        (getDisplayItems lk v) 0%Z
  end.

(** [Math.round(x)]: the integer nearest to [x], the greater one of two. *)
Definition mathRound (x : QArith_base.Q) : Z :=
  Qround.Qfloor (QArith_base.Qplus x (QArith_base.Qmake 1 2)).

(** [Math.round((storeTotal * 0.5) * 100) / 100] *)
Definition depositAmount (storeTotal : Z) : QArith_base.Q :=
  QArith_base.Qdiv
    (QArith_base.inject_Z
       (mathRound
          (QArith_base.Qmult
             (QArith_base.Qmult (QArith_base.inject_Z storeTotal) (QArith_base.Qmake 1 2))
             (QArith_base.inject_Z 100))))
    (QArith_base.inject_Z 100).


(** [Boolean(contract && contract.depositPaid) || Boolean(viewing.depositPaid)] *)
Definition depositPaid (lk : Lookups) (v : OrderItem) : bool :=
  match summaryContract lk v with
  | Some contract => JS.nullish (c_depositPaid contract) false
  | None => false
  end || JS.nullish (o_depositPaid v) false.

(* ------------------------------------------------------------------ *)
(** ** The floating WhatsApp panel and the link of the layout
       ([FloatingWhatsApp], lines 1-84 of [FloatingWhatsApp.tsx];
        [Layout.tsx], line 85) *)

Module URI.

(** The characters that [encodeURIComponent] leaves as they are:
    A-Z a-z 0-9 - _ . ! ~ * ' ( ) *)
Definition unreserved (c : ascii) : bool :=
  let n := N_of_ascii c in
  ((65 <=? n) && (n <=? 90) || (97 <=? n) && (n <=? 122) ||
   (48 <=? n) && (n <=? 57) ||
   (n =? 45) || (n =? 95) || (n =? 46) || (n =? 33) || (n =? 126) ||
   (n =? 42) || (n =? 39) || (n =? 40) || (n =? 41))%N.

(** A hexadecimal digit, in upper case. *)
Definition hexDigit (n : N) : ascii :=
  if (n <? 10)%N then ascii_of_N (48 + n) else ascii_of_N (55 + n).

(** The escape [%XX] of a byte. *)
Definition escape (byte : N) : string :=
  String "%" (String (hexDigit (byte / 16)) (String (hexDigit (byte mod 16)) "")).

(** The escapes of the UTF-8 bytes of a code point below U+0100: one byte
    below U+0080, else the two bytes 110000xx 10xxxxxx. *)
Definition escapeChar (c : ascii) : string :=
  let n := N_of_ascii c in
  if (n <? 128)%N then escape n
  else (escape (192 + n / 64) ++ escape (128 + n mod 64))%string.

(** [encodeURIComponent(s)] *)
Fixpoint encodeURIComponent (s : string) : string :=
  match s with
  | EmptyString => EmptyString
  | String c s' =>
      ((if unreserved c then String c EmptyString else escapeChar c) ++
       encodeURIComponent s')%string
  end.

End URI.

(** [const PHONE = '5541984875565'] *)
Definition PHONE : string := "5541984875565".

(** The state of [FloatingWhatsApp]: [open] and [message]. *)
Record Panel := mkPanel {
  panelOpen : bool;
  message : string
}.

(** 'Hola, quiero reservar una sesión' (ó = U+00F3) *)
Definition defaultText : string :=
  ("Hola, quiero reservar una sesi" ++ String (ascii_of_nat 243) "n")%string.

(** [sendWhatsApp] (lines 30-36): the URL given to [window.open] and the
    state after it. *)
Definition sendWhatsApp (p : Panel) : string * Panel :=
  let text := match JS.trim (message p) with
              | EmptyString => defaultText
              | t => t
              end in
  let url := ("https://wa.me/" ++ PHONE ++ "?text=" ++
              URI.encodeURIComponent text)%string in
  (url, {| panelOpen := false; message := "" |}).

(** The [href] of the link that [Layout] renders (line 85 of [Layout.tsx]). *)
Definition layoutWhatsAppHref : string :=
  ("https://wa.me/5541984875565?text=" ++ URI.encodeURIComponent defaultText)%string.

(* ------------------------------------------------------------------ *)
(** ** The header of the site ([Header], [src/unnamed/part_000]) and the
       admin overlay of the layout ([Layout.tsx], lines 43-61) *)

(** What the handlers do to the world besides their own state, in the
    order they do it. *)
Inductive Effect :=
| SignOut                              (** [firebaseSignOut(auth)] *)
| SignIn (email password : string)     (** [signInWithEmailAndPassword(auth, email, password)] *)
| InitOverlay                          (** [ImageAdminOverlay.initImageAdminOverlay()] *)
| DestroyOverlay                       (** [ImageAdminOverlay.destroyImageAdminOverlay()] *)
| Navigate (path : string).            (** [navigate(path)] *)

(** The error that a rejected sign-in throws: [e.code], [e.message] and
    [String(e)]. *)
Record AuthError := mkAuthError {
  err_code : option string;
  err_message : option string;
  err_string : string
}.

(** The browser and the services: whether [localStorage] can be written,
    [navigator.onLine], and the answer of the sign-in ([None]: signed in). *)
Record Browser := mkBrowser {
  storageWorks : bool;
  siteOnLine : bool;
  signIn : string -> string -> option AuthError
}.

(** The state of [Header] that the admin handlers read or write. *)
Record HeaderState := mkHeader {
  isAdmin : bool;
  showAdminModal : bool;
  adminEmail : string;
  adminPassword : string;
  adminModalError : string
}.

(** The value of [localStorage]'s ['site_admin_mode'], the header, and
    the effects so far (latest last). *)
Record Site := mkSite {
  storage : option string;
  header : HeaderState;
  effects : list Effect
}.

Definition withHeader (h : HeaderState) (w : Site) : Site :=
  {| storage := storage w; header := h; effects := effects w |}.

Definition withStorage (v : option string) (w : Site) : Site :=
  {| storage := v; header := header w; effects := effects w |}.

Definition logEffect (e : Effect) (w : Site) : Site :=
  {| storage := storage w; header := header w; effects := effects w ++ [e] |}.

Definition setIsAdmin (b : bool) (h : HeaderState) : HeaderState :=
  {| isAdmin := b; showAdminModal := showAdminModal h; adminEmail := adminEmail h;
     adminPassword := adminPassword h; adminModalError := adminModalError h |}.

Definition setAdminModalError (e : string) (h : HeaderState) : HeaderState :=
  {| isAdmin := isAdmin h; showAdminModal := showAdminModal h;
     adminEmail := adminEmail h; adminPassword := adminPassword h;
     adminModalError := e |}.

(** [localStorage.getItem('site_admin_mode') ? true : false] *)
Definition adminFlag (w : Site) : bool :=
  match truthy (storage w) with
  | Some _ => true
  | None => false
  end.

(** [e?.detail ?? (localStorage.getItem('site_admin_mode') ? true : false)];
    [detail] is the flag of a ['siteAdminModeChanged'] event, and is
    missing on a ['storage'] event. *)
Definition eventValue (detail : option bool) (w : Site) : bool :=
  JS.nullish detail (adminFlag w).

(** The listener of [Header] (lines 24-27), on ['siteAdminModeChanged']
    and on ['storage']. *)
Definition headerHandler (detail : option bool) (w : Site) : Site :=
  withHeader (setIsAdmin (eventValue detail w) (header w)) w.

(** The listener of [Layout] (lines 44-51 of [Layout.tsx]), on
    ['siteAdminModeChanged']. *)
Definition layoutHandler (detail : option bool) (w : Site) : Site :=
  logEffect (if eventValue detail w then InitOverlay else DestroyOverlay) w.

(** [window.dispatchEvent(new CustomEvent('siteAdminModeChanged', { detail }))]:
    the listeners run at once, in the order they were added (the effect of
    [Header], a child of [Layout], runs first). *)
Definition dispatchAdminModeChanged (detail : bool) (w : Site) : Site :=
  layoutHandler (Some detail) (headerHandler (Some detail) w).

(** [notifyAdminChange] (lines 36-49); a write to [localStorage] that
    throws, and a sign-out that fails, are caught. *)
Definition notifyAdminChange (b : Browser) (val : bool) (w : Site) : Site :=
  let w1 := if storageWorks b
            then withStorage (if val then Some "1" else None) w
            else w in
  let w2 := if negb val then logEffect SignOut w1 else w1 in
  let w3 := dispatchAdminModeChanged val w2 in
  withHeader (setIsAdmin val (header w3)) w3.

(** [toggleAdminFromHeader] (lines 51-60) *)
Definition toggleAdminFromHeader (b : Browser) (w : Site) : Site :=
  if negb (isAdmin (header w))
  then withHeader {| isAdmin := isAdmin (header w); showAdminModal := true;
                     adminEmail := ""; adminPassword := ""; adminModalError := "" |} w
  else notifyAdminChange b false w.

(** The message for a failed sign-in (lines 77-90). *)
Definition authErrorText (e : AuthError) : string :=
  let code := JS.orStr (err_code e) "" in
  let msg := JS.orStr (err_message e) (JS.orStr (Some (err_string e)) "Erro ao autenticar") in
  if (code =? "auth/network-request-failed") ||
     JS.includes (JS.toLowerCase msg) "network"
  then "Falha de rede ao tentar autenticar. Tente novamente mais tarde."
  else if (code =? "auth/user-not-found") || (code =? "auth/wrong-password")
  then "Email ou senha incorretos."
  else if code =? "auth/invalid-email"
  then ("Email inv" ++ String (ascii_of_nat 225) "lido.")%string
  else if code =? "auth/too-many-requests"
  then "Muitas tentativas falharam. Tente novamente mais tarde."
  else ("Falha ao autenticar: " ++ msg)%string.

(** 'Sem conexão de rede. Verifique sua internet e tente novamente.'
    (ã = U+00E3) *)
Definition offlineText : string :=
  ("Sem conex" ++ String (ascii_of_nat 227)
     "o de rede. Verifique sua internet e tente novamente.")%string.

(** [submitAdminModal] (lines 62-98) *)
Definition submitAdminModal (b : Browser) (w : Site) : Site :=
  let h := header w in
  if (adminEmail h =? "") || (adminPassword h =? "")
  then withHeader (setAdminModalError "Insira email e senha" h) w
  else if negb (siteOnLine b)
  then withHeader (setAdminModalError offlineText h) w
  else
    let w1 := logEffect (SignIn (JS.trim (adminEmail h)) (adminPassword h)) w in
    match signIn b (JS.trim (adminEmail h)) (adminPassword h) with
    | Some e => withHeader (setAdminModalError (authErrorText e) h) w1
    | None =>
        let w2 := notifyAdminChange b true w1 in
        logEffect (Navigate "/admin-store")
          (withHeader {| isAdmin := isAdmin (header w2); showAdminModal := false;
                         adminEmail := ""; adminPassword := "";
                         adminModalError := "" |} w2)
    end.

(** The links of the navigation (lines 135-160); [t] is the translation,
    [pages] the feature flags [flags.pages]. *)
Inductive NavAction := scrollToServices | handleBooking.

Record NavLink := mkNavLink {
  nl_name : string;
  nl_path : option string;
  nl_action : option NavAction;
  nl_key : option string
}.

Definition links (t : string -> string) : list NavLink :=
  [ mkNavLink (t "nav.home") (Some "/") None (Some "home");
    mkNavLink ("Servi" ++ String (ascii_of_nat 231) "os")%string None
              (Some scrollToServices) None;
    mkNavLink (t "nav.portfolio") (Some "/portfolio") None (Some "portfolio");
    mkNavLink (t "nav.store") (Some "/store") None (Some "store");
    mkNavLink (t "nav.book") None (Some handleBooking) (Some "booking");
    mkNavLink (t "nav.contact") (Some "/contact") None (Some "contact") ].

(** [links.filter(l => !l.key || flags.pages[l.key])] *)
Definition navLinks (t : string -> string) (pages : string -> bool) : list NavLink :=
  filter (fun l => match truthy (nl_key l) with
                   | Some k => pages k
                   | None => true
                   end)
         (links t).

(** [Math.ceil(n / 2)] *)
Definition ceilHalf (n : nat) : nat := (n + 1) / 2.

(** The links left and right of the logo (lines 181 and 211):
    [navLinks.slice(0, Math.ceil(navLinks.length / 2))] and
    [navLinks.slice(Math.ceil(navLinks.length / 2))]. *)
Definition leftLinks (l : list NavLink) : list NavLink :=
  firstn (ceilHalf (List.length l)) l.

Definition rightLinks (l : list NavLink) : list NavLink :=
  skipn (ceilHalf (List.length l)) l.

(** The first render of [Header] ([useState(Boolean(localStorage.getItem(...)))])
    and the mount effect of [Layout] (lines 54-56 of [Layout.tsx]). *)
Definition mountSite (w : Site) : Site :=
  let w1 := withHeader (setIsAdmin (adminFlag w) (header w)) w in
  if adminFlag w then logEffect InitOverlay w1 else w1.
(* ================================================================== *)
(** * Notions used by the statements *)

(** Number of tasks whose normalised title is that of [title]. *)
Definition countTitle (tasks : list WorkflowTask) (title : string) : nat :=
  List.length (filter (fun t => normalize (wt_title t) =? normalize title) tasks).

(** The tasks of the delivery category that the component works on: the
    first category whose normalised name contains "entrega". *)
Definition deliveryTasks (w : Workflow) : list WorkflowTask :=
  match JS.find isDelivery w with
  | Some c => wc_tasks c
  | None => []
  end.

(** A task as [ensureDeliveryTasks] creates it. *)
Definition createdTask (t : WorkflowTask) : Prop :=
  wt_done t = false /\ wt_due t = None /\ wt_note t = None /\
  exists n, wt_title t = deliveryTitle n.

(** Whether some name of the list yields the normalised title of [title]. *)
Definition titleAsked (productNames : list string) (title : string) : bool :=
  existsb (fun n => normalize (deliveryTitle n) =? normalize title) productNames.

(** The supply after one [uid()]. *)
Definition afterUid (s : UidSupply) : UidSupply := fun n => s (S n).


(** A sequence of identifiers for the examples: "u0", "u1", ... *)
Definition exampleUids : UidSupply :=
  fun n => String "u" (String (ascii_of_nat (48 + n)) "").

(** The reading of "exactly one task per product name": some delivery
    category of [R] holds, for every name of [N], exactly one task with
    the normalised title of "Entregar n". *)
Definition oneTaskPerName (R : Workflow) (N : list string) : Prop :=
  exists cat, In cat R /\ isDelivery cat = true /\
    forall n, In n N -> countTitle (wc_tasks cat) (deliveryTitle n) = 1.

(** A workflow whose delivery category holds the same title twice, as
    edit mode lets the user write it. *)
Definition workflowTwiceAlbum : Workflow :=
  [ mkCat "c1" "Entrega de productos"
      [ mkTask "t1" "Entregar Album A" false None None;
        mkTask "t2" "entregar album a" true None None ] ].

(* ------------------------------------------------------------------ *)
(** ** Display rows *)

(** An order line item and a store item with a name, a quantity and a
    price, as the scenarios of the specification write them. *)
Definition orderLine (name : string) (qty price : Z) : OrderLineItem :=
  {| li_product_id := None; li_productId := None; li_name := Some name;
     li_qty := Some qty; li_quantity := None; li_price := Some price;
     li_total := None; li_image_url := None |}.

Definition storeItem (name : string) (quantity price : Z) : StoreItem :=
  {| si_name := Some name; si_productName := None; si_title := None;
     si_quantity := Some quantity; si_qty := None; si_price := Some price;
     si_total := None; si_image_url := None |}.

(** A contract document with the given id and store items and no other
    field, and an order document with the given id and nothing else. *)
Definition contractOf (id : string) (items : list StoreItem) : Contract :=
  {| c_id := id; c_clientName := None; c_client_name := None;
     c_clientEmail := None; c_client_email := None;
     c_storeItems := Some items; c_workflow := None; c_depositPaid := None;
     c_travelFee := None; c_paymentMethod := None; c_contractDate := None;
     c_createdAt := None |}.

Definition emptyOrder (id : string) : OrderItem :=
  {| o_id := id; o_customer_name := None; o_customer_email := None;
     o_payment_method := None; o_notes := None; o_items := None;
     o_total := None; o_created_at := None; o_status := None;
     o_workflow := None; o_contractId := None; o_contract_id := None;
     o_contract := None; o_clientName := None; o_clientEmail := None;
     o_totalAmount := None; o_paymentMethod := None; o_createdAt := None;
     o_depositPaid := None; o_deliveredAt := None; o_thumbnail := None |}.

(** An order with the given items, linked to the contract [cid]. *)
Definition orderOf (id cid : string) (items : list OrderLineItem) : OrderItem :=
  {| o_id := id; o_customer_name := None; o_customer_email := None;
     o_payment_method := None; o_notes := None; o_items := Some items;
     o_total := None; o_created_at := None; o_status := None;
     o_workflow := None; o_contractId := Some cid; o_contract_id := None;
     o_contract := None; o_clientName := None; o_clientEmail := None;
     o_totalAmount := None; o_paymentMethod := None; o_createdAt := None;
     o_depositPaid := None; o_deliveredAt := None; o_thumbnail := None |}.

(** The lookups that hold one contract. *)
Definition lookupsOf (c : Contract) : Lookups :=
  {| contractsMap := [(c_id c, c)]; contractsByEmail := [] |}.

(** The quantity (default 1), price (default 0) and total (price times
    quantity when absent) of an order item taken by itself. *)
Definition ownQty (e : OrderLineItem) : Z :=
  JS.nullish (li_qty e) (JS.nullish (li_quantity e) 1%Z).

Definition ownPrice (e : OrderLineItem) : Z := JS.nullish (li_price e) 0%Z.

Definition ownTotal (e : OrderLineItem) : Z :=
  match li_total e with
  | Some t => t
  | None => (ownPrice e * ownQty e)%Z
  end.

(** Number of rows whose normalised label is that of [name]. *)
Definition countName (rows : list OrderLineItem) (name : string) : nat :=
  List.length (filter (fun r => norm (lineName r) =? norm name) rows).

(** Number of store items whose canonical name normalises as [name]. *)
Definition countStoreName (items : list StoreItem) (name : string) : nat :=
  List.length
    (filter (fun si => norm (ci_name (canonicalItem si)) =? norm name) items).

(** An order item matches no contract item by normalised name. *)
Definition unmatched (items : list StoreItem) (e : OrderLineItem) : bool :=
  negb (inNames (map (fun ci => norm (ci_name ci)) (map canonicalItem items))
                (norm (lineName e))).

(** Some row of [rows] carries the own quantity, price and total of [e]. *)
Definition survives (rows : list OrderLineItem) (e : OrderLineItem) : Prop :=
  exists r, In r rows /\
    li_qty r = Some (ownQty e) /\ li_price r = Some (ownPrice e) /\
    li_total r = Some (ownTotal e).

(** The scenario of the reconciled display: the order holds
    [{name:"album a", qty:1, price:50}], its contract
    [{name:"Album A", quantity:1, price:80}]. *)
Definition contractAlbum : Contract := contractOf "c1" [storeItem "Album A" 1 80].

Definition orderAlbum : OrderItem := orderOf "o1" "c1" [orderLine "album a" 1 50].

(** A contract whose two store items normalise to the same name. *)
Definition contractTwoAlbums : Contract :=
  contractOf "c1" [storeItem "Album A" 1 80; storeItem "album a" 2 30].

(** An order that holds two items of the same normalised name. *)
Definition orderTwoAlbums : OrderItem :=
  orderOf "o1" "c1" [orderLine "Album A" 1 50; orderLine "album a" 2 70].

(* ------------------------------------------------------------------ *)
(** ** Loader *)

(** An order document as the loader writes it for a contract of [cs]. *)
Definition createdFrom (env : Env) (cs : list Contract) (o : OrderItem) : Prop :=
  exists c id, In c cs /\ o = withId id None (orderData env c).

(** The list queries answer with documents of the collection, and the
    equality query on the contract [cid] answers with exactly the orders
    whose [contractId] is [cid]. *)
Definition answersFromStore (env : Env) (cid : string) : Prop :=
  (forall db l, getOrdersByCreatedAt env db = Some l -> incl l (db_orders db)) /\
  (forall db l, getOrders env db = Some l -> incl l (db_orders db)) /\
  (forall l, incl (sortByCreatedAt env l) l) /\
  (forall db, getOrdersWhereContractId env db cid =
              Some (filter (fun o => match o_contractId o with
                                     | Some x => x =? cid
                                     | None => false
                                     end) (db_orders db))).

(** No order document refers to the contract [cid]. *)
Definition unreferenced (cid : string) (db : Db) : Prop :=
  forall o, In o (db_orders db) ->
    contractRef o <> cid /\ o_contractId o <> Some cid.

(** An environment for the examples, in which every call succeeds: the
    device is on line, a list query ordered by a field answers with the
    documents that have the field, latest first, the other list queries
    with all the documents, and a new order gets the id "order-n" in a
    collection of n orders. *)
Fixpoint insertDesc {A} (key : A -> string) (x : A) (l : list A) : list A :=
  match l with
  | [] => [x]
  | y :: l' => if String.ltb (key x) (key y) then y :: insertDesc key x l' else x :: l
  end.

Definition sortDesc {A} (key : A -> string) (l : list A) : list A :=
  fold_right (insertDesc key) [] l.

Definition orderByDesc {A} (field : A -> option string) (l : list A) : list A :=
  sortDesc (fun x => JS.nullish (field x) "")
           (filter (fun x => match field x with Some _ => true | None => false end) l).

Definition exampleEnv : Env :=
  {| onLine := true;
     now := "2024-06-01T12:00:00.000Z";
     getProducts := fun db => Some (db_products db);
     getOrdersByCreatedAt := fun db => Some (orderByDesc o_created_at (db_orders db));
     getOrders := fun db => Some (db_orders db);
     sortByCreatedAt := sortDesc (fun o => JS.orStr (o_created_at o) "");
     getContractsByCreatedAt := fun db => Some (orderByDesc c_createdAt (db_contracts db));
     getContracts := fun db => Some (db_contracts db);
     getOrdersWhereContractId :=
       fun db cid => Some (filter (fun o => match o_contractId o with
                                            | Some x => x =? cid
                                            | None => false
                                            end) (db_orders db));
     addDocId :=
       fun db _ => Some (String.append "order-"
                           (NilEmpty.string_of_uint (Nat.to_uint (List.length (db_orders db))))) |}.

(** The state of the component before the first load. *)
Definition initialState : State :=
  {| orders := []; viewing := None; workflow := None; wfEditMode := false;
     lookups := {| contractsMap := []; contractsByEmail := [] |};
     productsById := []; productsByName := [] |}.

(** The scenario of the loader: the contract C holds
    [{name:"Album A", quantity:2, price:100}], and there is no order. *)
Definition contractC : Contract :=
  {| c_id := "C"; c_clientName := Some "Ana"; c_client_name := None;
     c_clientEmail := Some "ana@example.com"; c_client_email := None;
     c_storeItems := Some [storeItem "Album A" 2 100]; c_workflow := None;
     c_depositPaid := None; c_travelFee := None; c_paymentMethod := None;
     c_contractDate := None; c_createdAt := Some "2024-05-01T10:00:00.000Z" |}.

Definition dbC : Db :=
  {| db_orders := []; db_contracts := [contractC]; db_products := [] |}.


(* ------------------------------------------------------------------ *)
(** ** Delivery state of an order and of its contract *)

(** The stored workflow of an order, and of a contract. *)
Definition orderWorkflowIn (db : Db) (id : string) : Workflow :=
  match getOrder id db with
  | Some o => workflowOrEmpty (o_workflow o)
  | None => []
  end.

Definition contractWorkflowIn (db : Db) (id : string) : Workflow :=
  match getContract id db with
  | Some c => workflowOrEmpty (c_workflow c)
  | None => []
  end.

(** The [done] flags agree on every pair of a delivery task of the order
    and a delivery task of the contract with the same normalised title
    (the delivery category being the one the component works on). *)
Definition deliveryFlagsAgree (ow cw : Workflow) : Prop :=
  forall ot t,
    In ot (deliveryTasks ow) -> In t (deliveryTasks cw) ->
    normalize (wt_title ot) = normalize (wt_title t) ->
    wt_done t = wt_done ot.

(** Every task of every delivery category of [cw] has the [done] of the
    first task of [ordTasks] with its normalised title, if there is one. *)
Definition followsFirstMatch (ordTasks : list WorkflowTask) (cw : Workflow) : Prop :=
  forall cat t m,
    In cat cw -> isDelivery cat = true -> In t (wc_tasks cat) ->
    JS.find (fun ot => normalize (wt_title ot) =? normalize (wt_title t)) ordTasks = Some m ->
    wt_done t = wt_done m.

(** The titles of the tasks are pairwise distinct under normalisation. *)
Definition distinctTitles (tasks : list WorkflowTask) : Prop :=
  NoDup (map (fun t => normalize (wt_title t)) tasks).

(** The contract that the checkbox handler writes to. *)
Definition toggleTarget (st : State) (v : OrderItem) : option string :=
  if JS.startsWith (o_id v) "contract-"
  then truthy (Some (JS.orStr (o_contractId v) (JS.stripPrefix "contract-" (o_id v))))
  else targetContractId st v.

(** The staged workflow after the checkbox of task [ti] of category [ci]
    is set to [checked]. *)
Definition toggled (wf : Workflow) (ci ti : nat) (checked : bool) : Workflow :=
  mapAt ci (fun c => setTasks (mapAt ti (setDone checked) (wc_tasks c)) c) wf.

(** The contract's own workflow with the delivery tasks of the shown
    items ensured. *)
Definition ensuredWorkflow (st : State) (v : OrderItem) (contract : Contract)
           (s : UidSupply) : Workflow :=
  fst (ensureDeliveryTasks (workflowOrEmpty (c_workflow contract))
         (displayNames (getDisplayItems (lookups st) v)) s).

(** Every task of [cw] whose normalised title is that of no task of
    [ordTasks] is a task of [ensured], in a category of the same name. *)
Definition keepsUnmatched (ordTasks : list WorkflowTask) (ensured cw : Workflow) : Prop :=
  forall cat t,
    In cat cw -> In t (wc_tasks cat) ->
    JS.find (fun ot => normalize (wt_title ot) =? normalize (wt_title t)) ordTasks = None ->
    exists cat0, In cat0 ensured /\ wc_name cat0 = wc_name cat /\ In t (wc_tasks cat0).

(** The workflow written to the contract by the handlers that follow the
    order's delivery flags. *)
Definition syncedWorkflow (st : State) (v : OrderItem) (wf : Workflow)
           (contract : Contract) (s : UidSupply) : Workflow :=
  let merged := ensuredWorkflow st v contract s in
  match JS.find isDelivery wf with
  | Some ordDeliveryCat => mergeDone ordDeliveryCat merged
  | None => merged
  end.

(** An order linked to the contract C whose staged delivery category
    holds one title twice, with different flags; the store holds the order
    and the contract. *)
Definition orderLinked : OrderItem := orderOf "o1" "C" [orderLine "Album A" 2 100].

Definition dbLinked : Db :=
  {| db_orders := [orderLinked]; db_contracts := [contractC]; db_products := [] |}.

Definition stateTwiceAlbum : State :=
  {| orders := [orderLinked]; viewing := Some orderLinked;
     workflow := Some workflowTwiceAlbum; wfEditMode := false;
     lookups := contractLookups [contractC];
     productsById := []; productsByName := [] |}.

(** The same order with one delivery task staged, done. *)
Definition stateOneAlbum : State :=
  {| orders := [orderLinked]; viewing := Some orderLinked;
     workflow := Some [ mkCat "c1" "Entrega de productos"
                          [ mkTask "t1" "Entregar Album A" true None None ] ];
     wfEditMode := false;
     lookups := contractLookups [contractC];
     productsById := []; productsByName := [] |}.

(* ------------------------------------------------------------------ *)
(** ** Payment toggle *)

(** The [done] flags of a workflow, category by category. *)
Definition doneFlags (w : Workflow) : list (list bool) :=
  map (fun cat => map wt_done (wc_tasks cat)) w.

(** What equality of two stored states of an order, task identifiers
    apart, implies for the fields that the payment toggle writes. *)
Definition restoredOrder (before after : OrderItem) : Prop :=
  o_status after = o_status before /\
  o_depositPaid after = o_depositPaid before /\
  o_deliveredAt after = o_deliveredAt before /\
  doneFlags (workflowOrEmpty (o_workflow after)) =
  doneFlags (workflowOrEmpty (o_workflow before)).

(** Every task of every delivery category is not done. *)
Definition deliveryNotDone (w : Workflow) : Prop :=
  forall cat t, In cat w -> isDelivery cat = true -> In t (wc_tasks cat) ->
                wt_done t = false.

(** [w'] is [w] but for [done] flags of tasks of delivery categories. *)
Definition sameButDeliveryDone (w w' : Workflow) : Prop :=
  Forall2 (fun cat cat' =>
             wc_id cat' = wc_id cat /\ wc_name cat' = wc_name cat /\
             Forall2 (fun t t' =>
                        wt_id t' = wt_id t /\ wt_title t' = wt_title t /\
                        wt_due t' = wt_due t /\ wt_note t' = wt_note t /\
                        (isDelivery cat = false -> wt_done t' = wt_done t))
                     (wc_tasks cat) (wc_tasks cat'))
          w w'.

(** [markDeliveryPaid] followed by [resetDeliveryPaid], the second in the
    state and on the store that the first leaves. *)
Definition markThenReset (env : Env) (st : State) (db : Db) : Fresh (State * Db) :=
  r <- markDeliveryPaid env st db ;;
  resetDeliveryPaid env (fst r) (snd r).

(** The order of the contract C in process, its delivery task done. *)
Definition orderInProcess : OrderItem :=
  {| o_id := "o1"; o_customer_name := None; o_customer_email := None;
     o_payment_method := None; o_notes := None;
     o_items := Some [orderLine "Album A" 2 100];
     o_total := None; o_created_at := None; o_status := Some "procesando";
     o_workflow := Some [ mkCat "c1" "Entrega de productos"
                            [ mkTask "t1" "Entregar Album A" true None None ] ];
     o_contractId := Some "C"; o_contract_id := None;
     o_contract := None; o_clientName := None; o_clientEmail := None;
     o_totalAmount := None; o_paymentMethod := None; o_createdAt := None;
     o_depositPaid := None; o_deliveredAt := None; o_thumbnail := None |}.

Definition dbInProcess : Db :=
  {| db_orders := [orderInProcess]; db_contracts := [contractC]; db_products := [] |}.

Definition stateInProcess : State :=
  {| orders := [orderInProcess]; viewing := Some orderInProcess;
     workflow := o_workflow orderInProcess; wfEditMode := false;
     lookups := contractLookups [contractC];
     productsById := []; productsByName := [] |}.

(* ------------------------------------------------------------------ *)
(** ** Objects kept by a computation on the heap *)

(** Every object of [h] is in [h'], unchanged, but for the task arrays in
    [skipTasks] and the category arrays in [skipCategories]. *)
Definition keeps (skipTasks skipCategories : Ref -> Prop) (h h' : Heap) : Prop :=
  (forall r x, nth_error (taskObjects h) r = Some x ->
               nth_error (taskObjects h') r = Some x) /\
  (forall r x, ~ skipTasks r -> nth_error (taskArrays h) r = Some x ->
               nth_error (taskArrays h') r = Some x) /\
  (forall r x, nth_error (categoryObjects h) r = Some x ->
               nth_error (categoryObjects h') r = Some x) /\
  (forall r x, ~ skipCategories r -> nth_error (categoryArrays h) r = Some x ->
               nth_error (categoryArrays h') r = Some x).

Definition nowhere : Ref -> Prop := fun _ => False.

(** Every object of [h] is in [h'], unchanged. *)
Definition unchanged (h h' : Heap) : Prop := keeps nowhere nowhere h h'.

(** The task array of a category object. *)
Definition tasksRefOf (h : Heap) (r : Ref) : option Ref :=
  option_map co_tasks (nth_error (categoryObjects h) r).

(** What [ensureDeliveryTasks] adds to a workflow [W] to give [R]: every
    category of [W] is in [R] at its position, with its id and name, and
    with its tasks in their order, followed by tasks the call created,
    which only the first delivery category of [W] can get; [R] has no
    other category, but for the delivery category "Entrega de productos",
    holding created tasks only, that follows the categories of [W] when
    [W] has no delivery category. *)
Definition appendOnly (W R : Workflow) : Prop :=
  (forall i c, nth_error W i = Some c ->
     exists added,
       nth_error R i = Some (mkCat (wc_id c) (wc_name c) (wc_tasks c ++ added)) /\
       Forall createdTask added /\
       (added <> [] -> JS.findIndex isDelivery W = Some i)) /\
  (List.length R = List.length W \/
   exists id added,
     JS.findIndex isDelivery W = None /\
     R = W ++ [mkCat id "Entrega de productos" added] /\
     Forall createdTask added).

(** A heap for the examples: the workflow at reference 0 has a category
    "Edicion" and a category "Entrega". *)
Definition exampleHeap : Heap :=
  {| taskObjects := [ mkTask "t1" "Editar fotos" true None None;
                      mkTask "t2" "Entregar Album A" false None None ];
     taskArrays := [[0]; [1]];
     categoryObjects := [ mkCategoryObject "c1" "Edicion" 0;
                          mkCategoryObject "c2" "Entrega" 1 ];
     categoryArrays := [[0; 1]] |}.

(** The value of the workflow at reference 0 of [exampleHeap]. *)
Definition exampleWorkflow : Workflow :=
  [ mkCat "c1" "Edicion" [ mkTask "t1" "Editar fotos" true None None ];
    mkCat "c2" "Entrega" [ mkTask "t2" "Entregar Album A" false None None ] ].

(** A reference at or beyond the number of objects of its kind in [h0]
    is the reference of an object made after [h0]. *)
Definition newTaskRef (h0 : Heap) (r : Ref) : Prop :=
  List.length (taskObjects h0) <= r.

Definition newTasksRef (h0 : Heap) (r : Ref) : Prop :=
  List.length (taskArrays h0) <= r.

Definition newCategoryRef (h0 : Heap) (r : Ref) : Prop :=
  List.length (categoryObjects h0) <= r.

Definition newCategoriesRef (h0 : Heap) (r : Ref) : Prop :=
  List.length (categoryArrays h0) <= r.

(** The objects of [h] that were made after [h0] refer to no object of
    [h0]: a new task array holds new tasks, a new category object a new
    task array, a new category array new category objects. *)
Definition separated (h0 h : Heap) : Prop :=
  (forall r a, newTasksRef h0 r -> nth_error (taskArrays h) r = Some a ->
               Forall (newTaskRef h0) a) /\
  (forall r co, newCategoryRef h0 r -> nth_error (categoryObjects h) r = Some co ->
                newTasksRef h0 (co_tasks co)) /\
  (forall r cs, newCategoriesRef h0 r -> nth_error (categoryArrays h) r = Some cs ->
                Forall (newCategoryRef h0) cs) /\
  newTaskRef h0 (List.length (taskObjects h)) /\
  newTasksRef h0 (List.length (taskArrays h)) /\
  newCategoryRef h0 (List.length (categoryObjects h)) /\
  newCategoriesRef h0 (List.length (categoryArrays h)).

(** A computation that, run on a heap separated from [h0], leaves a heap
    separated from [h0] and returns a value that satisfies [post]. *)
Definition staysSeparated {A} (h0 : Heap) (m : OnHeap A) (post : A -> Prop) : Prop :=
  forall h s a h' s',
    separated h0 h -> m h s = Some (a, h', s') -> separated h0 h' /\ post a.
(* ================================================================== *)
(** * Notions used by the statements on the rest of the component *)

(** Every character of [s] satisfies [p]. *)
Fixpoint allChars (p : ascii -> bool) (s : string) : bool :=
  match s with
  | EmptyString => true
  | String c s' => p c && allChars p s'
  end.

(** A character that [normalize] leaves as it is: no diacritic, no
    accented letter, no capital. *)
Definition plainChar (c : ascii) : bool :=
  negb (JS.isDiacritic c) && Ascii.eqb (JS.baseLetter c) c &&
  Ascii.eqb (JS.lowerChar c) c.

(** The orders whose status is none of the three of [OrderStatus]. *)
Definition otherStatus (o : OrderItem) : bool :=
  negb (hasStatus "pendiente" o || hasStatus "procesando" o ||
        hasStatus "completado" o).

(** A string that does not begin with white space. *)
Definition noLeadingSpace (s : string) : Prop :=
  match s with
  | EmptyString => True
  | String c _ => JS.isWhiteSpace c = false
  end.

(** Case analysis on the 256 characters. *)
Ltac each_char c :=
  destruct c as [[] [] [] [] [] [] [] []]; try reflexivity; try discriminate.

(** The key of a product in [productsByName] (line 185):
    [String((pdata.name || '')).toLowerCase().trim()]. *)
Definition productNameKey (p : Product) : string :=
  emailKey (JS.orStr (p_name p) "").

(** The state after the products [docs] were loaded. *)
Definition stateWithProducts (docs : list Product) : State :=
  withProducts (fst (productMaps docs)) (snd (productMaps docs))
    {| orders := []; viewing := None; workflow := None; wfEditMode := false;
       lookups := {| contractsMap := []; contractsByEmail := [] |};
       productsById := []; productsByName := [] |}.

(** One turn of [snap.docs.forEach] in [loadContractsMap] (lines 332-337). *)
Definition addContract (lk : Lookups) (d : Contract) : Lookups :=
  {| contractsMap := store (c_id d) d (contractsMap lk);
     contractsByEmail :=
       match contractEmailKey d with
       | EmptyString => contractsByEmail lk
       | email => store email d (contractsByEmail lk)
       end |}.

(** An order of the customer [email], linked to no contract. *)
Definition orderOfCustomer (id email : string) : OrderItem :=
  {| o_id := id; o_customer_name := None; o_customer_email := Some email;
     o_payment_method := None; o_notes := None; o_items := None;
     o_total := None; o_created_at := None; o_status := None;
     o_workflow := None; o_contractId := None; o_contract_id := None;
     o_contract := None; o_clientName := None; o_clientEmail := None;
     o_totalAmount := None; o_paymentMethod := None; o_createdAt := None;
     o_depositPaid := None; o_deliveredAt := None; o_thumbnail := None |}.

(** A contract of the client [email] with the given id and store items. *)
Definition contractOfClient (id email : string) (items : list StoreItem) : Contract :=
  {| c_id := id; c_clientName := None; c_client_name := None;
     c_clientEmail := Some email; c_client_email := None;
     c_storeItems := Some items; c_workflow := None; c_depositPaid := None;
     c_travelFee := None; c_paymentMethod := None; c_contractDate := None;
     c_createdAt := None |}.

(** An order document as the loader writes it for a contract of [cs] that
    has store items and to which none of the loaded [items] refers. *)
Definition createdFor (env : Env) (items : list OrderItem) (cs : list Contract)
           (o : OrderItem) : Prop :=
  exists c id,
    In c cs /\ JS.nullish (c_storeItems c) [] <> [] /\
    existsb (fun it => contractRef it =? c_id c) items = false /\
    o = withId id None (orderData env c).

(** The sum of a list of numbers. *)
Definition sumZ (l : list Z) : Z := fold_right Z.add 0%Z l.

(** The total that the aggregation of lines 243-248 counts for an item:
    its stored total, else its price (0 when absent or 0) times its
    quantity (1 when absent or 0). *)
Definition aggregatedTotal (it : OrderLineItem) : Z :=
  match li_total it with
  | Some t => t
  | None => (JS.orNum (JS.nullish (li_price it) 0) 0 *
             JS.orNum (JS.nullish (li_quantity it) (JS.nullish (li_qty it) 1)) 1)%Z
  end.

(** The items of a list of orders, in their order. *)
Definition itemsOf (os : list OrderItem) : list OrderLineItem :=
  flat_map (fun eo => JS.nullish (o_items eo) []) os.

(** An order of the store, linked to the contract [cid] and hidden from
    the list ordered by [created_at], as the loader writes it. *)
Definition storedOrder (id cid : string) (items : list OrderLineItem) : OrderItem :=
  {| o_id := id; o_customer_name := None; o_customer_email := None;
     o_payment_method := None; o_notes := None; o_items := Some items;
     o_total := None; o_created_at := None; o_status := Some "pending";
     o_workflow := None; o_contractId := Some cid; o_contract_id := None;
     o_contract := None; o_clientName := None; o_clientEmail := None;
     o_totalAmount := None; o_paymentMethod := None;
     o_createdAt := Some "2024-05-01T10:00:00.000Z";
     o_depositPaid := None; o_deliveredAt := None; o_thumbnail := None |}.

(** The lookups before the contracts were loaded. *)
Definition noLookups : Lookups := {| contractsMap := []; contractsByEmail := [] |}.

(** An order of the contract C that holds no item of its own. *)
Definition orderNoItems : OrderItem := orderOf "o1" "C" [].

(** The categories of a workflow that are no delivery categories. *)
Definition otherCategories (w : Workflow) : Workflow :=
  filter (fun c => negb (isDelivery c)) w.

(** The contract C with a workflow of its own: a category "Edicion" and a
    delivery category; the store and the state of its order in process. *)
Definition contractEdited : Contract :=
  withContractWorkflow exampleWorkflow None contractC.

Definition dbEdited : Db :=
  {| db_orders := [orderInProcess]; db_contracts := [contractEdited]; db_products := [] |}.

Definition stateEdited : State :=
  {| orders := [orderInProcess]; viewing := Some orderInProcess;
     workflow := o_workflow orderInProcess; wfEditMode := false;
     lookups := contractLookups [contractEdited];
     productsById := []; productsByName := [] |}.

(** Every task of every delivery category is done. *)
Definition deliveryAllDone (w : Workflow) : Prop :=
  forall cat t, In cat w -> isDelivery cat = true -> In t (wc_tasks cat) ->
                wt_done t = true.

(** Some delivery category of [w] holds a task "Entregar n", by
    normalised title. *)
Definition hasDeliveryTask (w : Workflow) (n : string) : Prop :=
  exists cat, In cat w /\ isDelivery cat = true /\
              hasTitle (wc_tasks cat) (deliveryTitle n) = true.

(** The order of the contract C as the loader shows it when its document
    is not among the orders of the store. *)
Definition stateNoDocument : State :=
  {| orders := [orderLinked]; viewing := Some orderLinked;
     workflow := Some [ mkCat "c1" "Entrega de productos"
                          [ mkTask "t1" "Entregar Album A" false None None ] ];
     wfEditMode := false;
     lookups := contractLookups [contractC];
     productsById := []; productsByName := [] |}.

(** A task of the staged workflow against the template task it was made
    from: title, due time and note of the template, not done, and the id
    of the template when it has one. *)
Definition fromTemplateTask (t : TemplateTask) (w : WorkflowTask) : Prop :=
  wt_title w = tt_title t /\ wt_due w = tt_due t /\ wt_note w = tt_note t /\
  wt_done w = false /\
  (forall i, truthy (tt_id t) = Some i -> wt_id w = i).

Definition fromTemplateCategory (c : TemplateCategory) (w : WorkflowCategory) : Prop :=
  wc_name w = tc_name c /\
  (forall i, truthy (tc_id c) = Some i -> wc_id w = i) /\
  Forall2 fromTemplateTask (tc_tasks c) (wc_tasks w).

(** A template with a category "Edicion" and no delivery category. *)
Definition templateEdition : WorkflowTemplate :=
  mkTemplate "tpl1" "Solo edicion"
    [ mkTemplateCategory (Some "k1") "Edicion"
        [ mkTemplateTask None "Editar fotos" true None None ] ].


(** A character that may stand in the query of a URL as
    [encodeURIComponent] writes it: an unreserved one, or the [%] of an
    escape. *)
Definition queryChar (c : ascii) : bool :=
  URI.unreserved c || Ascii.eqb c "%".

(** The first [k] identifiers of a supply. *)
Definition drawn (s : UidSupply) (k : nat) : list string := map s (seq 0 k).

(** The sign-in of the modal goes through: both fields are filled, the
    browser is on line, and the service accepts the trimmed e-mail with
    the password. *)
Definition signsIn (b : Browser) (w : Site) : bool :=
  negb (adminEmail (header w) =? "") && negb (adminPassword (header w) =? "") &&
  siteOnLine b &&
  match signIn b (JS.trim (adminEmail (header w))) (adminPassword (header w)) with
  | None => true
  | Some _ => false
  end.

(** The sign-in is not attempted: a field is empty, or the browser is off
    line. *)
Definition notAttempted (b : Browser) (w : Site) : bool :=
  (adminEmail (header w) =? "") || (adminPassword (header w) =? "") ||
  negb (siteOnLine b).

(** The link "Serviços", which has no key. *)
Definition servicesLink : NavLink :=
  mkNavLink ("Servi" ++ String (ascii_of_nat 231) "os")%string None
            (Some scrollToServices) None.



(* ================================================================== *)
(** * Properties *)

Example normalize_album : normalize "  Album A " = "album a".
Proof. reflexivity. Qed.

(** "Álbum" with Á = U+00C1 and "CAFÉ" with É = U+00C9. *)
Example normalize_accents :
  normalize (String (ascii_of_nat 193) "lbum") = "album" /\
  normalize ("CAF" ++ String (ascii_of_nat 201) "") = "cafe".
Proof. split; reflexivity. Qed.

Example normalize_delivery_name :
  JS.includes (normalize "Entrega de productos") "entrega" = true.
Proof. reflexivity. Qed.

(* ------------------------------------------------------------------ *)
(** ** Generic facts: arrays *)

Lemma findIndex_Some_nth {A} (p : A -> bool) (l : list A) (i : nat) :
  JS.findIndex p l = Some i ->
  exists x, nth_error l i = Some x /\ p x = true /\ JS.find p l = Some x /\
            forall j y, j < i -> nth_error l j = Some y -> p y = false.
Proof.
  revert i. induction l as [|a l IH]; intros i H; simpl in H; [discriminate|].
  unfold JS.find; simpl. destruct (p a) eqn:Pa.
  - injection H as <-. exists a. repeat split; auto. intros j y Hj; lia.
  - destruct (JS.findIndex p l) as [k|] eqn:Fk; simpl in H; [|discriminate].
    injection H as <-. destruct (IH k eq_refl) as (x & Hn & Hp & Hf & Hlt).
    exists x. repeat split; auto.
    intros [|j] y Hj Hy; simpl in Hy.
    + now injection Hy as <-.
    + apply (Hlt j); auto; lia.
Qed.

Lemma findIndex_None {A} (p : A -> bool) (l : list A) :
  JS.findIndex p l = None ->
  JS.find p l = None /\ forall x, In x l -> p x = false.
Proof.
  induction l as [|a l IH]; simpl; intros H.
  - split; [reflexivity | intros ? []].
  - unfold JS.find; simpl. destruct (p a) eqn:Pa; [discriminate|].
    destruct (JS.findIndex p l); [discriminate|].
    destruct (IH eq_refl) as [Hf Hall]. split; [exact Hf|].
    intros x [<-|Hx]; auto.
Qed.

Lemma findIndex_app_None {A} (p : A -> bool) (l : list A) (x : A) :
  JS.findIndex p l = None -> p x = true ->
  JS.findIndex p (l ++ [x]) = Some (List.length l).
Proof.
  induction l as [|a l IH]; simpl; intros H Px.
  - now rewrite Px.
  - destruct (p a); [discriminate|].
    destruct (JS.findIndex p l); [discriminate|].
    now rewrite (IH eq_refl Px).
Qed.

Lemma findIndex_setNth {A} (p : A -> bool) (l : list A) (i : nat) (x : A) :
  JS.findIndex p l = Some i -> p x = true ->
  JS.findIndex p (setNth i x l) = Some i.
Proof.
  revert i. induction l as [|a l IH]; intros i H Px; simpl in H; [discriminate|].
  destruct (p a) eqn:Pa.
  - injection H as <-. simpl. now rewrite Px.
  - destruct (JS.findIndex p l) as [k|] eqn:Fk; simpl in H; [|discriminate].
    injection H as <-. simpl. rewrite Pa, (IH k eq_refl Px). reflexivity.
Qed.

Lemma nth_error_setNth_same {A} (l : list A) (i : nat) (x : A) :
  i < List.length l -> nth_error (setNth i x l) i = Some x.
Proof.
  revert i. induction l as [|a l IH]; intros [|i] H; simpl in *; try lia; auto.
  apply IH. lia.
Qed.

Lemma nth_error_setNth_other {A} (l : list A) (i j : nat) (x : A) :
  i <> j -> nth_error (setNth i x l) j = nth_error l j.
Proof.
  revert i j. induction l as [|a l IH]; intros [|i] [|j] H; simpl; auto; try lia.
Qed.

Lemma length_setNth {A} (l : list A) (i : nat) (x : A) :
  List.length (setNth i x l) = List.length l.
Proof.
  revert i. induction l as [|a l IH]; intros [|i]; simpl; auto.
Qed.

Lemma setNth_same {A} (l : list A) (i : nat) (x : A) :
  nth_error l i = Some x -> setNth i x l = l.
Proof.
  revert i. induction l as [|a l IH]; intros [|i] H; simpl in *; try discriminate.
  - now injection H as ->.
  - now rewrite IH.
Qed.

(* ------------------------------------------------------------------ *)
(** ** [ensureDeliveryTasks] *)

Lemma cloneTask_id (t : WorkflowTask) : cloneTask t = t.
Proof. now destruct t. Qed.

Lemma cloneCategory_id (c : WorkflowCategory) : cloneCategory c = c.
Proof.
  destruct c as [i n ts]. unfold cloneCategory; simpl. f_equal.
  induction ts as [|t ts IH]; simpl; [reflexivity|].
  now rewrite cloneTask_id, IH.
Qed.

(** The value of a JSON round trip of a workflow is the workflow. *)
Lemma jsonClone_id (w : Workflow) : jsonClone w = w.
Proof.
  induction w as [|c w IH]; simpl; [reflexivity|].
  now rewrite cloneCategory_id, IH.
Qed.

Lemma hasTitle_count (ts : list WorkflowTask) (title : string) :
  hasTitle ts title = false <-> countTitle ts title = 0.
Proof.
  unfold hasTitle, countTitle.
  induction ts as [|t ts IH]; simpl; [tauto|].
  destruct (normalize (wt_title t) =? normalize title); simpl.
  - split; [discriminate | lia].
  - exact IH.
Qed.

Lemma countTitle_app (ts us : list WorkflowTask) (title : string) :
  countTitle (ts ++ us) title = countTitle ts title + countTitle us title.
Proof.
  unfold countTitle. now rewrite filter_app, length_app.
Qed.

Lemma countTitle_norm (ts : list WorkflowTask) (a b : string) :
  normalize a = normalize b -> countTitle ts a = countTitle ts b.
Proof. unfold countTitle. now intros ->. Qed.

(** One step of the [forEach]: what is appended, and the count of any title. *)
Lemma addDeliveryTask_spec (ts : list WorkflowTask) (n : string) (s : UidSupply) :
  exists added,
    fst (addDeliveryTask ts n s) = ts ++ added /\
    Forall createdTask added /\
    forall title,
      countTitle (ts ++ added) title =
      if normalize (deliveryTitle n) =? normalize title
      then Nat.max 1 (countTitle ts title)
      else countTitle ts title.
Proof.
  unfold addDeliveryTask.
  destruct (hasTitle ts (deliveryTitle n)) eqn:Hh.
  - exists []. rewrite app_nil_r. repeat split; auto.
    intros title. destruct (String.eqb_spec (normalize (deliveryTitle n)) (normalize title)) as [E|E]; auto.
    rewrite <- (countTitle_norm ts _ _ E).
    destruct (countTitle ts (deliveryTitle n)) eqn:Hc; [|lia].
    apply hasTitle_count in Hc. congruence.
  - eexists [ _ ]. split; [reflexivity|]. split.
    + constructor; [|constructor]. repeat split; simpl; eauto.
    + intros title. rewrite countTitle_app.
      apply hasTitle_count in Hh.
      unfold countTitle at 2. simpl.
      destruct (String.eqb_spec (normalize (deliveryTitle n)) (normalize title)) as [E|E]; simpl.
      * rewrite <- (countTitle_norm ts _ _ E), Hh. reflexivity.
      * lia.
Qed.

Lemma addDeliveryTasks_spec (ns : list string) :
  forall (ts : list WorkflowTask) (s : UidSupply),
  exists added,
    fst (addDeliveryTasks ts ns s) = ts ++ added /\
    Forall createdTask added /\
    forall title,
      countTitle (ts ++ added) title =
      if titleAsked ns title
      then Nat.max 1 (countTitle ts title)
      else countTitle ts title.
Proof.
  induction ns as [|n ns IH]; intros ts s.
  - exists []. rewrite app_nil_r. repeat split; auto.
  - cbn [addDeliveryTasks]. unfold bind.
    destruct (addDeliveryTask_spec ts n s) as (a1 & E1 & F1 & C1).
    destruct (addDeliveryTask ts n s) as [ts1 s1]; simpl in E1; subst ts1.
    destruct (IH (ts ++ a1) s1) as (a2 & E2 & F2 & C2).
    exists (a1 ++ a2). rewrite app_assoc. split; [exact E2|]. split.
    + apply Forall_app; auto.
    + intros title. rewrite C2, C1.
      change (titleAsked (n :: ns) title)
        with ((normalize (deliveryTitle n) =? normalize title) || titleAsked ns title).
      destruct (normalize (deliveryTitle n) =? normalize title);
        destruct (titleAsked ns title); cbn [orb]; lia.
Qed.

(** Once every asked title is present, the [forEach] pushes nothing and
    draws no identifier. *)
Lemma addDeliveryTasks_fixed (ns : list string) (ts : list WorkflowTask) (s : UidSupply) :
  (forall n, In n ns -> hasTitle ts (deliveryTitle n) = true) ->
  addDeliveryTasks ts ns s = (ts, s).
Proof.
  induction ns as [|n ns IH]; intros H; simpl; [reflexivity|].
  unfold bind, addDeliveryTask. rewrite (H n (or_introl eq_refl)). simpl.
  apply IH. intros m Hm. apply H. now right.
Qed.

Lemma titleAsked_In (ns : list string) (n : string) :
  In n ns -> titleAsked ns (deliveryTitle n) = true.
Proof.
  intros H. unfold titleAsked. apply existsb_exists.
  exists n. split; [exact H | apply String.eqb_refl].
Qed.

Lemma addDeliveryTasks_has (ns : list string) (ts : list WorkflowTask) (s : UidSupply) :
  forall n, In n ns -> hasTitle (fst (addDeliveryTasks ts ns s)) (deliveryTitle n) = true.
Proof.
  intros n Hn.
  destruct (addDeliveryTasks_spec ns ts s) as (added & E & _ & C).
  rewrite E. specialize (C (deliveryTitle n)). rewrite (titleAsked_In _ _ Hn) in C.
  destruct (hasTitle (ts ++ added) (deliveryTitle n)) eqn:Hh; [reflexivity|].
  apply hasTitle_count in Hh. lia.
Qed.

Lemma setNth_length_app {A} (l : list A) (x y : A) :
  setNth (List.length l) y (l ++ [x]) = l ++ [y].
Proof. induction l as [|a l IH]; simpl; [reflexivity | now rewrite IH]. Qed.

Lemma nth_error_length_app {A} (l : list A) (x : A) :
  nth_error (l ++ [x]) (List.length l) = Some x.
Proof. induction l as [|a l IH]; simpl; auto. Qed.

(** [ensureDeliveryTasks] when the workflow holds a delivery category. *)
Lemma ensureDeliveryTasks_found (W : Workflow) (N : list string) (s : UidSupply)
      (i : nat) (cat : WorkflowCategory) :
  JS.findIndex isDelivery W = Some i -> nth_error W i = Some cat ->
  ensureDeliveryTasks W N s =
  (setNth i (mkCat (wc_id cat) (wc_name cat)
                   (fst (addDeliveryTasks (wc_tasks cat) N s))) W,
   snd (addDeliveryTasks (wc_tasks cat) N s)).
Proof.
  intros Hi Hn. unfold ensureDeliveryTasks. rewrite jsonClone_id, Hi.
  unfold bind, ret. rewrite Hn.
  now destruct (addDeliveryTasks (wc_tasks cat) N s).
Qed.

(** [ensureDeliveryTasks] when it holds none. *)
Lemma ensureDeliveryTasks_absent (W : Workflow) (N : list string) (s : UidSupply) :
  JS.findIndex isDelivery W = None ->
  ensureDeliveryTasks W N s =
  (W ++ [mkCat (s 0) "Entrega de productos"
               (fst (addDeliveryTasks [] N (afterUid s)))],
   snd (addDeliveryTasks [] N (afterUid s))).
Proof.
  intros Hi. unfold ensureDeliveryTasks. rewrite jsonClone_id, Hi.
  unfold bind, ret, uid. rewrite nth_error_length_app. cbn [wc_tasks wc_id wc_name].
  fold (afterUid s).
  destruct (addDeliveryTasks [] N (afterUid s)). now rewrite setNth_length_app.
Qed.

Lemma isDelivery_default (i : string) (ts : list WorkflowTask) :
  isDelivery (mkCat i "Entrega de productos" ts) = true.
Proof. reflexivity. Qed.

(** What a call leaves: the index of the delivery category it worked on,
    which is the first delivery category of the result, and the presence
    of every asked title in it. *)
Lemma ensureDeliveryTasks_result (W : Workflow) (N : list string) (s : UidSupply) :
  exists i cat,
    JS.findIndex isDelivery (fst (ensureDeliveryTasks W N s)) = Some i /\
    nth_error (fst (ensureDeliveryTasks W N s)) i = Some cat /\
    forall n, In n N -> hasTitle (wc_tasks cat) (deliveryTitle n) = true.
Proof.
  destruct (JS.findIndex isDelivery W) as [i|] eqn:Hi.
  - destruct (findIndex_Some_nth _ _ _ Hi) as (cat & Hn & Hd & _).
    rewrite (ensureDeliveryTasks_found W N s i cat Hi Hn). cbn [fst].
    eexists i, _. split; [|split].
    + apply findIndex_setNth; auto.
    + apply nth_error_setNth_same. apply nth_error_Some. congruence.
    + cbn [wc_tasks]. apply addDeliveryTasks_has.
  - rewrite (ensureDeliveryTasks_absent W N s Hi). cbn [fst].
    eexists (List.length W), _. split; [|split].
    + apply findIndex_app_None; auto.
    + apply nth_error_length_app.
    + cbn [wc_tasks]. apply addDeliveryTasks_has.
Qed.

(** C2. Idempotence: applied to its own result with the same product
    names, [ensureDeliveryTasks] returns that result unchanged, whatever
    identifiers [uid()] would hand out, and calls [uid()] not once: no
    category and no task is added, none is altered, and the identifiers
    created by the first application stay as they are. *)
Theorem ensureDeliveryTasks_idempotent
        (W : Workflow) (N : list string) (s s2 : UidSupply) :
  ensureDeliveryTasks (fst (ensureDeliveryTasks W N s)) N s2 =
  (fst (ensureDeliveryTasks W N s), s2).
Proof.
  destruct (ensureDeliveryTasks_result W N s) as (i & cat & Hi & Hn & Hall).
  rewrite (ensureDeliveryTasks_found _ N s2 i cat Hi Hn).
  rewrite (addDeliveryTasks_fixed N (wc_tasks cat) s2 Hall). cbn [fst snd].
  f_equal. apply setNth_same. rewrite Hn. now destruct cat.
Qed.

(** The shape of the result: the workflow itself, with tasks appended to
    the first delivery category, or with a delivery category appended. *)
Lemma ensureDeliveryTasks_shape (W : Workflow) (N : list string) (s : UidSupply) :
  (exists i cat added,
      JS.findIndex isDelivery W = Some i /\ nth_error W i = Some cat /\
      JS.find isDelivery W = Some cat /\
      Forall createdTask added /\
      fst (addDeliveryTasks (wc_tasks cat) N s) = wc_tasks cat ++ added /\
      fst (ensureDeliveryTasks W N s) =
      setNth i (mkCat (wc_id cat) (wc_name cat) (wc_tasks cat ++ added)) W) \/
  (exists added,
      JS.findIndex isDelivery W = None /\ JS.find isDelivery W = None /\
      Forall createdTask added /\
      fst (addDeliveryTasks [] N (afterUid s)) = added /\
      fst (ensureDeliveryTasks W N s) =
      W ++ [mkCat (s 0) "Entrega de productos" added]).
Proof.
  destruct (JS.findIndex isDelivery W) as [i|] eqn:Hi.
  - left. destruct (findIndex_Some_nth _ _ _ Hi) as (cat & Hn & Hd & Hf & _).
    destruct (addDeliveryTasks_spec N (wc_tasks cat) s) as (added & E & F & _).
    exists i, cat, added. repeat split; auto.
    rewrite (ensureDeliveryTasks_found W N s i cat Hi Hn). cbn [fst]. now rewrite E.
  - right. destruct (findIndex_None _ _ Hi) as [Hf _].
    destruct (addDeliveryTasks_spec N [] (afterUid s)) as (added & E & F & _).
    exists added. repeat split; auto.
    rewrite (ensureDeliveryTasks_absent W N s Hi). cbn [fst]. now rewrite E.
Qed.

Lemma find_setNth (W : Workflow) (i : nat) (c : WorkflowCategory) :
  JS.findIndex isDelivery W = Some i -> isDelivery c = true ->
  JS.find isDelivery (setNth i c W) = Some c.
Proof.
  intros Hi Hc.
  destruct (findIndex_Some_nth _ _ _ (findIndex_setNth _ _ _ _ Hi Hc))
    as (x & Hn & _ & Hf & _).
  rewrite nth_error_setNth_same in Hn; [congruence|].
  destruct (findIndex_Some_nth _ _ _ Hi) as (y & Hy & _).
  apply nth_error_Some. congruence.
Qed.

Lemma find_app_None (W : Workflow) (c : WorkflowCategory) :
  JS.findIndex isDelivery W = None -> isDelivery c = true ->
  JS.find isDelivery (W ++ [c]) = Some c.
Proof.
  intros Hi Hc.
  destruct (findIndex_Some_nth _ _ _ (findIndex_app_None _ _ _ Hi Hc))
    as (x & Hn & _ & Hf & _).
  rewrite nth_error_length_app in Hn. congruence.
Qed.

(** The delivery tasks of the result, against those of the workflow. *)
Lemma ensureDeliveryTasks_deliveryTasks (W : Workflow) (N : list string) (s : UidSupply) :
  exists cat added,
    JS.find isDelivery (fst (ensureDeliveryTasks W N s)) = Some cat /\
    wc_tasks cat = deliveryTasks W ++ added /\
    Forall createdTask added /\
    forall title,
      countTitle (wc_tasks cat) title =
      if titleAsked N title
      then Nat.max 1 (countTitle (deliveryTasks W) title)
      else countTitle (deliveryTasks W) title.
Proof.
  unfold deliveryTasks.
  destruct (JS.findIndex isDelivery W) as [i|] eqn:Hi.
  - destruct (findIndex_Some_nth _ _ _ Hi) as (cat & Hn & Hd & Hf & _).
    destruct (addDeliveryTasks_spec N (wc_tasks cat) s) as (added & E & F & C).
    rewrite (ensureDeliveryTasks_found W N s i cat Hi Hn), Hf. cbn [fst]. rewrite E.
    eexists _, added. split; [apply find_setNth; auto|]. cbn [wc_tasks]. auto.
  - destruct (findIndex_None _ _ Hi) as [Hf _].
    destruct (addDeliveryTasks_spec N [] (afterUid s)) as (added & E & F & C).
    rewrite (ensureDeliveryTasks_absent W N s Hi), Hf. cbn [fst]. rewrite E.
    eexists _, added. split; [apply find_app_None; auto|]. cbn [wc_tasks]. auto.
Qed.

(** C3 (amended). The result of [ensureDeliveryTasks] holds a delivery
    category.  The tasks of its first delivery category are those of the
    first delivery category of [W] (none when [W] has no such category) in
    their order, followed by the tasks the call created, each of them with
    [done = false].  For every name [n] of [N] the number of its tasks
    whose normalised title is that of "Entregar n" is 1 when [W] held no
    such task, and is the number [W] held otherwise; the number of tasks
    of any title that was not asked for is unchanged.  So the call creates
    at most one task per normalised title, also when [N] repeats a name up
    to normalisation or [W] holds the title already, and there is exactly
    one such task unless [W] itself already held several. *)
Theorem ensureDeliveryTasks_delivery_invariant
        (W : Workflow) (N : list string) (s : UidSupply) :
  exists cat added,
    In cat (fst (ensureDeliveryTasks W N s)) /\
    isDelivery cat = true /\
    JS.find isDelivery (fst (ensureDeliveryTasks W N s)) = Some cat /\
    deliveryTasks (fst (ensureDeliveryTasks W N s)) = wc_tasks cat /\
    wc_tasks cat = deliveryTasks W ++ added /\
    Forall (fun t => wt_done t = false) added /\
    (forall n, In n N ->
       countTitle (wc_tasks cat) (deliveryTitle n) =
       Nat.max 1 (countTitle (deliveryTasks W) (deliveryTitle n))) /\
    (forall title, titleAsked N title = false ->
       countTitle (wc_tasks cat) title = countTitle (deliveryTasks W) title).
Proof.
  destruct (ensureDeliveryTasks_deliveryTasks W N s) as (cat & added & Hf & E & F & C).
  exists cat, added.
  split; [exact (proj1 (find_some _ _ Hf))|].
  split; [exact (proj2 (find_some _ _ Hf))|].
  split; [exact Hf|]. split.
  { unfold deliveryTasks at 1. now rewrite Hf. }
  split; [exact E|]. split.
  { eapply Forall_impl; [|exact F]. intros t Ht. apply Ht. }
  split.
  - intros n Hn. rewrite C, (titleAsked_In _ _ Hn). reflexivity.
  - intros title Ht. now rewrite C, Ht.
Qed.

(** The workflow [workflowTwiceAlbum] and the name "Album A" refute
    "exactly one task per name": the call leaves the two tasks in place. *)
Lemma ensureDeliveryTasks_not_exactly_one :
  ~ oneTaskPerName (fst (ensureDeliveryTasks workflowTwiceAlbum ["Album A"] exampleUids))
                   ["Album A"].
Proof.
  intros (cat & Hin & _ & H).
  specialize (H "Album A" (or_introl eq_refl)).
  vm_compute in Hin. destruct Hin as [<-|[]]. vm_compute in H. discriminate.
Qed.

(* ------------------------------------------------------------------ *)
(** ** [getDisplayItems] *)

Lemma lineName_row (n : string) (q p t : Z) : lineName (row n q p t) = n.
Proof. unfold lineName, row; simpl. now destruct n. Qed.

Lemma lineName_normalizedRow (e : OrderLineItem) :
  lineName (normalizedRow e) = lineName e.
Proof. unfold normalizedRow. apply lineName_row. Qed.

(** [getDisplayItems] on an order whose contract holds store items. *)
Lemma getDisplayItems_contract (st : Lookups) (o : OrderItem) (c : Contract)
      (sis : list StoreItem) :
  resolveContract st o = Some c -> c_storeItems c = Some sis -> sis <> [] ->
  getDisplayItems st o =
  map (mergeItem (JS.nullish (o_items o) [])) (map canonicalItem sis) ++
  map normalizedRow (filter (unmatched sis) (JS.nullish (o_items o) [])).
Proof.
  intros Hr Hs Hne. unfold getDisplayItems. rewrite Hr.
  destruct c; simpl in Hs; subst. destruct sis as [|si sis]; [congruence|].
  reflexivity.
Qed.

(** The row of a contract item that some order item matches. *)
Lemma mergeItem_match (ois : list OrderLineItem) (ci : ContractItem) (oi : OrderLineItem) :
  In oi ois -> norm (lineName oi) = norm (ci_name ci) ->
  exists m,
    JS.find (fun x => norm (lineName x) =? norm (ci_name ci)) ois = Some m /\
    In m ois /\ norm (lineName m) = norm (ci_name ci) /\
    mergeItem ois ci =
    row (JS.orStr (li_name m) (ci_name ci))
        (JS.nullish (li_qty m) (JS.nullish (li_quantity m) (ci_quantity ci)))
        (JS.nullish (li_price m) (ci_price ci))
        (match li_total m with
         | Some t => t
         | None => (JS.nullish (li_price m) (ci_price ci) *
                    JS.nullish (li_qty m) (JS.nullish (li_quantity m) (ci_quantity ci)))%Z
         end).
Proof.
  intros Hin Hn. unfold mergeItem, JS.find.
  destruct (List.find _ ois) as [m|] eqn:Hf.
  - apply find_some in Hf. destruct Hf as [Hm Hp]. apply String.eqb_eq in Hp.
    exists m. repeat split; auto.
    destruct (li_price m); reflexivity.
  - exfalso. apply (find_none _ _ Hf) in Hin. apply String.eqb_neq in Hin. auto.
Qed.

(** The label of a merged row normalises as the contract item's name. *)
Lemma mergeItem_norm (ois : list OrderLineItem) (ci : ContractItem) :
  norm (lineName (mergeItem ois ci)) = norm (ci_name ci).
Proof.
  unfold mergeItem, JS.find.
  destruct (List.find _ ois) as [m|] eqn:Hf; rewrite lineName_row; [|reflexivity].
  apply find_some in Hf. destruct Hf as [_ Hp]. apply String.eqb_eq in Hp.
  unfold lineName in Hp. destruct (li_name m) as [[|a s]|]; simpl in *; auto.
Qed.

(** The display of the scenario, computed: the label is the order's. *)
Lemma getDisplayItems_album_label :
  ~ exists r, getDisplayItems (lookupsOf contractAlbum) orderAlbum = [r] /\
              li_name r = Some "Album A" /\ li_price r = Some 50%Z.
Proof.
  intros (r & H & Hn & _). vm_compute in H. injection H as <-. discriminate.
Qed.

(** C1 (amended). For an order whose resolved contract holds store items,
    and a contract item (at position [i]) whose normalised name is that of
    some stored item of the order, the row at position [i] of
    [getDisplayItems] is built from the first order item [m] of that
    normalised name: its quantity and price are those of [m] (those of the
    contract item where [m] has none), its total is that of [m], or price
    times quantity when [m] has none, and its label is the name of [m]
    when [m] has a non-empty one, otherwise the contract item's name.  In
    the scenario the display is exactly one row, labelled "album a", with
    quantity 1, price 50 and total 50. *)
Theorem getDisplayItems_matched_row :
  (forall (st : Lookups) (o : OrderItem) (c : Contract) (sis : list StoreItem)
          (i : nat) (si : StoreItem) (oi : OrderLineItem),
      resolveContract st o = Some c -> c_storeItems c = Some sis ->
      nth_error sis i = Some si ->
      In oi (JS.nullish (o_items o) []) ->
      norm (lineName oi) = norm (ci_name (canonicalItem si)) ->
      exists m qty price,
        JS.find (fun x => norm (lineName x) =? norm (ci_name (canonicalItem si)))
                (JS.nullish (o_items o) []) = Some m /\
        qty = JS.nullish (li_qty m)
                (JS.nullish (li_quantity m) (ci_quantity (canonicalItem si))) /\
        price = JS.nullish (li_price m) (ci_price (canonicalItem si)) /\
        nth_error (getDisplayItems st o) i =
        Some (row (JS.orStr (li_name m) (ci_name (canonicalItem si))) qty price
                  (match li_total m with
                   | Some t => t
                   | None => (price * qty)%Z
                   end))) /\
  getDisplayItems (lookupsOf contractAlbum) orderAlbum = [row "album a" 1 50 50].
Proof.
  split; [|reflexivity].
  intros st o c sis i si oi Hr Hs Hi Hin Hn.
  assert (Hne : sis <> []) by (intros ->; destruct i; discriminate).
  destruct (mergeItem_match _ _ _ Hin Hn) as (m & Hf & _ & _ & Hm).
  eexists m, _, _. split; [exact Hf|]. split; [reflexivity|]. split; [reflexivity|].
  rewrite (getDisplayItems_contract st o c sis Hr Hs Hne).
  rewrite nth_error_app1.
  - rewrite map_map. rewrite nth_error_map, Hi. simpl. now rewrite Hm.
  - rewrite !length_map. apply nth_error_Some. congruence.
Qed.

Lemma getDisplayItems_matched_row_witness :
  exists m qty price,
    JS.find (fun x => norm (lineName x) =?
                      norm (ci_name (canonicalItem (storeItem "Album A" 1 80))))
            (JS.nullish (o_items orderAlbum) []) = Some m /\
    qty = JS.nullish (li_qty m)
            (JS.nullish (li_quantity m)
               (ci_quantity (canonicalItem (storeItem "Album A" 1 80)))) /\
    price = JS.nullish (li_price m)
              (ci_price (canonicalItem (storeItem "Album A" 1 80))) /\
    nth_error (getDisplayItems (lookupsOf contractAlbum) orderAlbum) 0 =
    Some (row (JS.orStr (li_name m)
                        (ci_name (canonicalItem (storeItem "Album A" 1 80))))
              qty price
              (match li_total m with
               | Some t => t
               | None => (price * qty)%Z
               end)).
Proof.
  apply (proj1 getDisplayItems_matched_row
               (lookupsOf contractAlbum) orderAlbum contractAlbum
               [storeItem "Album A" 1 80] 0 (storeItem "Album A" 1 80)
               (orderLine "album a" 1 50)).
  - reflexivity.
  - reflexivity.
  - reflexivity.
  - simpl. left. reflexivity.
  - reflexivity.
Defined.

Lemma countName_app (a b : list OrderLineItem) (name : string) :
  countName (a ++ b) name = countName a name + countName b name.
Proof. unfold countName. now rewrite filter_app, length_app. Qed.

Lemma countName_merged (ois : list OrderLineItem) (sis : list StoreItem) (name : string) :
  countName (map (mergeItem ois) (map canonicalItem sis)) name =
  countStoreName sis name.
Proof.
  unfold countName, countStoreName.
  induction sis as [|si sis IH]; cbn [map filter]; [reflexivity|].
  rewrite mergeItem_norm.
  destruct (norm (ci_name (canonicalItem si)) =? norm name);
    cbn [List.length]; now rewrite IH.
Qed.

Lemma inNames_In (names : list string) (k : string) :
  inNames names k = true <-> In k names.
Proof.
  unfold inNames. rewrite existsb_exists. split.
  - intros (x & Hx & E). apply String.eqb_eq in E. now subst.
  - intros H. exists k. split; [exact H | apply String.eqb_refl].
Qed.

Lemma unmatched_spec (sis : list StoreItem) (e : OrderLineItem) :
  unmatched sis e = true <->
  forall si, In si sis -> norm (lineName e) <> norm (ci_name (canonicalItem si)).
Proof.
  unfold unmatched. rewrite negb_true_iff, <- not_true_iff_false, inNames_In.
  rewrite map_map, in_map_iff. split.
  - intros H si Hsi E. apply H. exists si. split; auto.
  - intros H (si & E & Hsi). apply (H si Hsi). auto.
Qed.

Lemma countName_extras (sis : list StoreItem) (ois : list OrderLineItem) (si : StoreItem) :
  In si sis ->
  countName (map normalizedRow (filter (unmatched sis) ois))
            (ci_name (canonicalItem si)) = 0.
Proof.
  intros Hsi. unfold countName.
  assert (Hun : forall e, unmatched sis e = true ->
                (norm (lineName e) =? norm (ci_name (canonicalItem si))) = false).
  { intros e Hu. apply String.eqb_neq.
    exact (proj1 (unmatched_spec sis e) Hu si Hsi). }
  generalize dependent (ci_name (canonicalItem si)). intros name Hun.
  induction ois as [|e ois IH]; cbn [filter map]; [reflexivity|].
  destruct (unmatched sis e) eqn:Hu; [|exact IH]. cbn [filter map].
  rewrite lineName_normalizedRow, (Hun e Hu). exact IH.
Qed.

Lemma countStoreName_NoDup (sis : list StoreItem) (si : StoreItem) :
  In si sis ->
  NoDup (map (fun x => norm (ci_name (canonicalItem x))) sis) ->
  countStoreName sis (ci_name (canonicalItem si)) = 1.
Proof.
  unfold countStoreName.
  set (key := fun x => norm (ci_name (canonicalItem x))).
  change (norm (ci_name (canonicalItem si))) with (key si).
  change (fun x => norm (ci_name (canonicalItem x)) =? key si)
    with (fun x => key x =? key si).
  generalize key. clear key. intros key.
  induction sis as [|a sis IH]; intros Hin Hnd; [destruct Hin|].
  cbn [map] in Hnd. inversion Hnd as [|? ? Hna Hnd']; subst. cbn [filter].
  destruct (String.eqb_spec (key a) (key si)) as [E|E].
  - cbn [List.length]. f_equal.
    assert (Hnone : forall b, In b sis -> (key b =? key si) = false).
    { intros b Hb. apply String.eqb_neq. intros E'. apply Hna. rewrite E, <- E'.
      now apply in_map. }
    clear -Hnone. induction sis as [|b sis IH]; cbn [filter]; [reflexivity|].
    rewrite (Hnone b (or_introl eq_refl)). apply IH.
    intros b' Hb'. apply Hnone. now right.
  - destruct Hin as [->|Hin]; [congruence|]. now apply IH.
Qed.

(** With the contract [contractTwoAlbums] the name "Album A" labels two
    rows of the display (up to normalisation), not one. *)
Lemma getDisplayItems_name_twice :
  ~ (forall si, In si [storeItem "Album A" 1 80; storeItem "album a" 2 30] ->
       countName (getDisplayItems (lookupsOf contractTwoAlbums) (orderOf "o1" "c1" []))
                 (ci_name (canonicalItem si)) = 1).
Proof.
  intros H. specialize (H _ (or_introl eq_refl)). vm_compute in H. discriminate.
Qed.

(** C4 (amended). For an order whose resolved contract holds store items,
    the number of rows of [getDisplayItems] whose label normalises as a
    contract item's name is the number of store items of the contract with
    that normalised name, whatever the case and diacritics of the names
    stored in the order; it is exactly one for every contract item when
    the names of the contract's store items are pairwise distinct under
    normalisation. *)
Theorem getDisplayItems_contract_names
        (st : Lookups) (o : OrderItem) (c : Contract) (sis : list StoreItem)
        (si : StoreItem) :
  resolveContract st o = Some c -> c_storeItems c = Some sis -> In si sis ->
  countName (getDisplayItems st o) (ci_name (canonicalItem si)) =
  countStoreName sis (ci_name (canonicalItem si)) /\
  (NoDup (map (fun x => norm (ci_name (canonicalItem x))) sis) ->
   countName (getDisplayItems st o) (ci_name (canonicalItem si)) = 1).
Proof.
  intros Hr Hs Hin.
  assert (Hne : sis <> []) by (intros ->; destruct Hin).
  assert (E : countName (getDisplayItems st o) (ci_name (canonicalItem si)) =
              countStoreName sis (ci_name (canonicalItem si))).
  { rewrite (getDisplayItems_contract st o c sis Hr Hs Hne).
    rewrite countName_app, countName_merged, (countName_extras _ _ _ Hin). lia. }
  split; [exact E|]. intros Hnd. rewrite E. now apply countStoreName_NoDup.
Qed.

Lemma getDisplayItems_contract_names_witness :
  countName (getDisplayItems (lookupsOf contractAlbum) orderAlbum)
            (ci_name (canonicalItem (storeItem "Album A" 1 80))) =
  countStoreName [storeItem "Album A" 1 80]
                 (ci_name (canonicalItem (storeItem "Album A" 1 80))) /\
  (NoDup (map (fun x => norm (ci_name (canonicalItem x))) [storeItem "Album A" 1 80]) ->
   countName (getDisplayItems (lookupsOf contractAlbum) orderAlbum)
             (ci_name (canonicalItem (storeItem "Album A" 1 80))) = 1).
Proof.
  apply (getDisplayItems_contract_names (lookupsOf contractAlbum) orderAlbum
           contractAlbum [storeItem "Album A" 1 80] (storeItem "Album A" 1 80)).
  - reflexivity.
  - reflexivity.
  - simpl. left. reflexivity.
Defined.

(** In the display of [orderTwoAlbums] against the contract of the
    scenario, the second order item (quantity 2, price 70) has no row. *)
Lemma getDisplayItems_drops_second_match :
  ~ (forall e, In e (JS.nullish (o_items orderTwoAlbums) []) ->
       survives (getDisplayItems (lookupsOf contractAlbum) orderTwoAlbums) e).
Proof.
  intros H. destruct (H (orderLine "album a" 2 70)) as (r & Hin & Hq & _).
  - simpl. right. left. reflexivity.
  - vm_compute in Hin. destruct Hin as [<-|[]]. discriminate.
Qed.

(** C5 (amended). For an order whose resolved contract holds store items,
    the display is the rows of the contract items followed by one "extra"
    row for each stored order item whose normalised name is that of no
    contract item, in the order's order; the extra row of such an item
    carries the item's name, its quantity (default 1), its price (default
    0) and its total (price times quantity when absent).  So no order item
    without a name match among the contract items is dropped.  (An order
    item that has a name match is shown only through the contract item's
    row, which is built from the first order item of that name.) *)
Theorem getDisplayItems_extras
        (st : Lookups) (o : OrderItem) (c : Contract) (sis : list StoreItem) :
  resolveContract st o = Some c -> c_storeItems c = Some sis -> sis <> [] ->
  (exists merged,
      List.length merged = List.length sis /\
      getDisplayItems st o =
      merged ++ map normalizedRow
                    (filter (unmatched sis) (JS.nullish (o_items o) []))) /\
  (forall e, In e (JS.nullish (o_items o) []) ->
     (forall si, In si sis ->
        norm (lineName e) <> norm (ci_name (canonicalItem si))) ->
     In (row (lineName e) (ownQty e) (ownPrice e) (ownTotal e))
        (getDisplayItems st o) /\
     survives (getDisplayItems st o) e).
Proof.
  intros Hr Hs Hne.
  rewrite (getDisplayItems_contract st o c sis Hr Hs Hne). split.
  - eexists. split; [|reflexivity]. now rewrite !length_map.
  - intros e Hin Hun.
    assert (Hrow : In (row (lineName e) (ownQty e) (ownPrice e) (ownTotal e))
                      (map (mergeItem (JS.nullish (o_items o) [])) (map canonicalItem sis) ++
                       map normalizedRow
                         (filter (unmatched sis) (JS.nullish (o_items o) [])))).
    { apply in_or_app. right.
      change (row (lineName e) (ownQty e) (ownPrice e) (ownTotal e))
        with (normalizedRow e).
      apply in_map. apply filter_In. split; [exact Hin|].
      now apply unmatched_spec. }
    split; [exact Hrow|].
    eexists. split; [exact Hrow|]. repeat split.
Qed.

Lemma getDisplayItems_extras_witness :
  (exists merged,
      List.length merged = List.length [storeItem "Album A" 1 80] /\
      getDisplayItems (lookupsOf contractAlbum)
                      (orderOf "o1" "c1" [orderLine "album a" 1 50; orderLine "Marco" 2 30]) =
      merged ++ map normalizedRow
                    (filter (unmatched [storeItem "Album A" 1 80])
                            [orderLine "album a" 1 50; orderLine "Marco" 2 30])) /\
  (forall e, In e [orderLine "album a" 1 50; orderLine "Marco" 2 30] ->
     (forall si, In si [storeItem "Album A" 1 80] ->
        norm (lineName e) <> norm (ci_name (canonicalItem si))) ->
     In (row (lineName e) (ownQty e) (ownPrice e) (ownTotal e))
        (getDisplayItems (lookupsOf contractAlbum)
           (orderOf "o1" "c1" [orderLine "album a" 1 50; orderLine "Marco" 2 30])) /\
     survives (getDisplayItems (lookupsOf contractAlbum)
                 (orderOf "o1" "c1" [orderLine "album a" 1 50; orderLine "Marco" 2 30])) e).
Proof.
  apply (getDisplayItems_extras (lookupsOf contractAlbum)
           (orderOf "o1" "c1" [orderLine "album a" 1 50; orderLine "Marco" 2 30])
           contractAlbum [storeItem "Album A" 1 80]).
  - reflexivity.
  - reflexivity.
  - discriminate.
Defined.

Example getDisplayItems_extra_row :
  getDisplayItems (lookupsOf contractAlbum)
                  (orderOf "o1" "c1" [orderLine "album a" 1 50; orderLine "Marco" 2 30]) =
  [row "album a" 1 50 50; row "Marco" 2 30 60].
Proof. reflexivity. Qed.

(* ------------------------------------------------------------------ *)
(** ** The loader *)


Lemma addDoc_spec (env : Env) (c : Contract) (db db' : Db) (id : string) :
  addDoc env (orderData env c) db = Some (id, db') ->
  addDocId env db (orderData env c) = Some id /\
  db' = setOrders (db_orders db ++ [withId id None (orderData env c)]) db.
Proof.
  unfold addDoc. destruct (addDocId env db (orderData env c)) as [i|]; [|discriminate].
  intros H. injection H as <- <-. split; reflexivity.
Qed.

(** One turn of the loop leaves the contracts and products alone and adds
    at most one order document, written from the contract of the turn. *)
Lemma ensureOrder_appends (env : Env) (st : State) (items : list OrderItem)
      (db : Db) (gen : list OrderItem) (c : Contract) :
  db_contracts (fst (ensureOrder env st items (db, gen) c)) = db_contracts db /\
  db_products (fst (ensureOrder env st items (db, gen) c)) = db_products db /\
  exists created,
    db_orders (fst (ensureOrder env st items (db, gen) c)) = db_orders db ++ created /\
    Forall (createdFrom env [c]) created.
Proof.
  unfold ensureOrder.
  assert (Hsame : db_contracts db = db_contracts db /\ db_products db = db_products db /\
                  exists created, db_orders db = db_orders db ++ created /\
                                  Forall (createdFrom env [c]) created).
  { repeat split. exists []. now rewrite app_nil_r. }
  destruct (JS.nullish (c_storeItems c) []); [exact Hsame|].
  destruct (existsb _ items); [exact Hsame|].
  destruct (match getOrdersWhereContractId env db (c_id c) with
            | Some docs => docs
            | None => []
            end); [|exact Hsame].
  destruct (addDoc env (orderData env c) db) as [[id db']|] eqn:Ha; [|exact Hsame].
  apply addDoc_spec in Ha. destruct Ha as [_ ->]. cbn [fst setOrders db_orders db_contracts db_products].
  repeat split. eexists [ _ ]. split; [reflexivity|].
  constructor; [|constructor]. exists c, id. split; [now left | reflexivity].
Qed.

Lemma createdFrom_incl (env : Env) (cs cs' : list Contract) (o : OrderItem) :
  incl cs cs' -> createdFrom env cs o -> createdFrom env cs' o.
Proof. intros Hi (c & id & Hc & E). exists c, id. split; auto. Qed.

Lemma ensureOrders_append (env : Env) (st : State) (items : list OrderItem)
      (cs : list Contract) :
  forall (db : Db) (gen : list OrderItem),
  db_contracts (fst (fold_left (ensureOrder env st items) cs (db, gen))) = db_contracts db /\
  db_products (fst (fold_left (ensureOrder env st items) cs (db, gen))) = db_products db /\
  exists created,
    db_orders (fst (fold_left (ensureOrder env st items) cs (db, gen))) =
    db_orders db ++ created /\
    Forall (createdFrom env cs) created.
Proof.
  induction cs as [|c cs IH]; intros db gen; cbn [fold_left].
  - repeat split. exists []. now rewrite app_nil_r.
  - destruct (ensureOrder_appends env st items db gen c) as (Hc & Hp & cr1 & Ho & F1).
    destruct (ensureOrder env st items (db, gen) c) as [db1 gen1]. cbn [fst] in *.
    destruct (IH db1 gen1) as (Hc' & Hp' & cr2 & Ho' & F2).
    split; [congruence|]. split; [congruence|].
    exists (cr1 ++ cr2). rewrite Ho', Ho, app_assoc. split; [reflexivity|].
    apply Forall_app. split.
    + eapply Forall_impl; [|exact F1]. intros o. apply createdFrom_incl.
      intros x [<-|[]]. now left.
    + eapply Forall_impl; [|exact F2]. intros o. apply createdFrom_incl.
      intros x Hx. now right.
Qed.

(** [fetchOrders] only adds order documents, each written from a contract
    that the contracts query answered. *)
Lemma fetchOrders_appends (env : Env) (st : State) (db : Db) :
  db_contracts (snd (fetchOrders env st db)) = db_contracts db /\
  db_products (snd (fetchOrders env st db)) = db_products db /\
  exists created,
    db_orders (snd (fetchOrders env st db)) = db_orders db ++ created /\
    Forall (createdFrom env (JS.nullish (getContractsByCreatedAt env db) [])) created.
Proof.
  assert (Hsame : db_contracts db = db_contracts db /\ db_products db = db_products db /\
                  exists created, db_orders db = db_orders db ++ created /\
                    Forall (createdFrom env (JS.nullish (getContractsByCreatedAt env db) [])) created).
  { repeat split. exists []. now rewrite app_nil_r. }
  unfold fetchOrders. destruct (negb (onLine env)); [exact Hsame|].
  destruct (match getProducts env db with Some docs => productMaps docs | None => ([], []) end)
    as [byId byName].
  destruct (getContractsByCreatedAt env db) as [cs|]; [|exact Hsame].
  cbn [JS.nullish].
  match goal with
  | |- context [fold_left ?f cs (db, [])] =>
      pose proof (ensureOrders_append env st (loadItems env db) cs db []) as H;
      destruct (fold_left f cs (db, [])) as [db' gen]
  end.
  exact H.
Qed.




Lemma loadItems_incl (env : Env) (cid : string) (db : Db) :
  answersFromStore env cid -> incl (loadItems env db) (db_orders db).
Proof.
  intros (H1 & H2 & H3 & _). unfold loadItems.
  destruct (getOrdersByCreatedAt env db) as [l|] eqn:E1; [now apply H1|].
  destruct (getOrders env db) as [l|] eqn:E2; [|intros x []].
  intros x Hx. apply (H2 db l E2). now apply H3.
Qed.

Lemma fetchOrders_online (env : Env) (st : State) (db : Db) (cs : list Contract) :
  onLine env = true -> getContractsByCreatedAt env db = Some cs ->
  snd (fetchOrders env st db) =
  fst (fold_left (ensureOrder env st (loadItems env db)) cs (db, [])) /\
  orders (fst (fetchOrders env st db)) =
  loadItems env db ++
  snd (fold_left (ensureOrder env st (loadItems env db)) cs (db, [])).
Proof.
  intros Ho Hc. unfold fetchOrders. rewrite Ho, Hc. cbn [negb].
  destruct (match getProducts env db with Some docs => productMaps docs | None => ([], []) end).
  destruct (fold_left _ cs (db, [])). split; reflexivity.
Qed.




Example loader_scenario_run :
  map (fun o => (o_id o, o_contractId o, o_totalAmount o, o_status o, o_workflow o))
      (db_orders (snd (fetchOrders exampleEnv initialState dbC))) =
  [("order-0", Some "C", Some 200%Z, Some "pending", None)].
Proof. vm_compute. reflexivity. Qed.



Lemma insertDesc_incl {A} (key : A -> string) (x : A) (l : list A) :
  incl (insertDesc key x l) (x :: l).
Proof.
  induction l as [|y l IH]; cbn [insertDesc]; [apply incl_refl|].
  destruct (String.ltb (key x) (key y)); [|apply incl_refl].
  intros z [<-|Hz]; [right; now left|].
  destruct (IH z Hz) as [<-|Hz']; [now left | right; now right].
Qed.

Lemma sortDesc_incl {A} (key : A -> string) (l : list A) : incl (sortDesc key l) l.
Proof.
  induction l as [|x l IH]; [apply incl_refl|].
  cbn [sortDesc fold_right]. intros z Hz.
  destruct (insertDesc_incl key x _ z Hz) as [<-|Hz']; [now left|].
  right. now apply IH.
Qed.

Lemma exampleEnv_answersFromStore (cid : string) : answersFromStore exampleEnv cid.
Proof.
  repeat split.
  - intros db l H. injection H as <-. unfold orderByDesc. intros z Hz.
    apply sortDesc_incl in Hz. now apply filter_In in Hz.
  - intros db l H. injection H as <-. apply incl_refl.
  - intros l. apply sortDesc_incl.
Qed.


(* ------------------------------------------------------------------ *)
(** ** Writes and reads by id *)

Lemma find_map_update {A} (key : A -> string) (id : string) (f : A -> A) (l : list A) :
  (forall x, key (f x) = key x) ->
  List.find (fun x => key x =? id) (map (fun x => if key x =? id then f x else x) l) =
  option_map f (List.find (fun x => key x =? id) l).
Proof.
  intros Hk. induction l as [|x l IH]; [reflexivity|]. cbn [map List.find].
  destruct (key x =? id) eqn:E.
  - rewrite Hk, E. reflexivity.
  - rewrite E. exact IH.
Qed.

Lemma find_app_found {A} (p : A -> bool) (l l' : list A) (x : A) :
  List.find p l = Some x -> List.find p (l ++ l') = Some x.
Proof.
  induction l as [|y l IH]; cbn [List.find app]; [discriminate|].
  destruct (p y); auto.
Qed.

Lemma updateOrder_get (id : string) (f : OrderItem -> OrderItem) (db : Db) (o : OrderItem) :
  (forall x, o_id (f x) = o_id x) -> getOrder id db = Some o ->
  exists db', updateOrder id f db = Some db' /\
              getOrder id db' = Some (f o) /\
              db_contracts db' = db_contracts db.
Proof.
  intros Hk Hg. unfold updateOrder. rewrite Hg. eexists. split; [reflexivity|].
  split; [|reflexivity].
  unfold getOrder in *. cbn [setOrders db_orders].
  rewrite (find_map_update o_id id f (db_orders db) Hk), Hg. reflexivity.
Qed.

Lemma updateContract_get (id : string) (f : Contract -> Contract) (db : Db) (c : Contract) :
  (forall x, c_id (f x) = c_id x) -> getContract id db = Some c ->
  exists db', updateContract id f db = Some db' /\
              getContract id db' = Some (f c) /\
              db_orders db' = db_orders db.
Proof.
  intros Hk Hg. unfold updateContract. rewrite Hg. eexists. split; [reflexivity|].
  split; [|reflexivity].
  unfold getContract in *. cbn [setContracts db_contracts].
  rewrite (find_map_update c_id id f (db_contracts db) Hk), Hg. reflexivity.
Qed.

(** The loader leaves the documents it finds as they are. *)
Lemma fetchOrders_getOrder (env : Env) (st : State) (db : Db) (id : string) (o : OrderItem) :
  getOrder id db = Some o -> getOrder id (snd (fetchOrders env st db)) = Some o.
Proof.
  intros Hg. destruct (fetchOrders_appends env st db) as (_ & _ & created & E & _).
  unfold getOrder in *. rewrite E. now apply find_app_found.
Qed.

Lemma fetchOrders_getContract (env : Env) (st : State) (db : Db) (id : string) :
  getContract id (snd (fetchOrders env st db)) = getContract id db.
Proof.
  unfold getContract. now rewrite (proj1 (fetchOrders_appends env st db)).
Qed.

(** What [syncDeliveryToContract] stores. *)
Lemma syncDeliveryToContract_get (st : State) (v : OrderItem) (wf : Workflow)
      (cid : string) (db : Db) (k : Contract) (s : UidSupply) :
  getContract cid db = Some k ->
  getContract cid (fst (syncDeliveryToContract st v wf cid db s)) =
    Some (withContractWorkflow (syncedWorkflow st v wf k s) None k) /\
  db_orders (fst (syncDeliveryToContract st v wf cid db s)) = db_orders db.
Proof.
  intros Hg. unfold syncDeliveryToContract, syncedWorkflow, ensuredWorkflow. rewrite Hg.
  unfold bind, ret.
  destruct (ensureDeliveryTasks (workflowOrEmpty (c_workflow k))
              (displayNames (getDisplayItems (lookups st) v)) s) as [merged s'].
  cbn [fst].
  match goal with
  | |- context [updateContract cid ?f db] =>
      destruct (updateContract_get cid f db k (fun x => eq_refl) Hg) as (db' & Hu & Hg' & Ho);
      rewrite Hu
  end.
  cbn [JS.nullish]. split; [exact Hg' | exact Ho].
Qed.

(* ------------------------------------------------------------------ *)
(** ** Delivery flags of the contract after a save or a toggle *)

Lemma mergeDone_follows (ord : WorkflowCategory) (merged : Workflow) :
  followsFirstMatch (wc_tasks ord) (mergeDone ord merged).
Proof.
  intros cat t m Hcat Hd Ht Hf. unfold mergeDone in Hcat.
  apply in_map_iff in Hcat. destruct Hcat as (cat0 & E & _).
  destruct (isDelivery cat0) eqn:Hd0.
  - subst cat. cbn [setTasks wc_tasks] in Ht.
    apply in_map_iff in Ht. destruct Ht as (t0 & E & _).
    destruct (JS.find _ (wc_tasks ord)) as [m0|] eqn:Hf0.
    + subst t. cbn [setDone wt_title] in Hf. rewrite Hf0 in Hf.
      injection Hf as <-. reflexivity.
    + subst t. rewrite Hf0 in Hf. discriminate.
  - subst cat. congruence.
Qed.

Lemma syncedWorkflow_follows (st : State) (v : OrderItem) (wf : Workflow)
      (k : Contract) (s : UidSupply) :
  followsFirstMatch (deliveryTasks wf) (syncedWorkflow st v wf k s).
Proof.
  unfold syncedWorkflow, deliveryTasks.
  destruct (JS.find isDelivery wf) as [ord|].
  - apply mergeDone_follows.
  - intros cat t m _ _ _ Hf. discriminate.
Qed.

Lemma mergeDone_unmatched (ord : WorkflowCategory) (merged : Workflow) :
  keepsUnmatched (wc_tasks ord) merged (mergeDone ord merged).
Proof.
  intros cat t Hcat Ht Hf. unfold mergeDone in Hcat.
  apply in_map_iff in Hcat. destruct Hcat as (cat0 & E & Hin0).
  exists cat0. split; [exact Hin0|].
  destruct (isDelivery cat0); subst cat; [|split; [reflexivity | exact Ht]].
  split; [reflexivity|]. cbn [setTasks wc_tasks] in Ht.
  apply in_map_iff in Ht. destruct Ht as (t0 & E & Hin).
  destruct (JS.find _ (wc_tasks ord)) as [m0|] eqn:Hf0.
  - subst t. cbn [setDone wt_title] in Hf. rewrite Hf0 in Hf. discriminate.
  - now subst t.
Qed.

Lemma syncedWorkflow_unmatched (st : State) (v : OrderItem) (wf : Workflow)
      (k : Contract) (s : UidSupply) :
  keepsUnmatched (deliveryTasks wf) (ensuredWorkflow st v k s)
                 (syncedWorkflow st v wf k s).
Proof.
  unfold syncedWorkflow, deliveryTasks.
  destruct (JS.find isDelivery wf) as [ord|].
  - apply mergeDone_unmatched.
  - intros cat t Hcat Ht _. exists cat. auto.
Qed.

Lemma NoDup_map_eq {A B} (f : A -> B) (l : list A) (a b : A) :
  NoDup (map f l) -> In a l -> In b l -> f a = f b -> a = b.
Proof.
  induction l as [|x l IH]; intros Hnd Ha Hb E; [destruct Ha|].
  cbn [map] in Hnd. inversion Hnd as [|? ? Hx Hnd']; subst.
  destruct Ha as [->|Ha], Hb as [->|Hb]; auto.
  - exfalso. apply Hx. rewrite E. now apply in_map.
  - exfalso. apply Hx. rewrite <- E. now apply in_map.
Qed.

Lemma deliveryTasks_In (w : Workflow) (t : WorkflowTask) :
  In t (deliveryTasks w) ->
  exists cat, In cat w /\ isDelivery cat = true /\ In t (wc_tasks cat).
Proof.
  unfold deliveryTasks, JS.find. destruct (List.find isDelivery w) as [cat|] eqn:Hf.
  - intros Ht. apply find_some in Hf. exists cat. tauto.
  - intros [].
Qed.

(** With distinct titles on the order's side, following the first match
    is agreeing on every pair. *)
Lemma followsFirstMatch_agree (ow cw : Workflow) :
  followsFirstMatch (deliveryTasks ow) cw ->
  distinctTitles (deliveryTasks ow) ->
  deliveryFlagsAgree ow cw.
Proof.
  intros Hf Hd ot t Hot Ht E.
  destruct (deliveryTasks_In cw t Ht) as (cat & Hcat & Hdel & Hin).
  destruct (JS.find (fun x => normalize (wt_title x) =? normalize (wt_title t))
                    (deliveryTasks ow)) as [m|] eqn:Hm.
  - rewrite (Hf cat t m Hcat Hdel Hin Hm). f_equal.
    unfold JS.find in Hm. apply find_some in Hm. destruct Hm as [Hmin Hme].
    apply String.eqb_eq in Hme.
    apply (NoDup_map_eq (fun x => normalize (wt_title x)) (deliveryTasks ow)); auto.
    congruence.
  - exfalso. unfold JS.find in Hm. apply (find_none _ _ Hm) in Hot.
    apply String.eqb_neq in Hot. auto.
Qed.

(** After [saveWorkflow] on the state [stateTwiceAlbum], the stored flags
    of the order and of the contract differ on a pair of tasks with the
    same normalised title. *)
Lemma saveWorkflow_flags_differ :
  match fst (saveWorkflow exampleEnv stateTwiceAlbum dbLinked exampleUids) with
  | Some (_, db') =>
      ~ deliveryFlagsAgree (orderWorkflowIn db' "o1") (contractWorkflowIn db' "C")
  | None => False
  end.
Proof.
  vm_compute fst. intros H.
  specialize (H (mkTask "t2" "entregar album a" true None None)
                (mkTask "u1" "Entregar Album A" false None None)).
  assert (E : false = true); [|discriminate].
  apply H.
  - vm_compute. right. left. reflexivity.
  - vm_compute. left. reflexivity.
  - reflexivity.
Qed.

Lemma orderWorkflowIn_get (db : Db) (id : string) (o : OrderItem) (w : Workflow) :
  getOrder id db = Some (withWorkflow w o) -> orderWorkflowIn db id = w.
Proof. intros H. unfold orderWorkflowIn. now rewrite H. Qed.

Lemma contractWorkflowIn_get (db : Db) (id : string) (k : Contract) (w : Workflow)
      (p : option bool) :
  getContract id db = Some (withContractWorkflow w p k) -> contractWorkflowIn db id = w.
Proof. intros H. unfold contractWorkflowIn. now rewrite H. Qed.

(** What [saveWorkflow] stores when it completes and the contract exists. *)
Lemma saveWorkflow_stores (env : Env) (st : State) (db : Db) (s : UidSupply)
      (v : OrderItem) (wf : Workflow) (cid : string) (k : Contract)
      (st' : State) (db' : Db) :
  viewing st = Some v -> workflow st = Some wf ->
  targetContractId st v = Some cid -> getContract cid db = Some k ->
  fst (saveWorkflow env st db s) = Some (st', db') ->
  orderWorkflowIn db' (o_id v) = wf /\
  contractWorkflowIn db' cid = syncedWorkflow st v wf k s.
Proof.
  intros Hv Hw Ht Hk Hs. unfold saveWorkflow in Hs. rewrite Hv, Hw, Ht in Hs.
  destruct (getOrder (o_id v) db) as [o0|] eqn:Hg.
  2:{ unfold updateOrder in Hs. rewrite Hg in Hs. discriminate. }
  destruct (updateOrder_get (o_id v) (withWorkflow wf) db o0 (fun x => eq_refl) Hg)
    as (db1 & Hu & Hg1 & Hc1).
  rewrite Hu in Hs. unfold bind, ret in Hs.
  assert (Hk1 : getContract cid db1 = Some k)
    by (unfold getContract in *; now rewrite Hc1).
  destruct (syncDeliveryToContract_get st v wf cid db1 k s Hk1) as [Hg2 Ho2].
  destruct (syncDeliveryToContract st v wf cid db1 s) as [db2 s2].
  cbn [fst] in Hs, Hg2, Ho2. injection Hs as Hs.
  assert (Edb : db' = snd (fetchOrders env st db2)) by now rewrite Hs.
  subst db'. split.
  - apply (orderWorkflowIn_get _ _ o0). apply fetchOrders_getOrder.
    unfold getOrder in *. now rewrite Ho2.
  - apply (contractWorkflowIn_get _ _ k _ None).
    now rewrite fetchOrders_getContract.
Qed.

(** What the checkbox handler stores, for an order that has a document. *)
Lemma onTaskChange_stores (st : State) (db : Db) (s : UidSupply)
      (v o0 : OrderItem) (wf : Workflow) (ci ti : nat) (checked : bool)
      (cid : string) (k : Contract) :
  viewing st = Some v -> workflow st = Some wf ->
  JS.startsWith (o_id v) "contract-" = false ->
  getOrder (o_id v) db = Some o0 ->
  toggleTarget st v = Some cid -> getContract cid db = Some k ->
  orderWorkflowIn (snd (fst (onTaskChange st ci ti checked db s))) (o_id v) =
    toggled wf ci ti checked /\
  contractWorkflowIn (snd (fst (onTaskChange st ci ti checked db s))) cid =
    syncedWorkflow st v (toggled wf ci ti checked) k s.
Proof.
  intros Hv Hw Hvirt Hg Ht Hk. unfold toggleTarget in Ht. rewrite Hvirt in Ht.
  unfold onTaskChange. rewrite Hv, Hw, Hvirt, Ht.
  fold (toggled wf ci ti checked).
  destruct (updateOrder_get (o_id v) (withWorkflow (toggled wf ci ti checked)) db o0
              (fun x => eq_refl) Hg) as (db1 & Hu & Hg1 & Hc1).
  rewrite Hu. unfold bind, ret.
  assert (Hk1 : getContract cid db1 = Some k)
    by (unfold getContract in *; now rewrite Hc1).
  destruct (syncDeliveryToContract_get st v (toggled wf ci ti checked) cid db1 k s Hk1)
    as [Hg2 Ho2].
  destruct (syncDeliveryToContract st v (toggled wf ci ti checked) cid db1 s) as [db2 s2].
  cbn [fst snd] in *. split.
  - apply (orderWorkflowIn_get _ _ o0). unfold getOrder in *. now rewrite Ho2.
  - now apply (contractWorkflowIn_get _ _ k _ None).
Qed.

(** What it stores for an order whose id starts with "contract-": the
    contract only. *)
Lemma onTaskChange_virtual (st : State) (db : Db) (s : UidSupply)
      (v : OrderItem) (wf : Workflow) (ci ti : nat) (checked : bool)
      (cid : string) (k : Contract) :
  viewing st = Some v -> workflow st = Some wf ->
  JS.startsWith (o_id v) "contract-" = true ->
  toggleTarget st v = Some cid -> getContract cid db = Some k ->
  db_orders (snd (fst (onTaskChange st ci ti checked db s))) = db_orders db /\
  contractWorkflowIn (snd (fst (onTaskChange st ci ti checked db s))) cid =
    syncedWorkflow st v (toggled wf ci ti checked) k s.
Proof.
  intros Hv Hw Hvirt Ht Hk. unfold toggleTarget in Ht. rewrite Hvirt in Ht.
  unfold onTaskChange. rewrite Hv, Hw, Hvirt, Ht.
  fold (toggled wf ci ti checked). unfold bind, ret.
  destruct (syncDeliveryToContract_get st v (toggled wf ci ti checked) cid db k s Hk)
    as [Hg2 Ho2].
  destruct (syncDeliveryToContract st v (toggled wf ci ti checked) cid db s) as [db2 s2].
  cbn [fst snd] in *. split; [exact Ho2|].
  now apply (contractWorkflowIn_get _ _ k _ None).
Qed.

(** C6 (amended). When [saveWorkflow] completes on an order whose contract
    resolves (by [contractId], else by the customer's e-mail) and exists,
    the order's stored workflow is the staged one and the contract's
    stored workflow is its own workflow, with the delivery tasks ensured,
    in which every task of a delivery category that has the normalised
    title of some task of the order's delivery category has the [done] of
    the first such task; a task whose normalised title is that of no task
    of the order's delivery category is left as it is in the contract's
    ensured workflow.
    The same holds after a checkbox toggle, for the staged workflow with
    the toggle applied (for an order whose id starts with "contract-" the
    toggle writes the contract only).  The [done] flags of the order and
    the contract are therefore identical on every pair of delivery tasks
    with the same normalised title when the titles of the order's delivery
    tasks are pairwise distinct under normalisation. *)
Theorem delivery_flags_follow_order :
  (forall env st db s v wf cid k st' db',
      viewing st = Some v -> workflow st = Some wf ->
      targetContractId st v = Some cid -> getContract cid db = Some k ->
      fst (saveWorkflow env st db s) = Some (st', db') ->
      orderWorkflowIn db' (o_id v) = wf /\
      contractWorkflowIn db' cid = syncedWorkflow st v wf k s /\
      followsFirstMatch (deliveryTasks wf) (contractWorkflowIn db' cid) /\
      keepsUnmatched (deliveryTasks wf) (ensuredWorkflow st v k s)
                     (contractWorkflowIn db' cid) /\
      (distinctTitles (deliveryTasks wf) ->
       deliveryFlagsAgree (orderWorkflowIn db' (o_id v)) (contractWorkflowIn db' cid))) /\
  (forall st db s v o0 wf ci ti checked cid k,
      viewing st = Some v -> workflow st = Some wf ->
      JS.startsWith (o_id v) "contract-" = false ->
      getOrder (o_id v) db = Some o0 ->
      toggleTarget st v = Some cid -> getContract cid db = Some k ->
      let db' := snd (fst (onTaskChange st ci ti checked db s)) in
      let updated := toggled wf ci ti checked in
      orderWorkflowIn db' (o_id v) = updated /\
      contractWorkflowIn db' cid = syncedWorkflow st v updated k s /\
      followsFirstMatch (deliveryTasks updated) (contractWorkflowIn db' cid) /\
      keepsUnmatched (deliveryTasks updated) (ensuredWorkflow st v k s)
                     (contractWorkflowIn db' cid) /\
      (distinctTitles (deliveryTasks updated) ->
       deliveryFlagsAgree (orderWorkflowIn db' (o_id v)) (contractWorkflowIn db' cid))) /\
  (forall st db s v wf ci ti checked cid k,
      viewing st = Some v -> workflow st = Some wf ->
      JS.startsWith (o_id v) "contract-" = true ->
      toggleTarget st v = Some cid -> getContract cid db = Some k ->
      let db' := snd (fst (onTaskChange st ci ti checked db s)) in
      let updated := toggled wf ci ti checked in
      db_orders db' = db_orders db /\
      contractWorkflowIn db' cid = syncedWorkflow st v updated k s /\
      followsFirstMatch (deliveryTasks updated) (contractWorkflowIn db' cid) /\
      keepsUnmatched (deliveryTasks updated) (ensuredWorkflow st v k s)
                     (contractWorkflowIn db' cid)).
Proof.
  split; [|split].
  - intros env st db s v wf cid k st' db' Hv Hw Ht Hk Hs.
    destruct (saveWorkflow_stores env st db s v wf cid k st' db' Hv Hw Ht Hk Hs)
      as [Eo Ec].
    rewrite Eo, Ec. split; [reflexivity|]. split; [reflexivity|].
    split; [apply syncedWorkflow_follows|].
    split; [apply syncedWorkflow_unmatched|].
    apply followsFirstMatch_agree. apply syncedWorkflow_follows.
  - intros st db s v o0 wf ci ti checked cid k Hv Hw Hvirt Hg Ht Hk db' updated.
    destruct (onTaskChange_stores st db s v o0 wf ci ti checked cid k Hv Hw Hvirt Hg Ht Hk)
      as [Eo Ec].
    unfold db', updated. rewrite Eo, Ec. split; [reflexivity|]. split; [reflexivity|].
    split; [apply syncedWorkflow_follows|].
    split; [apply syncedWorkflow_unmatched|].
    apply followsFirstMatch_agree. apply syncedWorkflow_follows.
  - intros st db s v wf ci ti checked cid k Hv Hw Hvirt Ht Hk db' updated.
    destruct (onTaskChange_virtual st db s v wf ci ti checked cid k Hv Hw Hvirt Ht Hk)
      as [Eo Ec].
    unfold db', updated. rewrite Ec. split; [exact Eo|]. split; [reflexivity|].
    split; [apply syncedWorkflow_follows | apply syncedWorkflow_unmatched].
Qed.

Lemma delivery_flags_follow_order_witness :
  match fst (saveWorkflow exampleEnv stateOneAlbum dbLinked exampleUids) with
  | Some (_, db') =>
      orderWorkflowIn db' "o1" =
        [ mkCat "c1" "Entrega de productos"
            [ mkTask "t1" "Entregar Album A" true None None ] ] /\
      contractWorkflowIn db' "C" =
        [ mkCat "u0" "Entrega de productos"
            [ mkTask "u1" "Entregar Album A" true None None ] ]
  | None => False
  end.
Proof.
  destruct (fst (saveWorkflow exampleEnv stateOneAlbum dbLinked exampleUids))
    as [[st' db']|] eqn:E.
  - destruct (proj1 delivery_flags_follow_order
                exampleEnv stateOneAlbum dbLinked exampleUids orderLinked
                [ mkCat "c1" "Entrega de productos"
                    [ mkTask "t1" "Entregar Album A" true None None ] ]
                "C" contractC st' db' eq_refl eq_refl eq_refl eq_refl E)
      as (Ho & Hc & _).
    split; [exact Ho|]. rewrite Hc. reflexivity.
  - vm_compute in E. discriminate.
Defined.

(* ------------------------------------------------------------------ *)
(** ** The payment toggle *)

Lemma fetchOrders_staged (env : Env) (st : State) (db : Db) :
  viewing (fst (fetchOrders env st db)) = viewing st /\
  workflow (fst (fetchOrders env st db)) = workflow st /\
  lookups (fst (fetchOrders env st db)) = lookups st.
Proof.
  unfold fetchOrders. destruct (negb (onLine env)); [repeat split|].
  destruct (match getProducts env db with Some docs => productMaps docs | None => ([], []) end).
  destruct (getContractsByCreatedAt env db); [|repeat split].
  destruct (fold_left _ _ _). repeat split.
Qed.

Lemma getContract_setOrders (id : string) (db db' : Db) :
  db_contracts db' = db_contracts db -> getContract id db' = getContract id db.
Proof. intros E. unfold getContract. now rewrite E. Qed.

Lemma getOrder_setContracts (id : string) (db db' : Db) :
  db_orders db' = db_orders db -> getOrder id db' = getOrder id db.
Proof. intros E. unfold getOrder. now rewrite E. Qed.

Lemma loadContractsMap_staged (env : Env) (st : State) (db : Db) :
  viewing (loadContractsMap env st db) = viewing st /\
  workflow (loadContractsMap env st db) = workflow st.
Proof. split; reflexivity. Qed.

(** The contract's side of a payment toggle: the orders are left alone,
    and so is the staged state. *)
Lemma writePaidContract_frame (paid : bool) (env : Env) (st st1 : State)
      (v : OrderItem) (db1 : Db) (s : UidSupply) :
  db_orders (snd (fst (writePaidContract paid env st st1 v db1 s))) = db_orders db1 /\
  viewing (fst (fst (writePaidContract paid env st st1 v db1 s))) = viewing st1 /\
  workflow (fst (fst (writePaidContract paid env st st1 v db1 s))) = workflow st1.
Proof.
  unfold writePaidContract.
  destruct (targetContractId st v) as [cid|]; [|repeat split].
  destruct (getContract cid db1) as [k|] eqn:Hk; [|repeat split].
  unfold bind, ret. destruct (ensureDeliveryTasks _ _ s) as [merged s'].
  match goal with
  | |- context [updateContract cid ?f db1] =>
      destruct (updateContract_get cid f db1 k (fun x => eq_refl) Hk)
        as (db2 & Hu2 & _ & Ho2); rewrite Hu2
  end.
  cbn [JS.nullish fst snd]. repeat split. exact Ho2.
Qed.

(** The contract document that it leaves. *)
Lemma writePaidContract_get (paid : bool) (env : Env) (st st1 : State)
      (v : OrderItem) (db1 : Db) (s : UidSupply) (cid : string) (k : Contract) :
  targetContractId st v = Some cid -> getContract cid db1 = Some k ->
  getContract cid (snd (fst (writePaidContract paid env st st1 v db1 s))) =
  Some (withContractWorkflow (setContractDeliveryDone paid (ensuredWorkflow st v k s))
                             (Some paid) k).
Proof.
  intros Ht Hk. unfold writePaidContract, ensuredWorkflow. rewrite Ht, Hk.
  unfold bind, ret. destruct (ensureDeliveryTasks _ _ s) as [merged s'].
  match goal with
  | |- context [updateContract cid ?f db1] =>
      destruct (updateContract_get cid f db1 k (fun x => eq_refl) Hk)
        as (db2 & Hu2 & Hg2 & _); rewrite Hu2
  end.
  cbn [JS.nullish fst snd]. exact Hg2.
Qed.

(** The order document and the staged state that one payment toggle
    leaves. *)
Lemma writePaidState_order (paid : bool) (status : string) (deliveredAt : option string)
      (env : Env) (st : State) (db : Db) (s : UidSupply) (v o0 : OrderItem) :
  viewing st = Some v -> getOrder (o_id v) db = Some o0 ->
  getOrder (o_id v) (snd (fst (writePaidState paid status deliveredAt env st db s))) =
    Some (withPaidFields (setDeliveryDone paid (workflowOrEmpty (workflow st)))
                         paid status deliveredAt o0) /\
  viewing (fst (fst (writePaidState paid status deliveredAt env st db s))) =
    Some (withPaidState (setDeliveryDone paid (workflowOrEmpty (workflow st)))
                        paid status v) /\
  workflow (fst (fst (writePaidState paid status deliveredAt env st db s))) =
    Some (setDeliveryDone paid (workflowOrEmpty (workflow st))).
Proof.
  intros Hv Hg. unfold writePaidState. rewrite Hv.
  set (updatedLocal := setDeliveryDone paid (workflowOrEmpty (workflow st))).
  destruct (updateOrder_get (o_id v) (withPaidFields updatedLocal paid status deliveredAt)
              db o0 (fun x => eq_refl) Hg) as (db1 & Hu & Hg1 & Hc1).
  rewrite Hu. cbn [JS.nullish]. unfold bind, ret.
  set (st1 := withViewing (Some (withPaidState updatedLocal paid status v))
                          (withStaged updatedLocal st)).
  destruct (writePaidContract_frame paid env st st1 v db1 s) as (Ho2 & Hv2 & Hw2).
  destruct (writePaidContract paid env st st1 v db1 s) as [[st2 db2] s2].
  cbn [fst snd] in *.
  destruct (fetchOrders_staged env st2 db2) as (Hv3 & Hw3 & _).
  assert (Hg2 : getOrder (o_id v) db2 =
                Some (withPaidFields updatedLocal paid status deliveredAt o0))
    by (rewrite (getOrder_setContracts (o_id v) db1 db2 Ho2); exact Hg1).
  pose proof (fetchOrders_getOrder env st2 db2 (o_id v) _ Hg2) as Hg3.
  destruct (fetchOrders env st2 db2) as [st3 db3]. cbn [fst snd] in *.
  split; [exact Hg3|].
  destruct (loadContractsMap_staged env st3 db3) as [Hv4 Hw4].
  rewrite Hv4, Hw4, Hv3, Hw3, Hv2, Hw2. split; reflexivity.
Qed.

(** The contract document that one payment toggle leaves. *)
Lemma writePaidState_contract (paid : bool) (status : string) (deliveredAt : option string)
      (env : Env) (st : State) (db : Db) (s : UidSupply) (v : OrderItem)
      (cid : string) (k : Contract) :
  viewing st = Some v -> targetContractId st v = Some cid ->
  getContract cid db = Some k ->
  getContract cid (snd (fst (writePaidState paid status deliveredAt env st db s))) =
  Some (withContractWorkflow (setContractDeliveryDone paid (ensuredWorkflow st v k s))
                             (Some paid) k).
Proof.
  intros Hv Ht Hk. unfold writePaidState. rewrite Hv.
  set (updatedLocal := setDeliveryDone paid (workflowOrEmpty (workflow st))).
  set (st1 := withViewing (Some (withPaidState updatedLocal paid status v))
                          (withStaged updatedLocal st)).
  set (db1 := JS.nullish (updateOrder (o_id v)
                            (withPaidFields updatedLocal paid status deliveredAt) db) db).
  assert (Hk1 : getContract cid db1 = Some k).
  { unfold db1, updateOrder. destruct (getOrder (o_id v) db); exact Hk. }
  unfold bind, ret.
  pose proof (writePaidContract_get paid env st st1 v db1 s cid k Ht Hk1) as Hg2.
  destruct (writePaidContract paid env st st1 v db1 s) as [[st2 db2] s2].
  cbn [fst snd] in *.
  rewrite <- (fetchOrders_getContract env st2 db2 cid) in Hg2.
  destruct (fetchOrders env st2 db2) as [st3 db3]. cbn [fst snd] in *. exact Hg2.
Qed.

Lemma isDelivery_setTasks (ts : list WorkflowTask) (cat : WorkflowCategory) :
  isDelivery (setTasks ts cat) = isDelivery cat.
Proof. reflexivity. Qed.

Lemma setDeliveryDone_twice (a b : bool) (w : Workflow) :
  setDeliveryDone b (setDeliveryDone a w) = setDeliveryDone b w.
Proof.
  unfold setDeliveryDone. rewrite map_map. apply map_ext. intros cat.
  rewrite isDelivery_setTasks. cbn [setTasks wc_tasks wc_id wc_name].
  rewrite map_map. unfold setTasks. cbn [wc_id wc_name]. f_equal.
  apply map_ext. intros t. destruct (isDelivery cat); reflexivity.
Qed.

Lemma setDeliveryDone_false_notDone (w : Workflow) :
  deliveryNotDone (setDeliveryDone false w).
Proof.
  intros cat t Hcat Hd Ht. unfold setDeliveryDone in Hcat.
  apply in_map_iff in Hcat. destruct Hcat as (cat0 & <- & _).
  rewrite isDelivery_setTasks in Hd. cbn [setTasks wc_tasks] in Ht.
  apply in_map_iff in Ht. destruct Ht as (t0 & <- & _).
  rewrite Hd. reflexivity.
Qed.

Lemma setContractDeliveryDone_false_notDone (w : Workflow) :
  deliveryNotDone (setContractDeliveryDone false w).
Proof.
  intros cat t Hcat Hd Ht. unfold setContractDeliveryDone in Hcat.
  apply in_map_iff in Hcat. destruct Hcat as (cat0 & E & _).
  destruct (isDelivery cat0) eqn:Hd0; subst cat; [|congruence].
  cbn [setTasks wc_tasks] in Ht.
  apply in_map_iff in Ht. destruct Ht as (t0 & <- & _). reflexivity.
Qed.

Lemma setDeliveryDone_same (b : bool) (w : Workflow) :
  sameButDeliveryDone w (setDeliveryDone b w).
Proof.
  unfold sameButDeliveryDone, setDeliveryDone.
  induction w as [|cat w IH]; cbn [map]; constructor; [|exact IH].
  split; [reflexivity|]. split; [reflexivity|]. cbn [setTasks wc_tasks].
  induction (wc_tasks cat) as [|t ts IHt]; cbn [map]; constructor; [|exact IHt].
  repeat split. intros Hd. rewrite Hd. reflexivity.
Qed.

Lemma setDone_tasks_fixed (d : bool) (ts : list WorkflowTask) :
  (forall t, In t ts -> d = true -> wt_done t = false) ->
  map (fun t => setDone (if d then false else wt_done t) t) ts = ts.
Proof.
  induction ts as [|t ts IHt]; intros Ht; cbn [map]; [reflexivity|].
  rewrite IHt by (intros t' Hin; apply Ht; now right). f_equal.
  destruct t as [ti tt td tu tn]. unfold setDone. cbn. f_equal.
  destruct d; [|reflexivity]. symmetry. apply (Ht _ (or_introl eq_refl) eq_refl).
Qed.

Lemma setDeliveryDone_fixed (w : Workflow) :
  deliveryNotDone w -> setDeliveryDone false w = w.
Proof.
  intros H. unfold setDeliveryDone.
  induction w as [|cat w IH]; cbn [map]; [reflexivity|].
  rewrite IH by (intros c t Hc; apply H; now right). f_equal.
  rewrite setDone_tasks_fixed.
  - now destruct cat.
  - intros t Hin Hd. apply (H cat t); [now left | exact Hd | exact Hin].
Qed.

Lemma withPaidFields_fixed (w : Workflow) (o : OrderItem) :
  o_workflow o = Some w -> o_depositPaid o = Some false ->
  o_status o = Some "pendiente" -> o_deliveredAt o = Some None ->
  withPaidFields w false "pendiente" None o = o.
Proof.
  destruct o. cbn. intros -> -> -> ->. reflexivity.
Qed.

(** After [markDeliveryPaid] then [resetDeliveryPaid] on the order of
    [stateInProcess], which was in process with its delivery task done,
    the stored order is not what it was: its status is "pendiente", not
    "procesando", its delivery task is not done, and its [depositPaid] and
    [deliveredAt] fields exist. *)
Lemma markThenReset_not_restored :
  match getOrder "o1"
          (snd (fst (markThenReset exampleEnv stateInProcess dbInProcess exampleUids))) with
  | Some after => ~ restoredOrder orderInProcess after
  | None => False
  end.
Proof. vm_compute. intros (H & _). discriminate. Qed.

Example markThenReset_in_process :
  option_map (fun o => (o_status o, o_depositPaid o, o_deliveredAt o,
                        doneFlags (workflowOrEmpty (o_workflow o))))
    (getOrder "o1"
       (snd (fst (markThenReset exampleEnv stateInProcess dbInProcess exampleUids)))) =
  Some (Some "pendiente", Some false, Some None, [[false]]).
Proof. vm_compute. reflexivity. Qed.

Lemma targetContractId_explicit (st : State) (v : OrderItem) (cid : string) :
  truthy (o_contractId v) = Some cid -> targetContractId st v = Some cid.
Proof. intros H. unfold targetContractId. now rewrite H. Qed.

(** C7 (amended). [markDeliveryPaid] followed by [resetDeliveryPaid]
    leaves the order's document with [depositPaid = false], status
    "pendiente" (the value that the component's status type has for
    pending), [deliveredAt = null], and the staged workflow in which every
    task of a delivery category is not done; categories, tasks, their
    identifiers, titles, due dates and notes are those of the staged
    workflow and the tasks of other categories keep their [done] flags.
    The stored order is the one before [markDeliveryPaid] exactly when
    that one already held these values: the staged workflow with no
    delivery task done, [depositPaid = false], status "pendiente" and
    [deliveredAt = null]; other earlier values are not restored.  The
    contract, when the order names it by [contractId] (or resolves to it
    by e-mail in both handlers) and it exists, is left with
    [depositPaid = false] and every task of its delivery categories not
    done. *)
Theorem markThenReset_state
        (env : Env) (st : State) (db : Db) (s : UidSupply) (v o0 : OrderItem) :
  viewing st = Some v -> getOrder (o_id v) db = Some o0 ->
  let wf := workflowOrEmpty (workflow st) in
  let marked := fst (markDeliveryPaid env st db s) in
  let final := fst (markThenReset env st db s) in
  (exists o2,
      getOrder (o_id v) (snd final) = Some o2 /\
      o2 = withPaidFields (setDeliveryDone false wf) false "pendiente" None o0 /\
      o_depositPaid o2 = Some false /\
      o_status o2 = Some "pendiente" /\
      o_deliveredAt o2 = Some None /\
      o_workflow o2 = Some (setDeliveryDone false wf) /\
      deliveryNotDone (setDeliveryDone false wf) /\
      sameButDeliveryDone wf (setDeliveryDone false wf) /\
      (o_workflow o0 = Some wf -> deliveryNotDone wf ->
       o_depositPaid o0 = Some false -> o_status o0 = Some "pendiente" ->
       o_deliveredAt o0 = Some None -> o2 = o0)) /\
  workflow (fst final) = Some (setDeliveryDone false wf) /\
  (forall cid k,
      targetContractId st v = Some cid ->
      (forall v1, viewing (fst marked) = Some v1 ->
                  targetContractId (fst marked) v1 = Some cid) ->
      getContract cid db = Some k ->
      exists k2,
        getContract cid (snd final) = Some k2 /\
        c_depositPaid k2 = Some false /\
        deliveryNotDone (workflowOrEmpty (c_workflow k2))) /\
  (forall cid, truthy (o_contractId v) = Some cid ->
      targetContractId st v = Some cid /\
      forall v1, viewing (fst marked) = Some v1 ->
                 targetContractId (fst marked) v1 = Some cid).
Proof.
  intros Hv Hg wf marked final.
  destruct (writePaidState_order true "completado" (Some (now env)) env st db s v o0 Hv Hg)
    as (Hg1 & Hv1 & Hw1).
  fold wf in Hg1, Hv1, Hw1.
  assert (Efinal : final =
                   fst (resetDeliveryPaid env (fst marked) (snd marked)
                          (snd (markDeliveryPaid env st db s)))).
  { unfold final, markThenReset, bind, marked.
    now destruct (markDeliveryPaid env st db s) as [r s1]. }
  fold (markDeliveryPaid env) in Hg1, Hv1, Hw1.
  fold marked in Hg1, Hv1, Hw1.
  set (v1 := withPaidState (setDeliveryDone true wf) true "completado" v) in *.
  assert (Hid : o_id v1 = o_id v) by reflexivity.
  rewrite <- Hid in Hg1.
  destruct (writePaidState_order false "pendiente" None env (fst marked) (snd marked)
              (snd (markDeliveryPaid env st db s)) v1 _ Hv1 Hg1) as (Hg2 & _ & Hw2).
  fold (resetDeliveryPaid env) in Hg2, Hw2. rewrite <- Efinal in Hg2, Hw2.
  rewrite Hw1 in Hg2, Hw2. cbn [workflowOrEmpty JS.nullish] in Hg2, Hw2.
  rewrite setDeliveryDone_twice in Hg2, Hw2.
  split; [|split; [exact Hw2|split]].
  - eexists. split; [rewrite <- Hid; exact Hg2|]. split; [reflexivity|].
    split; [reflexivity|]. split; [reflexivity|]. split; [reflexivity|].
    split; [reflexivity|]. split; [apply setDeliveryDone_false_notDone|].
    split; [apply setDeliveryDone_same|].
    intros Ho Hnd Hp Hs Hd.
    transitivity (withPaidFields (setDeliveryDone false wf) false "pendiente" None o0);
      [reflexivity|].
    rewrite (setDeliveryDone_fixed wf Hnd).
    now apply withPaidFields_fixed.
  - intros cid k Ht Ht1 Hk.
    pose proof (writePaidState_contract true "completado" (Some (now env)) env st db s v
                  cid k Hv Ht Hk) as Hk1.
    fold (markDeliveryPaid env) in Hk1. fold marked in Hk1.
    pose proof (writePaidState_contract false "pendiente" None env (fst marked) (snd marked)
                  (snd (markDeliveryPaid env st db s)) v1 cid _ Hv1 (Ht1 v1 Hv1) Hk1) as Hk2.
    fold (resetDeliveryPaid env) in Hk2. rewrite <- Efinal in Hk2.
    eexists. split; [exact Hk2|]. split; [reflexivity|].
    apply setContractDeliveryDone_false_notDone.
  - intros cid Hc. split; [now apply targetContractId_explicit|].
    intros v1' Hv1'. rewrite Hv1 in Hv1'. injection Hv1' as <-.
    now apply targetContractId_explicit.
Qed.

Lemma markThenReset_state_witness :
  let wf := workflowOrEmpty (workflow stateInProcess) in
  let marked := fst (markDeliveryPaid exampleEnv stateInProcess dbInProcess exampleUids) in
  let final := fst (markThenReset exampleEnv stateInProcess dbInProcess exampleUids) in
  (exists o2,
      getOrder (o_id orderInProcess) (snd final) = Some o2 /\
      o2 = withPaidFields (setDeliveryDone false wf) false "pendiente" None orderInProcess /\
      o_depositPaid o2 = Some false /\
      o_status o2 = Some "pendiente" /\
      o_deliveredAt o2 = Some None /\
      o_workflow o2 = Some (setDeliveryDone false wf) /\
      deliveryNotDone (setDeliveryDone false wf) /\
      sameButDeliveryDone wf (setDeliveryDone false wf) /\
      (o_workflow orderInProcess = Some wf -> deliveryNotDone wf ->
       o_depositPaid orderInProcess = Some false ->
       o_status orderInProcess = Some "pendiente" ->
       o_deliveredAt orderInProcess = Some None -> o2 = orderInProcess)) /\
  workflow (fst final) = Some (setDeliveryDone false wf) /\
  (forall cid k,
      targetContractId stateInProcess orderInProcess = Some cid ->
      (forall v1, viewing (fst marked) = Some v1 ->
                  targetContractId (fst marked) v1 = Some cid) ->
      getContract cid dbInProcess = Some k ->
      exists k2,
        getContract cid (snd final) = Some k2 /\
        c_depositPaid k2 = Some false /\
        deliveryNotDone (workflowOrEmpty (c_workflow k2))) /\
  (forall cid, truthy (o_contractId orderInProcess) = Some cid ->
      targetContractId stateInProcess orderInProcess = Some cid /\
      forall v1, viewing (fst marked) = Some v1 ->
                 targetContractId (fst marked) v1 = Some cid).
Proof.
  apply (markThenReset_state exampleEnv stateInProcess dbInProcess exampleUids
           orderInProcess orderInProcess).
  - reflexivity.
  - reflexivity.
Defined.

(* ------------------------------------------------------------------ *)
(** ** [ensureDeliveryTasks] on objects *)

Lemma nth_error_app_Some {A} (l e : list A) (r : nat) (x : A) :
  nth_error l r = Some x -> nth_error (l ++ e) r = Some x.
Proof.
  intros H. rewrite nth_error_app1; [exact H|]. apply nth_error_Some. congruence.
Qed.

Lemma keeps_refl (sT sC : Ref -> Prop) (h : Heap) : keeps sT sC h h.
Proof. repeat split; auto. Qed.

Lemma keeps_trans (sT sC : Ref -> Prop) (h1 h2 h3 : Heap) :
  keeps sT sC h1 h2 -> keeps sT sC h2 h3 -> keeps sT sC h1 h3.
Proof.
  intros (A1 & A2 & A3 & A4) (B1 & B2 & B3 & B4). repeat split; auto.
Qed.

Lemma keeps_weaken (sT sC sT' sC' : Ref -> Prop) (h h' : Heap) :
  (forall r, sT r -> sT' r) -> (forall r, sC r -> sC' r) ->
  keeps sT sC h h' -> keeps sT' sC' h h'.
Proof.
  intros HT HC (A1 & A2 & A3 & A4). repeat split; auto.
Qed.

(** Skipped arrays that [h0] does not hold do not matter to [h0]. *)
Lemma keeps_unchanged (sT sC : Ref -> Prop) (h0 h1 h2 : Heap) :
  unchanged h0 h1 -> keeps sT sC h1 h2 ->
  (forall r, sT r -> nth_error (taskArrays h0) r = None) ->
  (forall r, sC r -> nth_error (categoryArrays h0) r = None) ->
  unchanged h0 h2.
Proof.
  intros (A1 & A2 & A3 & A4) (B1 & B2 & B3 & B4) HT HC.
  unfold nowhere in *. repeat split; auto.
  - intros r x _ Hx. apply B2; [|apply A2; auto].
    intros Hs. rewrite (HT r Hs) in Hx. discriminate.
  - intros r x _ Hx. apply B4; [|apply A4; auto].
    intros Hs. rewrite (HC r Hs) in Hx. discriminate.
Qed.

Lemma mapOption_ext_in {A B} (f g : A -> option B) (l : list A) :
  (forall x, In x l -> f x = g x) -> mapOption f l = mapOption g l.
Proof.
  induction l as [|x l IH]; intros H; cbn [mapOption]; [reflexivity|].
  rewrite (H x (or_introl eq_refl)), IH; [reflexivity|].
  intros y Hy. apply H. now right.
Qed.

Lemma mapOption_In {A B} (f : A -> option B) (l : list A) (ys : list B) (x : A) :
  mapOption f l = Some ys -> In x l -> exists y, f x = Some y.
Proof.
  revert ys. induction l as [|a l IH]; intros ys H Hx; [destruct Hx|].
  cbn [mapOption] in H. destruct (f a) as [y|] eqn:Fa; [|discriminate].
  destruct (mapOption f l) as [ys'|] eqn:Fl; [|discriminate].
  destruct Hx as [<-|Hx]; [eauto|]. now apply (IH ys').
Qed.

Lemma mapOption_stable {A B} (f g : A -> option B) (l : list A) (ys : list B) :
  (forall x y, In x l -> f x = Some y -> g x = Some y) ->
  mapOption f l = Some ys -> mapOption g l = Some ys.
Proof.
  revert ys. induction l as [|a l IH]; intros ys H Hm; [exact Hm|].
  cbn [mapOption] in *. destruct (f a) as [y|] eqn:Fa; [|discriminate].
  destruct (mapOption f l) as [ys'|] eqn:Fl; [|discriminate].
  rewrite (H a y (or_introl eq_refl) Fa).
  rewrite (IH ys'); [exact Hm| |reflexivity].
  intros x z Hx. apply H. now right.
Qed.

Lemma mapOption_app {A B} (f : A -> option B) (l l' : list A) (ys ys' : list B) :
  mapOption f l = Some ys -> mapOption f l' = Some ys' ->
  mapOption f (l ++ l') = Some (ys ++ ys').
Proof.
  revert ys. induction l as [|a l IH]; intros ys H H'; cbn [mapOption app] in *.
  - now injection H as <-.
  - destruct (f a) as [y|]; [|discriminate].
    destruct (mapOption f l) as [zs|]; [|discriminate].
    injection H as <-. now rewrite (IH zs eq_refl H').
Qed.

Lemma mapOption_nth {A B} (f : A -> option B) (l : list A) (ys : list B)
      (i : nat) (x : A) :
  mapOption f l = Some ys -> nth_error l i = Some x ->
  exists y, nth_error ys i = Some y /\ f x = Some y.
Proof.
  revert ys i. induction l as [|a l IH]; intros ys i H Hx; [destruct i; discriminate|].
  cbn [mapOption] in H. destruct (f a) as [y|] eqn:Fa; [|discriminate].
  destruct (mapOption f l) as [ys'|] eqn:Fl; [|discriminate].
  injection H as <-. destruct i as [|i]; cbn [nth_error] in *.
  - injection Hx as <-. eauto.
  - now apply (IH ys').
Qed.

Lemma mapOption_length {A B} (f : A -> option B) (l : list A) (ys : list B) :
  mapOption f l = Some ys -> List.length ys = List.length l.
Proof.
  revert ys. induction l as [|a l IH]; intros ys H; cbn [mapOption] in H.
  - now injection H as <-.
  - destruct (f a); [|discriminate]. destruct (mapOption f l) as [zs|]; [|discriminate].
    injection H as <-. cbn. now rewrite (IH zs).
Qed.

(** The values read are those of the kept objects. *)
Lemma taskAt_kept (sT sC : Ref -> Prop) (h h' : Heap) (r : Ref) (t : WorkflowTask) :
  keeps sT sC h h' -> taskAt h r = Some t -> taskAt h' r = Some t.
Proof. intros (A1 & _). apply A1. Qed.

Lemma tasksAt_kept (sT sC : Ref -> Prop) (h h' : Heap) (r : Ref)
      (ts : list WorkflowTask) :
  keeps sT sC h h' -> ~ sT r -> tasksAt h r = Some ts -> tasksAt h' r = Some ts.
Proof.
  intros K Hr. unfold tasksAt.
  destruct (nth_error (taskArrays h) r) as [a|] eqn:Ha; [|discriminate].
  rewrite (proj1 (proj2 K) r a Hr Ha).
  apply mapOption_stable. intros x y _. now apply (taskAt_kept sT sC).
Qed.

Lemma categoryAt_kept (sT sC : Ref -> Prop) (h h' : Heap) (r : Ref)
      (c : WorkflowCategory) :
  keeps sT sC h h' ->
  (forall a, tasksRefOf h r = Some a -> ~ sT a) ->
  categoryAt h r = Some c -> categoryAt h' r = Some c.
Proof.
  intros K Hr. unfold categoryAt, tasksRefOf in *.
  destruct (nth_error (categoryObjects h) r) as [co|] eqn:Hc; [|discriminate].
  rewrite (proj1 (proj2 (proj2 K)) r co Hc).
  destruct (tasksAt h (co_tasks co)) as [ts|] eqn:Ht; [|discriminate].
  rewrite (tasksAt_kept sT sC h h' _ ts K (Hr _ eq_refl) Ht). auto.
Qed.

Lemma workflowAt_unchanged (h h' : Heap) (r : Ref) (W : Workflow) :
  unchanged h h' -> workflowAt h r = Some W -> workflowAt h' r = Some W.
Proof.
  intros K. unfold workflowAt.
  destruct (nth_error (categoryArrays h) r) as [a|] eqn:Ha; [|discriminate].
  rewrite (proj2 (proj2 (proj2 K)) r a (fun F => F) Ha).
  apply mapOption_stable. intros x y _.
  apply (categoryAt_kept nowhere nowhere); [exact K | intros ? _ F; exact F].
Qed.

Lemma unchanged_app_tasks (h : Heap) (e : list WorkflowTask) :
  unchanged h {| taskObjects := taskObjects h ++ e; taskArrays := taskArrays h;
                 categoryObjects := categoryObjects h;
                 categoryArrays := categoryArrays h |}.
Proof. repeat split; cbn; auto. intros r x. apply nth_error_app_Some. Qed.

Lemma unchanged_app_taskArrays (h : Heap) (e : list (list Ref)) :
  unchanged h {| taskObjects := taskObjects h; taskArrays := taskArrays h ++ e;
                 categoryObjects := categoryObjects h;
                 categoryArrays := categoryArrays h |}.
Proof. repeat split; cbn; auto. intros r x _. apply nth_error_app_Some. Qed.

Lemma unchanged_app_categories (h : Heap) (e : list CategoryObject) :
  unchanged h {| taskObjects := taskObjects h; taskArrays := taskArrays h;
                 categoryObjects := categoryObjects h ++ e;
                 categoryArrays := categoryArrays h |}.
Proof. repeat split; cbn; auto. intros r x. apply nth_error_app_Some. Qed.

Lemma unchanged_app_categoryArrays (h : Heap) (e : list (list Ref)) :
  unchanged h {| taskObjects := taskObjects h; taskArrays := taskArrays h;
                 categoryObjects := categoryObjects h;
                 categoryArrays := categoryArrays h ++ e |}.
Proof. repeat split; cbn; auto. intros r x _. apply nth_error_app_Some. Qed.

Lemma hbind_eq {A B} (m : OnHeap A) (k : A -> OnHeap B) (h h' : Heap)
      (s s' : UidSupply) (a : A) :
  m h s = Some (a, h', s') -> hbind m k h s = k a h' s'.
Proof. intros H. unfold hbind. now rewrite H. Qed.

Lemma getTask_eq (h : Heap) (s : UidSupply) (r : Ref) (t : WorkflowTask) :
  taskAt h r = Some t -> getTask r h s = Some (t, h, s).
Proof. intros H. unfold getTask. unfold taskAt in H. now rewrite H. Qed.

Lemma getTasks_eq (h : Heap) (s : UidSupply) (r : Ref) (a : list Ref) :
  nth_error (taskArrays h) r = Some a -> getTasks r h s = Some (a, h, s).
Proof. intros H. unfold getTasks. now rewrite H. Qed.

Lemma getCategory_eq (h : Heap) (s : UidSupply) (r : Ref) (c : CategoryObject) :
  nth_error (categoryObjects h) r = Some c -> getCategory r h s = Some (c, h, s).
Proof. intros H. unfold getCategory. now rewrite H. Qed.

Lemma getCategories_eq (h : Heap) (s : UidSupply) (r : Ref) (a : list Ref) :
  nth_error (categoryArrays h) r = Some a -> getCategories r h s = Some (a, h, s).
Proof. intros H. unfold getCategories. now rewrite H. Qed.

(** The copy of a list of task objects. *)
Lemma cloneTaskObjects_spec (rs : list Ref) :
  forall (h : Heap) (s : UidSupply) (ts : list WorkflowTask),
  mapOption (taskAt h) rs = Some ts ->
  exists rs' h',
    mapOnHeap cloneTaskObject rs h s = Some (rs', h', s) /\
    mapOption (taskAt h') rs' = Some ts /\
    unchanged h h' /\
    taskArrays h' = taskArrays h /\
    categoryObjects h' = categoryObjects h /\
    categoryArrays h' = categoryArrays h.
Proof.
  induction rs as [|r rs IH]; intros h s ts H; cbn [mapOption] in H.
  - injection H as <-. exists [], h. repeat split; auto.
  - destruct (taskAt h r) as [t|] eqn:Ht; [|discriminate].
    destruct (mapOption (taskAt h) rs) as [ts'|] eqn:Hts; [|discriminate].
    injection H as <-.
    set (h1 := {| taskObjects := taskObjects h ++ [cloneTask t];
                  taskArrays := taskArrays h;
                  categoryObjects := categoryObjects h;
                  categoryArrays := categoryArrays h |}).
    assert (K1 : unchanged h h1) by apply unchanged_app_tasks.
    assert (Hts1 : mapOption (taskAt h1) rs = Some ts').
    { revert Hts. apply mapOption_stable. intros x y _.
      apply (taskAt_kept nowhere nowhere). exact K1. }
    destruct (IH h1 s ts' Hts1) as (rs' & h' & Hm & Hv & K & E1 & E2 & E3).
    exists (List.length (taskObjects h) :: rs'), h'.
    split; [|split; [|split]].
    + cbn [mapOnHeap].
      assert (Hc : cloneTaskObject r h s = Some (List.length (taskObjects h), h1, s)).
      { unfold cloneTaskObject. rewrite (hbind_eq _ _ h h s s t (getTask_eq h s r t Ht)).
        reflexivity. }
      rewrite (hbind_eq _ _ h h1 s s _ Hc), (hbind_eq _ _ h1 h' s s _ Hm). reflexivity.
    + cbn [mapOption]. rewrite Hv.
      assert (Hn : taskAt h' (List.length (taskObjects h)) = Some t).
      { apply (taskAt_kept nowhere nowhere h1 h' _ _ K). unfold taskAt, h1. cbn.
        rewrite nth_error_length_app. now rewrite cloneTask_id. }
      now rewrite Hn.
    + apply (keeps_trans _ _ h h1 h'); assumption.
    + cbn in E1, E2, E3. auto.
Qed.

(** The copy of a category object. *)
Lemma cloneCategoryObject_spec (h : Heap) (s : UidSupply) (r : Ref)
      (c : WorkflowCategory) :
  categoryAt h r = Some c ->
  exists h',
    cloneCategoryObject r h s = Some (List.length (categoryObjects h), h', s) /\
    categoryAt h' (List.length (categoryObjects h)) = Some c /\
    tasksRefOf h' (List.length (categoryObjects h)) = Some (List.length (taskArrays h)) /\
    unchanged h h' /\
    List.length (taskArrays h') = S (List.length (taskArrays h)) /\
    List.length (categoryObjects h') = S (List.length (categoryObjects h)) /\
    categoryArrays h' = categoryArrays h.
Proof.
  intros H. unfold categoryAt in H.
  destruct (nth_error (categoryObjects h) r) as [co|] eqn:Hco; [|discriminate].
  unfold tasksAt in H.
  destruct (nth_error (taskArrays h) (co_tasks co)) as [a|] eqn:Ha; [|discriminate].
  destruct (mapOption (taskAt h) a) as [ts|] eqn:Hts; [|discriminate].
  cbn [option_map] in H. injection H as <-.
  destruct (cloneTaskObjects_spec a h s ts Hts) as (a' & h1 & Hm & Hv & K & E1 & E2 & E3).
  exists {| taskObjects := taskObjects h1;
            taskArrays := taskArrays h ++ [a'];
            categoryObjects := categoryObjects h ++
              [{| co_id := co_id co; co_name := co_name co;
                  co_tasks := List.length (taskArrays h) |}];
            categoryArrays := categoryArrays h |}.
  split; [|split; [|split; [|split; [|split; [|split]]]]].
  - unfold cloneCategoryObject.
    rewrite (hbind_eq _ _ h h s s co (getCategory_eq h s r co Hco)).
    rewrite (hbind_eq _ _ h h s s a (getTasks_eq h s _ a Ha)).
    rewrite (hbind_eq _ _ h h1 s s a' Hm).
    unfold hbind, newTasks, newCategory. cbn. rewrite E1, E2, E3. reflexivity.
  - unfold categoryAt. cbn [categoryObjects]. rewrite nth_error_length_app.
    cbn [co_tasks co_id co_name]. unfold tasksAt. cbn [taskArrays].
    rewrite nth_error_length_app.
    change (mapOption (taskAt h1) a') with (mapOption (taskAt h1) a') in Hv.
    unfold taskAt in *. cbn [taskObjects]. rewrite Hv. reflexivity.
  - unfold tasksRefOf. cbn [categoryObjects]. rewrite nth_error_length_app. reflexivity.
  - destruct K as (K1 & K2 & K3 & K4). repeat split; cbn.
    + exact K1.
    + intros r0 x _. apply nth_error_app_Some.
    + intros r0 x. apply nth_error_app_Some.
    + auto.
  - cbn. rewrite length_app. cbn. lia.
  - cbn. rewrite length_app. cbn. lia.
  - reflexivity.
Qed.

Lemma tasksRefOf_kept (sT sC : Ref -> Prop) (h h' : Heap) (r a : Ref) :
  keeps sT sC h h' -> tasksRefOf h r = Some a -> tasksRefOf h' r = Some a.
Proof.
  intros K. unfold tasksRefOf.
  destruct (nth_error (categoryObjects h) r) as [co|] eqn:Hc; [|discriminate].
  now rewrite (proj1 (proj2 (proj2 K)) r co Hc).
Qed.

(** The copy of a list of category objects: the copies stand for the same
    values, and their task arrays are new and all different. *)
Lemma cloneCategoryObjects_spec (rs : list Ref) :
  forall (h : Heap) (s : UidSupply) (W : Workflow),
  mapOption (categoryAt h) rs = Some W ->
  exists rs' h',
    mapOnHeap cloneCategoryObject rs h s = Some (rs', h', s) /\
    mapOption (categoryAt h') rs' = Some W /\
    map (tasksRefOf h') rs' =
      map Some (seq (List.length (taskArrays h)) (List.length rs)) /\
    unchanged h h' /\
    categoryArrays h' = categoryArrays h /\
    List.length (taskArrays h') = List.length (taskArrays h) + List.length rs.
Proof.
  induction rs as [|r rs IH]; intros h s W H; cbn [mapOption] in H.
  - injection H as <-. exists [], h. repeat split; auto.
  - destruct (categoryAt h r) as [c|] eqn:Hc; [|discriminate].
    destruct (mapOption (categoryAt h) rs) as [W'|] eqn:HW; [|discriminate].
    injection H as <-.
    destruct (cloneCategoryObject_spec h s r c Hc)
      as (h1 & Hrun & Hv & Hr & K1 & L1 & L2 & E1).
    assert (HW1 : mapOption (categoryAt h1) rs = Some W').
    { revert HW. apply mapOption_stable. intros x y _.
      apply (categoryAt_kept nowhere nowhere); [exact K1 | intros ? _ F; exact F]. }
    destruct (IH h1 s W' HW1) as (rs' & h' & Hm & Hv' & Hr' & K & E & L).
    exists (List.length (categoryObjects h) :: rs'), h'.
    split; [|split; [|split; [|split; [|split]]]].
    + cbn [mapOnHeap].
      rewrite (hbind_eq _ _ h h1 s s _ Hrun), (hbind_eq _ _ h1 h' s s _ Hm). reflexivity.
    + cbn [mapOption]. rewrite Hv'.
      assert (Hn : categoryAt h' (List.length (categoryObjects h)) = Some c)
        by (apply (categoryAt_kept nowhere nowhere h1 h'); auto; intros ? _ F; exact F).
      now rewrite Hn.
    + cbn [map List.length seq]. rewrite Hr', L1.
      now rewrite (tasksRefOf_kept nowhere nowhere h1 h' _ _ K Hr).
    + apply (keeps_trans _ _ h h1 h'); assumption.
    + congruence.
    + cbn [List.length]. lia.
Qed.

Lemma jsonCloneObject_spec (h : Heap) (s : UidSupply) (base : Ref) (W : Workflow) :
  workflowAt h base = Some W ->
  exists crs h1,
    jsonCloneObject base h s = Some (List.length (categoryArrays h), h1, s) /\
    nth_error (categoryArrays h1) (List.length (categoryArrays h)) = Some crs /\
    mapOption (categoryAt h1) crs = Some W /\
    map (tasksRefOf h1) crs =
      map Some (seq (List.length (taskArrays h)) (List.length W)) /\
    unchanged h h1 /\
    List.length (taskArrays h1) = List.length (taskArrays h) + List.length W.
Proof.
  intros H. unfold workflowAt in H.
  destruct (nth_error (categoryArrays h) base) as [cs|] eqn:Hcs; [|discriminate].
  destruct (cloneCategoryObjects_spec cs h s W H) as (crs & h' & Hm & Hv & Hr & K & E & L).
  pose proof (mapOption_length _ _ _ H) as HL.
  exists crs, {| taskObjects := taskObjects h'; taskArrays := taskArrays h';
                 categoryObjects := categoryObjects h';
                 categoryArrays := categoryArrays h' ++ [crs] |}.
  split; [|split; [|split; [|split; [|split]]]].
  - unfold jsonCloneObject.
    rewrite (hbind_eq _ _ h h s s cs (getCategories_eq h s base cs Hcs)).
    rewrite (hbind_eq _ _ h h' s s crs Hm). unfold newCategories. now rewrite E.
  - cbn [categoryArrays]. rewrite E. apply nth_error_length_app.
  - exact Hv.
  - rewrite HL. exact Hr.
  - apply (keeps_trans _ _ h h'); [exact K | apply unchanged_app_categoryArrays].
  - cbn [taskArrays]. lia.
Qed.

Lemma categoryAt_name (h : Heap) (r : Ref) (c : WorkflowCategory) :
  categoryAt h r = Some c ->
  exists co, nth_error (categoryObjects h) r = Some co /\
             co_id co = wc_id c /\ co_name co = wc_name c /\
             tasksAt h (co_tasks co) = Some (wc_tasks c).
Proof.
  unfold categoryAt. destruct (nth_error (categoryObjects h) r) as [co|]; [|discriminate].
  destruct (tasksAt h (co_tasks co)) as [ts|] eqn:Ht; [|discriminate].
  cbn. intros H. injection H as <-. exists co. repeat split. exact Ht.
Qed.

Lemma findDeliveryIndex_spec (crs : list Ref) :
  forall (h : Heap) (s : UidSupply) (W : Workflow),
  mapOption (categoryAt h) crs = Some W ->
  findDeliveryIndex crs h s = Some (JS.findIndex isDelivery W, h, s).
Proof.
  induction crs as [|r crs IH]; intros h s W H; cbn [mapOption] in H.
  - injection H as <-. reflexivity.
  - destruct (categoryAt h r) as [c|] eqn:Hc; [|discriminate].
    destruct (mapOption (categoryAt h) crs) as [W'|] eqn:HW; [|discriminate].
    injection H as <-.
    destruct (categoryAt_name h r c Hc) as (co & Hco & _ & Hn & _).
    cbn [findDeliveryIndex JS.findIndex].
    rewrite (hbind_eq _ _ h h s s co (getCategory_eq h s r co Hco)).
    unfold isDelivery at 1. rewrite Hn.
    destruct (JS.includes (normalize (wc_name c)) "entrega"); [reflexivity|].
    rewrite (hbind_eq _ _ h h s s _ (IH h s W' HW)). reflexivity.
Qed.

Lemma someTitle_spec (title : string) (trs : list Ref) :
  forall (h : Heap) (s : UidSupply) (ts : list WorkflowTask),
  mapOption (taskAt h) trs = Some ts ->
  someTitle title trs h s = Some (hasTitle ts title, h, s).
Proof.
  induction trs as [|r trs IH]; intros h s ts H; cbn [mapOption] in H.
  - injection H as <-. reflexivity.
  - destruct (taskAt h r) as [t|] eqn:Ht; [|discriminate].
    destruct (mapOption (taskAt h) trs) as [ts'|] eqn:Hts; [|discriminate].
    injection H as <-. cbn [someTitle].
    rewrite (hbind_eq _ _ h h s s t (getTask_eq h s r t Ht)).
    unfold hasTitle. cbn [existsb].
    destruct (normalize (wt_title t) =? normalize title); [reflexivity|].
    cbn [orb]. exact (IH h s ts' Hts).
Qed.

(** One turn of the [forEach] on the category object [cat]: only the task
    array of [cat] is written. *)
Lemma pushDeliveryTask_spec (h : Heap) (s : UidSupply) (cat tr : Ref) (n : string)
      (c : WorkflowCategory) :
  categoryAt h cat = Some c -> tasksRefOf h cat = Some tr ->
  exists h',
    pushDeliveryTask cat n h s = Some (tt, h', snd (addDeliveryTask (wc_tasks c) n s)) /\
    categoryAt h' cat =
      Some (mkCat (wc_id c) (wc_name c) (fst (addDeliveryTask (wc_tasks c) n s))) /\
    tasksRefOf h' cat = Some tr /\
    keeps (eq tr) nowhere h h'.
Proof.
  intros Hc Hr.
  destruct (categoryAt_name h cat c Hc) as (co & Hco & Hid & Hname & Hts).
  assert (Etr : co_tasks co = tr).
  { unfold tasksRefOf in Hr. rewrite Hco in Hr. now injection Hr. }
  unfold tasksAt in Hts. rewrite Etr in Hts.
  destruct (nth_error (taskArrays h) tr) as [a|] eqn:Ha; [|discriminate].
  unfold pushDeliveryTask, addDeliveryTask.
  rewrite (hbind_eq _ _ h h s s co (getCategory_eq h s cat co Hco)). rewrite Etr.
  rewrite (hbind_eq _ _ h h s s a (getTasks_eq h s tr a Ha)).
  rewrite (hbind_eq _ _ h h s s _ (someTitle_spec (deliveryTitle n) a h s _ Hts)).
  destruct (hasTitle (wc_tasks c) (deliveryTitle n)).
  - exists h. split; [reflexivity|]. split; [|split; [exact Hr | apply keeps_refl]].
    cbn [ret fst]. rewrite Hc. now destruct c.
  - set (t := {| wt_id := s 0; wt_title := deliveryTitle n; wt_done := false;
                 wt_due := None; wt_note := None |}).
    set (h' := {| taskObjects := taskObjects h ++ [t];
                  taskArrays := setNth tr (a ++ [List.length (taskObjects h)]) (taskArrays h);
                  categoryObjects := categoryObjects h;
                  categoryArrays := categoryArrays h |}).
    assert (Hlt : tr < List.length (taskArrays h))
      by (apply nth_error_Some; congruence).
    exists h'. split; [|split; [|split]].
    + unfold hbind, huid, newTask, getTasks, putTasks. cbn [taskArrays].
      rewrite Ha. cbn [option_map taskArrays]. rewrite Ha. reflexivity.
    + unfold categoryAt. cbn [categoryObjects h']. rewrite Hco, Etr.
      unfold tasksAt. cbn [taskArrays h']. rewrite (nth_error_setNth_same _ _ _ Hlt).
      assert (Hm : mapOption (taskAt h') (a ++ [List.length (taskObjects h)]) =
                   Some (wc_tasks c ++ [t])).
      { apply mapOption_app.
        - revert Hts. apply mapOption_stable. intros x y _ Hx.
          unfold taskAt in *. cbn [taskObjects h']. now apply nth_error_app_Some.
        - cbn [mapOption]. unfold taskAt. cbn [taskObjects h'].
          now rewrite nth_error_length_app. }
      rewrite Hm. cbn [option_map bind uid ret fst]. now rewrite Hid, Hname.
    + unfold tasksRefOf. cbn [categoryObjects h']. exact Hr.
    + repeat split; cbn [taskObjects taskArrays categoryObjects categoryArrays h']; auto.
      * intros r x. apply nth_error_app_Some.
      * intros r x Hne Hx. rewrite nth_error_setNth_other; [exact Hx | congruence].
Qed.

Lemma forEach_pushDeliveryTask_spec (cat tr : Ref) (N : list string) :
  forall (h : Heap) (s : UidSupply) (c : WorkflowCategory),
  categoryAt h cat = Some c -> tasksRefOf h cat = Some tr ->
  exists h',
    forEachOnHeap (pushDeliveryTask cat) N h s =
      Some (tt, h', snd (addDeliveryTasks (wc_tasks c) N s)) /\
    categoryAt h' cat =
      Some (mkCat (wc_id c) (wc_name c) (fst (addDeliveryTasks (wc_tasks c) N s))) /\
    keeps (eq tr) nowhere h h'.
Proof.
  induction N as [|n N IH]; intros h s c Hc Hr.
  - exists h. split; [reflexivity|]. split; [|apply keeps_refl].
    cbn. rewrite Hc. now destruct c.
  - destruct (pushDeliveryTask_spec h s cat tr n c Hc Hr) as (h1 & Hrun & Hc1 & Hr1 & K1).
    destruct (IH h1 (snd (addDeliveryTask (wc_tasks c) n s)) _ Hc1 Hr1)
      as (h' & Hrun' & Hc' & K').
    cbn [wc_tasks wc_id wc_name] in Hrun', Hc'.
    exists h'. split; [|split].
    + cbn [forEachOnHeap]. rewrite (hbind_eq _ _ h h1 s _ tt Hrun). rewrite Hrun'.
      cbn [addDeliveryTasks]. unfold bind.
      now destruct (addDeliveryTask (wc_tasks c) n s).
    + rewrite Hc'. cbn [addDeliveryTasks]. unfold bind.
      now destruct (addDeliveryTask (wc_tasks c) n s).
    + apply (keeps_trans _ _ h h1 h'); assumption.
Qed.

Lemma mapOption_update {A B} (f g : A -> option B) (l : list A) :
  forall (ys : list B) (i : nat) (x : A) (y' : B),
  mapOption f l = Some ys -> nth_error l i = Some x -> g x = Some y' ->
  (forall j z, j <> i -> nth_error l j = Some z -> g z = f z) ->
  mapOption g l = Some (setNth i y' ys).
Proof.
  induction l as [|a l IH]; intros ys i x y' H Hx Hg Hother; [destruct i; discriminate|].
  cbn [mapOption] in H. destruct (f a) as [y|] eqn:Fa; [|discriminate].
  destruct (mapOption f l) as [zs|] eqn:Fl; [|discriminate].
  injection H as <-. destruct i as [|i]; cbn [nth_error] in Hx; cbn [mapOption setNth].
  - injection Hx as ->. rewrite Hg.
    rewrite (mapOption_ext_in g f l); [now rewrite Fl|].
    intros z Hz. destruct (In_nth_error _ _ Hz) as [j Hj].
    apply (Hother (S j) z); [discriminate | exact Hj].
  - rewrite (Hother 0 a); [|discriminate|reflexivity]. rewrite Fa.
    rewrite (IH zs i x y' eq_refl Hx Hg); [reflexivity|].
    intros j z Hj Hz. apply (Hother (S j) z); [congruence | exact Hz].
Qed.

Lemma nth_error_seq_Some (a n j x : nat) :
  nth_error (seq a n) j = Some x -> x = a + j /\ j < n.
Proof.
  revert a j. induction n as [|n IH]; intros a j H; [destruct j; discriminate|].
  destruct j as [|j]; cbn in H.
  - injection H as <-. lia.
  - destruct (IH (S a) j H). lia.
Qed.

(** The task array of the [j]-th copy. *)
Lemma tasksRefOf_nth (h : Heap) (crs : list Ref) (a n j : nat) (z : Ref) :
  map (tasksRefOf h) crs = map Some (seq a n) ->
  nth_error crs j = Some z -> tasksRefOf h z = Some (a + j) /\ j < n.
Proof.
  intros Hm Hz.
  assert (H : nth_error (map (tasksRefOf h) crs) j = Some (tasksRefOf h z))
    by (rewrite nth_error_map, Hz; reflexivity).
  rewrite Hm, nth_error_map in H.
  destruct (nth_error (seq a n) j) as [x|] eqn:Hx; [|discriminate].
  cbn in H. injection H as H. destruct (nth_error_seq_Some a n j x Hx) as [-> Hlt].
  split; [congruence | exact Hlt].
Qed.

Lemma mapOption_nth_inv {A B} (f : A -> option B) (l : list A) (ys : list B)
      (i : nat) (y : B) :
  mapOption f l = Some ys -> nth_error ys i = Some y ->
  exists x, nth_error l i = Some x /\ f x = Some y.
Proof.
  revert ys i. induction l as [|a l IH]; intros ys i H Hy; cbn [mapOption] in H.
  - injection H as <-. destruct i; discriminate.
  - destruct (f a) as [b|] eqn:Fa; [|discriminate].
    destruct (mapOption f l) as [zs|] eqn:Fl; [|discriminate].
    injection H as <-. destruct i as [|i]; cbn [nth_error] in *.
    + injection Hy as <-. eauto.
    + now apply (IH zs).
Qed.

Lemma putCategories_eq (h : Heap) (s : UidSupply) (r : Ref) (a x : list Ref) :
  nth_error (categoryArrays h) r = Some x ->
  putCategories r a h s =
  Some (tt, {| taskObjects := taskObjects h; taskArrays := taskArrays h;
               categoryObjects := categoryObjects h;
               categoryArrays := setNth r a (categoryArrays h) |}, s).
Proof. intros H. unfold putCategories. now rewrite H. Qed.

(** Writing a category array keeps all but that array. *)
Lemma keeps_putCategories (sT : Ref -> Prop) (h : Heap) (r : Ref) (a : list Ref) :
  keeps sT (eq r) h {| taskObjects := taskObjects h; taskArrays := taskArrays h;
                       categoryObjects := categoryObjects h;
                       categoryArrays := setNth r a (categoryArrays h) |}.
Proof.
  repeat split; cbn; auto.
  intros r0 x Hne Hx. rewrite nth_error_setNth_other; [exact Hx | congruence].
Qed.

Lemma workflowAt_put (h : Heap) (r : Ref) (a : list Ref) (W : Workflow) :
  r < List.length (categoryArrays h) ->
  mapOption (categoryAt h) a = Some W ->
  workflowAt {| taskObjects := taskObjects h; taskArrays := taskArrays h;
                categoryObjects := categoryObjects h;
                categoryArrays := setNth r a (categoryArrays h) |} r = Some W.
Proof.
  intros Hlt Hm. unfold workflowAt. cbn [categoryArrays].
  rewrite (nth_error_setNth_same _ _ _ Hlt). exact Hm.
Qed.

(** [ensureDeliveryTasks] on objects computes, at a new reference, the
    value that [ensureDeliveryTasks] computes on values, and leaves every
    object that existed before it as it was. *)
Lemma ensureDeliveryTasksObject_spec (h : Heap) (s : UidSupply) (base : Ref)
      (W : Workflow) (N : list string) :
  workflowAt h base = Some W ->
  exists h',
    ensureDeliveryTasksObject base N h s =
      Some (List.length (categoryArrays h), h', snd (ensureDeliveryTasks W N s)) /\
    workflowAt h' (List.length (categoryArrays h)) =
      Some (fst (ensureDeliveryTasks W N s)) /\
    unchanged h h'.
Proof.
  intros HW.
  destruct (jsonCloneObject_spec h s base W HW)
    as (crs & h1 & Hclone & Hcrs & Hv & Hrefs & K1 & L1).
  set (cloned := List.length (categoryArrays h)) in *.
  assert (Hcl : nth_error (categoryArrays h) cloned = None)
    by (apply nth_error_None; unfold cloned; lia).
  pose proof (mapOption_length _ _ _ Hv) as HL.
  unfold ensureDeliveryTasksObject.
  rewrite (hbind_eq _ _ h h1 s s cloned Hclone).
  rewrite (hbind_eq _ _ h1 h1 s s crs (getCategories_eq h1 s cloned crs Hcrs)).
  rewrite (hbind_eq _ _ h1 h1 s s _ (findDeliveryIndex_spec crs h1 s W Hv)).
  destruct (JS.findIndex isDelivery W) as [i|] eqn:Hi.
  - (* the copy holds a delivery category *)
    destruct (findIndex_Some_nth _ _ _ Hi) as (c & Hn & _).
    destruct (mapOption_nth_inv _ _ _ _ _ Hv Hn) as (cat & Hcat & Hc).
    destruct (tasksRefOf_nth h1 crs _ _ i cat Hrefs Hcat) as [Htr _].
    set (tr := List.length (taskArrays h) + i) in *.
    destruct (forEach_pushDeliveryTask_spec cat tr N h1 s c Hc Htr)
      as (hD & Hrun & HcD & KD).
    assert (HcrsD : nth_error (categoryArrays hD) cloned = Some crs)
      by (apply (proj2 (proj2 (proj2 KD))); [intros F; exact F | exact Hcrs]).
    rewrite (hbind_eq _ _ h1 h1 s s tt eq_refl).
    rewrite (hbind_eq _ _ h1 h1 s s crs (getCategories_eq h1 s cloned crs Hcrs)).
    rewrite Hcat.
    rewrite (hbind_eq _ _ h1 hD s _ tt Hrun).
    rewrite (hbind_eq _ _ hD hD _ _ crs (getCategories_eq hD _ cloned crs HcrsD)).
    rewrite (hbind_eq _ _ hD _ _ _ tt (putCategories_eq hD _ cloned _ crs HcrsD)).
    rewrite (setNth_same crs i cat Hcat).
    rewrite (ensureDeliveryTasks_found W N s i c Hi Hn). cbn [fst snd].
    eexists. split; [reflexivity|]. split.
    + apply workflowAt_put; [apply nth_error_Some; congruence|].
      apply (mapOption_update (categoryAt h1) (categoryAt hD) crs W i cat); auto.
      intros j z Hj Hz. destruct (tasksRefOf_nth h1 crs _ _ j z Hrefs Hz) as [Hz' _].
      destruct (mapOption_In _ _ _ z Hv (nth_error_In _ _ Hz)) as (cz & Hcz).
      rewrite Hcz. apply (categoryAt_kept (eq tr) nowhere h1 hD); auto.
      intros a Ha. rewrite Hz' in Ha. injection Ha as <-. unfold tr. lia.
    + apply (keeps_unchanged (eq tr) (eq cloned) h h1); auto.
      * apply (keeps_trans _ _ h1 hD).
        -- apply (keeps_weaken (eq tr) nowhere); auto. intros r [].
        -- apply keeps_putCategories.
      * intros r <-. apply nth_error_None. unfold tr. lia.
      * intros r <-. exact Hcl.
  - (* it holds none: a delivery category is pushed *)
    set (a := List.length (taskArrays h1)).
    set (cat := List.length (categoryObjects h1)).
    set (hB := {| taskObjects := taskObjects h1;
                  taskArrays := taskArrays h1 ++ [[]];
                  categoryObjects := categoryObjects h1 ++
                    [{| co_id := s 0; co_name := "Entrega de productos"; co_tasks := a |}];
                  categoryArrays := categoryArrays h1 |}).
    set (hC := {| taskObjects := taskObjects hB; taskArrays := taskArrays hB;
                  categoryObjects := categoryObjects hB;
                  categoryArrays := setNth cloned (crs ++ [cat]) (categoryArrays hB) |}).
    assert (KB : unchanged h1 hB).
    { repeat split; cbn; auto.
      - intros r x _. apply nth_error_app_Some.
      - intros r x. apply nth_error_app_Some. }
    assert (Hlt : cloned < List.length (categoryArrays h1))
      by (apply nth_error_Some; congruence).
    assert (HcC : categoryAt hC cat = Some (mkCat (s 0) "Entrega de productos" [])).
    { unfold categoryAt, cat. cbn [categoryObjects hC hB].
      rewrite nth_error_length_app. cbn [co_tasks co_id co_name].
      unfold tasksAt, a. cbn [taskArrays hC hB]. now rewrite nth_error_length_app. }
    assert (HtC : tasksRefOf hC cat = Some a).
    { unfold tasksRefOf, cat. cbn [categoryObjects hC hB].
      now rewrite nth_error_length_app. }
    destruct (forEach_pushDeliveryTask_spec cat a N hC (afterUid s) _ HcC HtC)
      as (hD & Hrun & HcD & KD).
    cbn [wc_tasks wc_id wc_name] in Hrun, HcD.
    assert (HcrsC : nth_error (categoryArrays hC) cloned = Some (crs ++ [cat]))
      by (cbn [categoryArrays hC hB]; now apply nth_error_setNth_same).
    assert (HcrsD : nth_error (categoryArrays hD) cloned = Some (crs ++ [cat]))
      by (apply (proj2 (proj2 (proj2 KD))); [intros F; exact F | exact HcrsC]).
    assert (Hstep : hbind huid
              (fun id => hbind (newTasks [])
                (fun a0 => hbind (newCategory {| co_id := id;
                                    co_name := "Entrega de productos"; co_tasks := a0 |})
                  (fun c0 => hbind (getCategories cloned)
                    (fun cs => putCategories cloned (cs ++ [c0]))))) h1 s =
            Some (tt, hC, afterUid s)).
    { unfold hbind, huid, newTasks, newCategory, getCategories, putCategories.
      cbn [categoryArrays]. rewrite Hcrs. cbn [option_map categoryArrays].
      rewrite Hcrs. reflexivity. }
    rewrite (hbind_eq _ _ h1 hC s _ tt Hstep).
    rewrite (hbind_eq _ _ hC hC _ _ _ (getCategories_eq hC _ cloned _ HcrsC)).
    rewrite nth_error_length_app.
    rewrite (hbind_eq _ _ hC hD _ _ tt Hrun).
    rewrite (hbind_eq _ _ hD hD _ _ _ (getCategories_eq hD _ cloned _ HcrsD)).
    rewrite (hbind_eq _ _ hD _ _ _ tt (putCategories_eq hD _ cloned _ _ HcrsD)).
    rewrite setNth_length_app.
    rewrite (ensureDeliveryTasks_absent W N s Hi). cbn [fst snd].
    assert (KC : keeps (eq a) (eq cloned) h1 hC).
    { apply (keeps_trans _ _ h1 hB).
      - apply (keeps_weaken nowhere nowhere); auto; intros r [].
      - apply keeps_putCategories. }
    assert (K13 : keeps (eq a) (eq cloned) h1 hD).
    { apply (keeps_trans _ _ h1 hC); [exact KC|].
      apply (keeps_weaken (eq a) nowhere); auto. intros r []. }
    eexists. split; [reflexivity|]. split.
    + apply workflowAt_put; [apply nth_error_Some; congruence|].
      apply mapOption_app.
      * revert Hv. apply mapOption_stable. intros z cz Hz Hcz.
        apply (categoryAt_kept (eq a) (eq cloned) h1 hD); auto.
        intros r Hr. destruct (In_nth_error _ _ Hz) as [j Hj].
        destruct (tasksRefOf_nth h1 crs _ _ j z Hrefs Hj) as [Hz' Hlj].
        rewrite Hz' in Hr. injection Hr as <-. unfold a. lia.
      * cbn [mapOption]. now rewrite HcD.
    + apply (keeps_unchanged (eq a) (eq cloned) h h1); auto.
      * apply (keeps_trans _ _ h1 hD); [exact K13 | apply keeps_putCategories].
      * intros r <-. apply nth_error_None. unfold a. lia.
      * intros r <-. exact Hcl.
Qed.

Lemma ensureDeliveryTasks_appendOnly (W : Workflow) (N : list string) (s : UidSupply) :
  appendOnly W (fst (ensureDeliveryTasks W N s)).
Proof.
  destruct (ensureDeliveryTasks_shape W N s)
    as [(i & cat & added & Hi & Hn & _ & F & _ & E) | (added & Hi & _ & F & _ & E)];
    rewrite E; split.
  - intros j c Hj. destruct (Nat.eq_dec i j) as [<-|Hne].
    + exists added. rewrite Hn in Hj. injection Hj as <-.
      split; [|split; [exact F | intros _; exact Hi]].
      apply nth_error_setNth_same. apply nth_error_Some. congruence.
    + exists []. rewrite nth_error_setNth_other by exact Hne.
      rewrite app_nil_r. split; [|split; [constructor | congruence]].
      rewrite Hj. now destruct c.
  - left. apply length_setNth.
  - intros j c Hj. exists []. rewrite app_nil_r.
    split; [|split; [constructor | congruence]].
    rewrite (nth_error_app_Some W _ j c Hj). now destruct c.
  - right. exists (s 0), added. auto.
Qed.

Example ensureDeliveryTasks_example :
  fst (ensureDeliveryTasks exampleWorkflow ["Album A"; "Marco"] exampleUids) =
  [ mkCat "c1" "Edicion" [ mkTask "t1" "Editar fotos" true None None ];
    mkCat "c2" "Entrega" [ mkTask "t2" "Entregar Album A" false None None;
                           mkTask "u0" "Entregar Marco" false None None ] ].
Proof. reflexivity. Qed.

(* ------------------------------------------------------------------ *)
(** ** The objects that [ensureDeliveryTasks] makes share nothing with
       the objects it is given *)

Lemma separated_refl (h : Heap) : separated h h.
Proof.
  unfold separated, newTaskRef, newTasksRef, newCategoryRef, newCategoriesRef.
  repeat split; auto.
  - intros r a Hr Ha. apply nth_error_None in Hr. congruence.
  - intros r a Hr Ha. apply nth_error_None in Hr. congruence.
  - intros r a Hr Ha. apply nth_error_None in Hr. congruence.
Qed.

Lemma hbind_inv {A B} (m : OnHeap A) (k : A -> OnHeap B) (h : Heap) (s : UidSupply)
      (r : B * Heap * UidSupply) :
  hbind m k h s = Some r ->
  exists a h1 s1, m h s = Some (a, h1, s1) /\ k a h1 s1 = Some r.
Proof.
  unfold hbind. destruct (m h s) as [[[a h1] s1]|]; [|discriminate].
  intros H. eauto.
Qed.

Lemma nth_error_app_inv {A} (l : list A) (x y : A) (r : nat) :
  nth_error (l ++ [x]) r = Some y ->
  nth_error l r = Some y \/ (r = List.length l /\ y = x).
Proof.
  intros H. destruct (Nat.lt_ge_cases r (List.length l)) as [Hlt|Hge].
  - left. now rewrite nth_error_app1 in H.
  - right. rewrite nth_error_app2 in H by exact Hge.
    destruct (r - List.length l) as [|k] eqn:E; cbn in H.
    + injection H as <-. split; [lia | reflexivity].
    + destruct k; discriminate.
Qed.

Lemma nth_error_setNth_inv {A} (l : list A) (i r : nat) (x y : A) :
  nth_error (setNth i x l) r = Some y -> y = x \/ nth_error l r = Some y.
Proof.
  intros H. destruct (Nat.eq_dec i r) as [<-|Hne].
  - destruct (Nat.lt_ge_cases i (List.length l)) as [Hlt|Hge].
    + rewrite nth_error_setNth_same in H by exact Hlt. injection H as <-. now left.
    + assert (Hn : nth_error (setNth i x l) i = None)
        by (apply nth_error_None; now rewrite length_setNth).
      congruence.
  - right. now rewrite nth_error_setNth_other in H.
Qed.

Lemma Forall_setNth {A} (P : A -> Prop) (l : list A) (i : nat) (x : A) :
  Forall P l -> P x -> Forall P (setNth i x l).
Proof.
  intros Hl Px. revert i. induction Hl as [|y l Py Hl IH]; intros [|i]; cbn [setNth];
    constructor; auto.
Qed.

Section Separation.

(** The heap before the call, from which the objects made later are to
    stay separated. *)
Variable h0 : Heap.

Lemma staysSeparated_bind {A B} (m : OnHeap A) (k : A -> OnHeap B)
      (P : A -> Prop) (Q : B -> Prop) :
  staysSeparated h0 m P ->
  (forall a, P a -> staysSeparated h0 (k a) Q) ->
  staysSeparated h0 (hbind m k) Q.
Proof.
  intros Hm Hk h s b h' s' Hs Hrun.
  destruct (hbind_inv _ _ _ _ _ Hrun) as (a & h1 & s1 & Hr1 & Hr2).
  destruct (Hm h s a h1 s1 Hs Hr1) as [Hs1 Pa].
  exact (Hk a Pa h1 s1 b h' s' Hs1 Hr2).
Qed.

Lemma staysSeparated_ret {A} (a : A) (P : A -> Prop) :
  P a -> staysSeparated h0 (hret a) P.
Proof. intros Pa h s b h' s' Hs H. injection H as <- <- <-. auto. Qed.

Lemma staysSeparated_weaken {A} (m : OnHeap A) (P Q : A -> Prop) :
  (forall a, P a -> Q a) -> staysSeparated h0 m P -> staysSeparated h0 m Q.
Proof. intros HPQ Hm h s a h' s' Hs H. destruct (Hm h s a h' s' Hs H). auto. Qed.

Lemma staysSeparated_huid : staysSeparated h0 huid (fun _ => True).
Proof. intros h s a h' s' Hs H. injection H as <- <- <-. auto. Qed.

(** Reads. *)
Lemma staysSeparated_getTask (r : Ref) :
  staysSeparated h0 (getTask r) (fun _ => True).
Proof.
  intros h s a h' s' Hs H. unfold getTask in H.
  destruct (nth_error (taskObjects h) r); [|discriminate].
  injection H as <- <- <-. auto.
Qed.

Lemma staysSeparated_getTasks (r : Ref) :
  staysSeparated h0 (getTasks r) (fun a => newTasksRef h0 r -> Forall (newTaskRef h0) a).
Proof.
  intros h s a h' s' Hs H. unfold getTasks in H.
  destruct (nth_error (taskArrays h) r) as [x|] eqn:Hx; [|discriminate].
  injection H as <- <- <-. split; [exact Hs|].
  intros Hr. exact (proj1 Hs r x Hr Hx).
Qed.

Lemma staysSeparated_getCategory (r : Ref) :
  staysSeparated h0 (getCategory r)
                 (fun co => newCategoryRef h0 r -> newTasksRef h0 (co_tasks co)).
Proof.
  intros h s a h' s' Hs H. unfold getCategory in H.
  destruct (nth_error (categoryObjects h) r) as [x|] eqn:Hx; [|discriminate].
  injection H as <- <- <-. split; [exact Hs|].
  intros Hr. exact (proj1 (proj2 Hs) r x Hr Hx).
Qed.

Lemma staysSeparated_getCategories (r : Ref) :
  staysSeparated h0 (getCategories r)
                 (fun cs => newCategoriesRef h0 r -> Forall (newCategoryRef h0) cs).
Proof.
  intros h s a h' s' Hs H. unfold getCategories in H.
  destruct (nth_error (categoryArrays h) r) as [x|] eqn:Hx; [|discriminate].
  injection H as <- <- <-. split; [exact Hs|].
  intros Hr. exact (proj1 (proj2 (proj2 Hs)) r x Hr Hx).
Qed.

(** Allocations. *)
Lemma staysSeparated_newTask (t : WorkflowTask) :
  staysSeparated h0 (newTask t) (newTaskRef h0).
Proof.
  intros h s a h' s' Hs H. injection H as <- <- <-.
  destruct Hs as (S1 & S2 & S3 & L1 & L2 & L3 & L4).
  unfold separated, newTaskRef in *. cbn. rewrite length_app. cbn.
  repeat split; auto. lia.
Qed.

Lemma staysSeparated_newTasks (a : list Ref) :
  Forall (newTaskRef h0) a -> staysSeparated h0 (newTasks a) (newTasksRef h0).
Proof.
  intros Ha h s r h' s' Hs H. injection H as <- <- <-.
  destruct Hs as (S1 & S2 & S3 & L1 & L2 & L3 & L4).
  unfold separated, newTasksRef in *. cbn. rewrite length_app. cbn.
  repeat split; auto; [|lia].
  intros r x Hr Hx. destruct (nth_error_app_inv _ _ _ _ Hx) as [Hx'|[_ ->]]; eauto.
Qed.

Lemma staysSeparated_newCategory (co : CategoryObject) :
  newTasksRef h0 (co_tasks co) ->
  staysSeparated h0 (newCategory co) (newCategoryRef h0).
Proof.
  intros Ha h s r h' s' Hs H. injection H as <- <- <-.
  destruct Hs as (S1 & S2 & S3 & L1 & L2 & L3 & L4).
  unfold separated, newCategoryRef in *. cbn. rewrite length_app. cbn.
  repeat split; auto; [|lia].
  intros r x Hr Hx. destruct (nth_error_app_inv _ _ _ _ Hx) as [Hx'|[_ ->]]; eauto.
Qed.

Lemma staysSeparated_newCategories (cs : list Ref) :
  Forall (newCategoryRef h0) cs ->
  staysSeparated h0 (newCategories cs) (newCategoriesRef h0).
Proof.
  intros Ha h s r h' s' Hs H. injection H as <- <- <-.
  destruct Hs as (S1 & S2 & S3 & L1 & L2 & L3 & L4).
  unfold separated, newCategoriesRef in *. cbn. rewrite length_app. cbn.
  repeat split; auto; [|lia].
  intros r x Hr Hx. destruct (nth_error_app_inv _ _ _ _ Hx) as [Hx'|[_ ->]]; eauto.
Qed.

(** Writes. *)
Lemma staysSeparated_putTasks (r : Ref) (a : list Ref) :
  Forall (newTaskRef h0) a -> staysSeparated h0 (putTasks r a) (fun _ => True).
Proof.
  intros Ha h s u h' s' Hs H. unfold putTasks in H.
  destruct (nth_error (taskArrays h) r); [|discriminate]. injection H as <- <- <-.
  destruct Hs as (S1 & S2 & S3 & L1 & L2 & L3 & L4).
  unfold separated in *. cbn. rewrite length_setNth. repeat split; auto.
  intros r0 x Hr Hx. destruct (nth_error_setNth_inv _ _ _ _ _ Hx) as [->|Hx']; eauto.
Qed.

Lemma staysSeparated_putCategories (r : Ref) (cs : list Ref) :
  Forall (newCategoryRef h0) cs ->
  staysSeparated h0 (putCategories r cs) (fun _ => True).
Proof.
  intros Ha h s u h' s' Hs H. unfold putCategories in H.
  destruct (nth_error (categoryArrays h) r); [|discriminate]. injection H as <- <- <-.
  destruct Hs as (S1 & S2 & S3 & L1 & L2 & L3 & L4).
  unfold separated in *. cbn. rewrite length_setNth. repeat split; auto.
  intros r0 x Hr Hx. destruct (nth_error_setNth_inv _ _ _ _ _ Hx) as [->|Hx']; eauto.
Qed.

(** Loops. *)
Lemma staysSeparated_map {A B} (f : A -> OnHeap B) (P : B -> Prop)
      (l : list A) :
  (forall x, staysSeparated h0 (f x) P) ->
  staysSeparated h0 (mapOnHeap f l) (Forall P).
Proof.
  intros Hf. induction l as [|x l IH]; cbn [mapOnHeap].
  - apply staysSeparated_ret. constructor.
  - apply (staysSeparated_bind _ _ P); [apply Hf|]. intros y Py.
    apply (staysSeparated_bind _ _ (Forall P)); [exact IH|]. intros ys Pys.
    apply staysSeparated_ret. now constructor.
Qed.

Lemma staysSeparated_forEach {A} (f : A -> OnHeap unit) (l : list A) :
  (forall x, staysSeparated h0 (f x) (fun _ => True)) ->
  staysSeparated h0 (forEachOnHeap f l) (fun _ => True).
Proof.
  intros Hf. induction l as [|x l IH]; cbn [forEachOnHeap].
  - now apply staysSeparated_ret.
  - apply (staysSeparated_bind _ _ (fun _ => True)); [apply Hf|]. intros _ _. exact IH.
Qed.

Lemma staysSeparated_typeError {A} (P : A -> Prop) :
  staysSeparated h0 typeError P.
Proof. intros h s a h' s' _ H. discriminate. Qed.

Lemma staysSeparated_cloneTask (r : Ref) :
  staysSeparated h0 (cloneTaskObject r) (newTaskRef h0).
Proof.
  unfold cloneTaskObject.
  apply (staysSeparated_bind _ _ (fun _ => True)); [apply staysSeparated_getTask|].
  intros t _. apply staysSeparated_newTask.
Qed.

Lemma staysSeparated_cloneCategory (r : Ref) :
  staysSeparated h0 (cloneCategoryObject r) (newCategoryRef h0).
Proof.
  unfold cloneCategoryObject.
  eapply staysSeparated_bind; [apply staysSeparated_getCategory|]. intros c _.
  eapply staysSeparated_bind; [apply staysSeparated_getTasks|]. intros ts _.
  eapply staysSeparated_bind;
    [apply staysSeparated_map; apply staysSeparated_cloneTask|]. intros ts' Hts'.
  eapply staysSeparated_bind; [apply staysSeparated_newTasks; exact Hts'|]. intros a Ha.
  apply staysSeparated_newCategory. exact Ha.
Qed.

Lemma staysSeparated_jsonClone (base : Ref) :
  staysSeparated h0 (jsonCloneObject base) (newCategoriesRef h0).
Proof.
  unfold jsonCloneObject.
  eapply staysSeparated_bind; [apply staysSeparated_getCategories|]. intros cs _.
  eapply staysSeparated_bind;
    [apply staysSeparated_map; apply staysSeparated_cloneCategory|]. intros cs' Hcs'.
  apply staysSeparated_newCategories. exact Hcs'.
Qed.

Lemma staysSeparated_findDeliveryIndex (cs : list Ref) :
  staysSeparated h0 (findDeliveryIndex cs) (fun _ => True).
Proof.
  induction cs as [|r cs IH]; cbn [findDeliveryIndex].
  - now apply staysSeparated_ret.
  - eapply staysSeparated_bind; [apply staysSeparated_getCategory|]. intros c _.
    destruct (JS.includes (normalize (co_name c)) "entrega").
    + now apply staysSeparated_ret.
    + eapply staysSeparated_bind; [exact IH|]. intros i _. now apply staysSeparated_ret.
Qed.

Lemma staysSeparated_someTitle (title : string) (ts : list Ref) :
  staysSeparated h0 (someTitle title ts) (fun _ => True).
Proof.
  induction ts as [|r ts IH]; cbn [someTitle].
  - now apply staysSeparated_ret.
  - eapply staysSeparated_bind; [apply staysSeparated_getTask|]. intros t _.
    destruct (normalize (wt_title t) =? normalize title); [|exact IH].
    now apply staysSeparated_ret.
Qed.

Lemma staysSeparated_pushDeliveryTask (cat : Ref) (n : string) :
  newCategoryRef h0 cat ->
  staysSeparated h0 (pushDeliveryTask cat n) (fun _ => True).
Proof.
  intros Hcat. unfold pushDeliveryTask.
  eapply staysSeparated_bind; [apply staysSeparated_getCategory|]. intros c Hc.
  specialize (Hc Hcat).
  eapply staysSeparated_bind; [apply staysSeparated_getTasks|]. intros ts _.
  eapply staysSeparated_bind; [apply staysSeparated_someTitle|]. intros found _.
  destruct found; [now apply staysSeparated_ret|].
  eapply staysSeparated_bind; [apply staysSeparated_huid|]. intros id _.
  eapply staysSeparated_bind; [apply staysSeparated_newTask|]. intros t Ht.
  eapply staysSeparated_bind; [apply staysSeparated_getTasks|]. intros ts' Hts'.
  apply staysSeparated_putTasks. apply Forall_app. split; [now apply Hts'|].
  constructor; [exact Ht | constructor].
Qed.

(** Whatever workflow object it is given, a run of [ensureDeliveryTasks]
    that returns leaves the objects it made separated from the objects
    that were there, and returns one of the arrays it made. *)
Lemma staysSeparated_ensureDeliveryTasks (base : Ref) (N : list string) :
  staysSeparated h0 (ensureDeliveryTasksObject base N) (newCategoriesRef h0).
Proof.
  unfold ensureDeliveryTasksObject.
  eapply staysSeparated_bind; [apply staysSeparated_jsonClone|]. intros cloned Hcl.
  eapply staysSeparated_bind; [apply staysSeparated_getCategories|]. intros cs _.
  eapply staysSeparated_bind; [apply staysSeparated_findDeliveryIndex|]. intros findIdx _.
  apply (staysSeparated_bind _ _ (fun _ => True)).
  { destruct findIdx; [now apply staysSeparated_ret|].
    eapply staysSeparated_bind; [apply staysSeparated_huid|]. intros id _.
    eapply staysSeparated_bind; [apply staysSeparated_newTasks; constructor|]. intros a Ha.
    eapply staysSeparated_bind; [apply staysSeparated_newCategory; exact Ha|]. intros c Hc.
    eapply staysSeparated_bind; [apply staysSeparated_getCategories|]. intros cs0 Hcs0.
    apply staysSeparated_putCategories. apply Forall_app. split; [now apply Hcs0|].
    constructor; [exact Hc | constructor]. }
  intros _ _.
  eapply staysSeparated_bind; [apply staysSeparated_getCategories|]. intros cs1 Hcs1.
  specialize (Hcs1 Hcl).
  destruct (nth_error cs1 _) as [cat|] eqn:Hcat; [|apply staysSeparated_typeError].
  assert (Hnew : newCategoryRef h0 cat).
  { apply nth_error_In in Hcat. now apply (proj1 (Forall_forall _ _) Hcs1). }
  eapply staysSeparated_bind.
  { apply staysSeparated_forEach. intros n. now apply staysSeparated_pushDeliveryTask. }
  intros _ _.
  eapply staysSeparated_bind; [apply staysSeparated_getCategories|]. intros cs2 Hcs2.
  eapply staysSeparated_bind.
  { apply staysSeparated_putCategories. apply Forall_setNth; auto. }
  intros _ _. now apply staysSeparated_ret.
Qed.

End Separation.

(** C9. [ensureDeliveryTasks] run on the workflow object [base], which
    stands for the value [W], returns a new array, which stands for the
    value of [ensureDeliveryTasks W N]; that value is append-only with
    respect to [W]: every category of [W] is at its position with its id
    and name, every task of [W] keeps its id, title, done flag, due and
    note and its position in its category, new tasks (not done) are only
    appended to the task list of the first delivery category, and the only
    category added is a delivery category at the end, when [W] has none.
    Every object that existed before the call - the input array, its
    categories, their task arrays and tasks among them - is unchanged, and
    the input still stands for [W]; the objects made by the call refer to
    none of the objects that existed before it (the result is a deep
    copy). *)
Theorem ensureDeliveryTasks_append_only
        (h : Heap) (s : UidSupply) (base : Ref) (W : Workflow) (N : list string) :
  workflowAt h base = Some W ->
  exists result h',
    ensureDeliveryTasksObject base N h s =
      Some (result, h', snd (ensureDeliveryTasks W N s)) /\
    workflowAt h' result = Some (fst (ensureDeliveryTasks W N s)) /\
    appendOnly W (fst (ensureDeliveryTasks W N s)) /\
    unchanged h h' /\
    workflowAt h' base = Some W /\
    newCategoriesRef h result /\
    separated h h'.
Proof.
  intros HW.
  destruct (ensureDeliveryTasksObject_spec h s base W N HW) as (h' & Hrun & Hv & K).
  destruct (staysSeparated_ensureDeliveryTasks h base N h s _ h' _ (separated_refl h) Hrun)
    as [Hsep Hnew].
  exists (List.length (categoryArrays h)), h'.
  split; [exact Hrun|]. split; [exact Hv|].
  split; [apply ensureDeliveryTasks_appendOnly|].
  split; [exact K|].
  split; [now apply (workflowAt_unchanged h h')|].
  split; [exact Hnew | exact Hsep].
Qed.

Lemma ensureDeliveryTasks_append_only_witness :
  exists result h',
    ensureDeliveryTasksObject 0 ["Album A"; "Marco"] exampleHeap exampleUids =
      Some (result, h',
            snd (ensureDeliveryTasks exampleWorkflow ["Album A"; "Marco"] exampleUids)) /\
    workflowAt h' result =
      Some (fst (ensureDeliveryTasks exampleWorkflow ["Album A"; "Marco"] exampleUids)) /\
    appendOnly exampleWorkflow
      (fst (ensureDeliveryTasks exampleWorkflow ["Album A"; "Marco"] exampleUids)) /\
    unchanged exampleHeap h' /\
    workflowAt h' 0 = Some exampleWorkflow /\
    newCategoriesRef exampleHeap result /\
    separated exampleHeap h'.
Proof.
  apply (ensureDeliveryTasks_append_only exampleHeap exampleUids 0 exampleWorkflow
           ["Album A"; "Marco"]).
  reflexivity.
Defined.

(* ================================================================== *)
(** * The rest of the component: properties *)

(* ------------------------------------------------------------------ *)
(** ** [normalize] *)

Lemma plainChar_normalized (c : ascii) :
  JS.isDiacritic c = false -> plainChar (JS.lowerChar (JS.baseLetter c)) = true.
Proof. each_char c. Qed.

Lemma plainChar_spec (c : ascii) :
  plainChar c = true ->
  JS.isDiacritic c = false /\ JS.baseLetter c = c /\ JS.lowerChar c = c.
Proof.
  unfold plainChar. intros H.
  apply andb_prop in H as [H Hl]. apply andb_prop in H as [Hd Hb].
  apply Ascii.eqb_eq in Hl, Hb. apply negb_true_iff in Hd. auto.
Qed.

Lemma allChars_normalized (s : string) :
  allChars plainChar (JS.toLowerCase (JS.stripDiacritics s)) = true.
Proof.
  induction s as [|c s IH]; [reflexivity|].
  cbn [JS.stripDiacritics]. destruct (JS.isDiacritic c) eqn:Hd; [exact IH|].
  cbn [JS.toLowerCase JS.mapChars allChars].
  rewrite (plainChar_normalized c Hd). exact IH.
Qed.

Lemma allChars_trimStart (p : ascii -> bool) (s : string) :
  allChars p s = true -> allChars p (JS.trimStart s) = true.
Proof.
  induction s as [|c s IH]; [auto|]. intros H. cbn [JS.trimStart].
  destruct (JS.isWhiteSpace c); [|exact H].
  apply IH. cbn [allChars] in H. now apply andb_prop in H.
Qed.

Lemma allChars_trimEnd (p : ascii -> bool) (s : string) :
  allChars p s = true -> allChars p (JS.trimEnd s) = true.
Proof.
  induction s as [|c s IH]; [auto|]. intros H. cbn [allChars] in H.
  apply andb_prop in H as [Hc Hs]. specialize (IH Hs). cbn [JS.trimEnd].
  destruct (JS.trimEnd s) as [|d r].
  - destruct (JS.isWhiteSpace c); [reflexivity|]. cbn [allChars]. now rewrite Hc.
  - cbn [allChars] in *. now rewrite Hc.
Qed.

Lemma plain_fixed (s : string) :
  allChars plainChar s = true ->
  JS.stripDiacritics s = s /\ JS.toLowerCase s = s.
Proof.
  induction s as [|c s IH]; [auto|]. intros H. cbn [allChars] in H.
  apply andb_prop in H as [Hc Hs]. destruct (IH Hs) as [IH1 IH2].
  destruct (plainChar_spec c Hc) as (Hd & Hb & Hl).
  cbn [JS.stripDiacritics JS.toLowerCase JS.mapChars]. rewrite Hd, Hb, Hl.
  unfold JS.toLowerCase in IH2. now rewrite IH1, IH2.
Qed.

Lemma trimEnd_twice (s : string) : JS.trimEnd (JS.trimEnd s) = JS.trimEnd s.
Proof.
  induction s as [|c s IH]; [reflexivity|]. cbn [JS.trimEnd].
  destruct (JS.trimEnd s) as [|d r] eqn:E.
  - destruct (JS.isWhiteSpace c) eqn:W; [reflexivity|].
    cbn [JS.trimEnd]. now rewrite W.
  - change (JS.trimEnd (String c (String d r)))
      with (match JS.trimEnd (String d r) with
            | EmptyString => if JS.isWhiteSpace c then EmptyString else String c EmptyString
            | String a b => String c (String a b)
            end).
    rewrite IH. reflexivity.
Qed.

Lemma trimStart_noLeadingSpace (s : string) : noLeadingSpace (JS.trimStart s).
Proof.
  induction s as [|c s IH]; [exact I|]. cbn [JS.trimStart].
  destruct (JS.isWhiteSpace c) eqn:W; [exact IH | exact W].
Qed.

Lemma trimStart_fixed (s : string) : noLeadingSpace s -> JS.trimStart s = s.
Proof. destruct s as [|c s]; [reflexivity|]. cbn. now intros ->. Qed.

Lemma trimEnd_noLeadingSpace (s : string) :
  noLeadingSpace s -> noLeadingSpace (JS.trimEnd s).
Proof.
  destruct s as [|c s]; [auto|]. cbn [noLeadingSpace JS.trimEnd]. intros W.
  destruct (JS.trimEnd s); [rewrite W|]; exact W.
Qed.

Lemma trim_twice (s : string) : JS.trim (JS.trim s) = JS.trim s.
Proof.
  unfold JS.trim.
  rewrite (trimStart_fixed (JS.trimEnd (JS.trimStart s))).
  - apply trimEnd_twice.
  - apply trimEnd_noLeadingSpace, trimStart_noLeadingSpace.
Qed.

(** X1. [normalize] is idempotent: a normalised name is its own
    normalisation, so a key computed by [normalize] can be normalised
    again (as [norm] does with the names of display rows) without
    changing. *)
Theorem normalize_idempotent (s : string) : normalize (normalize s) = normalize s.
Proof.
  unfold normalize.
  set (x := JS.toLowerCase (JS.stripDiacritics s)).
  assert (Hx : allChars plainChar (JS.trim x) = true).
  { unfold JS.trim. apply allChars_trimEnd, allChars_trimStart.
    apply allChars_normalized. }
  destruct (plain_fixed _ Hx) as [H1 H2]. rewrite H1, H2. apply trim_twice.
Qed.

Lemma lowerChar_diacritic (c : ascii) :
  JS.isDiacritic (JS.lowerChar c) = JS.isDiacritic c.
Proof. each_char c. Qed.

Lemma lowerChar_baseLetter (c : ascii) :
  JS.lowerChar (JS.baseLetter (JS.lowerChar c)) = JS.lowerChar (JS.baseLetter c).
Proof. each_char c. Qed.

Lemma baseLetter_plain (c : ascii) :
  JS.isDiacritic c = false ->
  JS.isDiacritic (JS.baseLetter c) = false /\
  JS.baseLetter (JS.baseLetter c) = JS.baseLetter c.
Proof. each_char c; split; reflexivity. Qed.

Lemma stripDiacritics_twice (s : string) :
  JS.stripDiacritics (JS.stripDiacritics s) = JS.stripDiacritics s.
Proof.
  induction s as [|c s IH]; [reflexivity|]. cbn [JS.stripDiacritics].
  destruct (JS.isDiacritic c) eqn:Hd; [exact IH|].
  destruct (baseLetter_plain c Hd) as [H1 H2].
  cbn [JS.stripDiacritics]. now rewrite H1, H2, IH.
Qed.

Lemma stripDiacritics_toLowerCase (s : string) :
  JS.toLowerCase (JS.stripDiacritics (JS.toLowerCase s)) =
  JS.toLowerCase (JS.stripDiacritics s).
Proof.
  induction s as [|c s IH]; [reflexivity|].
  cbn [JS.toLowerCase JS.mapChars JS.stripDiacritics].
  rewrite lowerChar_diacritic. destruct (JS.isDiacritic c); [exact IH|].
  cbn [JS.toLowerCase JS.mapChars]. rewrite lowerChar_baseLetter.
  f_equal. exact IH.
Qed.

(** X2. [normalize] ignores letter case and accents: a name written in
    lower case, and a name written without its accents, normalise as the
    name itself. *)
Theorem normalize_insensitive (s : string) :
  normalize (JS.toLowerCase s) = normalize s /\
  normalize (JS.stripDiacritics s) = normalize s.
Proof.
  unfold normalize. split.
  - now rewrite stripDiacritics_toLowerCase.
  - now rewrite stripDiacritics_twice.
Qed.

(* ------------------------------------------------------------------ *)
(** ** Objects used as maps *)

Lemma lookup_store_same {A} (k : string) (v : A) (m : list (string * A)) :
  lookup k (store k v m) = Some v.
Proof.
  induction m as [|[k0 v0] m IH]; cbn [store lookup].
  - now rewrite String.eqb_refl.
  - destruct (k0 =? k) eqn:E; cbn [lookup]; now rewrite E.
Qed.

Lemma lookup_store_other {A} (k k' : string) (v : A) (m : list (string * A)) :
  k <> k' -> lookup k' (store k v m) = lookup k' m.
Proof.
  intros Hne. induction m as [|[k0 v0] m IH]; cbn [store lookup].
  - destruct (k =? k') eqn:E; [apply String.eqb_eq in E; contradiction | reflexivity].
  - destruct (k0 =? k) eqn:E; cbn [lookup].
    + apply String.eqb_eq in E. subst k0.
      destruct (k =? k') eqn:E'; [apply String.eqb_eq in E'; contradiction | reflexivity].
    + destruct (k0 =? k'); [reflexivity | exact IH].
Qed.

Lemma lookup_In {A} (k : string) (v : A) (m : list (string * A)) :
  lookup k m = Some v -> In (k, v) m.
Proof.
  induction m as [|[k0 v0] m IH]; cbn [lookup]; [discriminate|].
  destruct (k0 =? k) eqn:E.
  - apply String.eqb_eq in E. intros [= ->]. subst. now left.
  - intros H. right. now apply IH.
Qed.

Lemma Forall_store {A} (P : string * A -> Prop) (k : string) (v : A)
      (m : list (string * A)) :
  Forall P m -> P (k, v) -> Forall P (store k v m).
Proof.
  intros Hm Hp. induction Hm as [|[k0 v0] m H0 Hm IH]; cbn [store].
  - now constructor.
  - destruct (k0 =? k) eqn:E.
    + apply String.eqb_eq in E. subst k0. now constructor.
    + now constructor.
Qed.

(* ------------------------------------------------------------------ *)
(** ** Product images: [resolveImageForItem] and the product lookups *)

Lemma productMaps_byName (docs : list Product) :
  Forall (fun kv => In (snd kv) docs /\ productNameKey (snd kv) = fst kv)
         (snd (productMaps docs)).
Proof.
  unfold productMaps.
  set (Q := fun kv : string * Product => In (snd kv) docs /\ productNameKey (snd kv) = fst kv).
  assert (G : forall l acc, incl l docs -> Forall Q (snd acc) ->
            Forall Q (snd (fold_left
              (fun acc pdoc =>
                 let nameKey := emailKey (JS.orStr (p_name pdoc) "") in
                 (store (p_id pdoc) pdoc (fst acc),
                  match nameKey with
                  | EmptyString => snd acc
                  | _ => store nameKey pdoc (snd acc)
                  end)) l acc))).
  { induction l as [|p l IH]; intros acc Hl Hacc; [exact Hacc|].
    cbn [fold_left]. apply IH.
    - intros x Hx. apply Hl. now right.
    - cbn [snd]. destruct (emailKey (JS.orStr (p_name p) "")) as [|a k] eqn:E; [exact Hacc|].
      apply Forall_store; [exact Hacc|].
      split; [apply Hl; now left | exact E]. }
  apply G; [apply incl_refl | constructor].
Qed.

Lemma normalize_plain (s : string) : allChars plainChar (normalize s) = true.
Proof.
  unfold normalize, JS.trim. apply allChars_trimEnd, allChars_trimStart.
  apply allChars_normalized.
Qed.

(** X3. An item without an image and without a product id gets its
    image by name only from a product whose key in [productsByName] (its
    name in lower case, trimmed) is the normalised name of the item; such a
    key holds no accented letter, so a product whose name has one is never
    found by name. *)
Theorem resolveImageForItem_by_name (docs : list Product) (st : State)
        (it : OrderLineItem) (u : string) :
  productsByName st = snd (productMaps docs) ->
  truthy (li_image_url it) = None ->
  truthy (li_productId it) = None -> truthy (li_product_id it) = None ->
  resolveImageForItem st it = Some u ->
  exists p, In p docs /\ truthy (p_image_url p) = Some u /\
            productNameKey p = normalizeStr (li_name it) /\
            JS.stripDiacritics (productNameKey p) = productNameKey p.
Proof.
  intros Hst Himg Hpid Hpid' Hres. unfold resolveImageForItem in Hres.
  rewrite Himg in Hres.
  assert (Hno : truthy (JS.orOpt (JS.orOpt (li_productId it) (li_product_id it))
                                 (li_productId it)) = None).
  { destruct (li_productId it) as [[|a x]|], (li_product_id it) as [[|b y]|];
      try discriminate; reflexivity. }
  rewrite Hno in Hres.
  destruct (normalizeStr (li_name it)) as [|a key] eqn:Ek; [discriminate|].
  rewrite Hst in Hres.
  destruct (lookup (String a key) (snd (productMaps docs))) as [p|] eqn:El; [|discriminate].
  apply lookup_In in El.
  pose proof (productMaps_byName docs) as F. rewrite Forall_forall in F.
  destruct (F _ El) as [Hin Hkey]. cbn [fst snd] in Hin, Hkey.
  exists p. split; [exact Hin|]. split; [exact Hres|]. split; [exact Hkey|].
  rewrite Hkey, <- Ek. unfold normalizeStr. apply plain_fixed, normalize_plain.
Qed.

Lemma resolveImageForItem_by_name_witness :
  exists p, In p [mkProduct "p1" (Some "Album") (Some "a.png")] /\
            truthy (p_image_url p) = Some "a.png" /\
            productNameKey p =
              normalizeStr (li_name (orderLine (String (ascii_of_nat 193) "LBUM") 1 50)) /\
            JS.stripDiacritics (productNameKey p) = productNameKey p.
Proof.
  apply (resolveImageForItem_by_name
           [mkProduct "p1" (Some "Album") (Some "a.png")]
           (stateWithProducts [mkProduct "p1" (Some "Album") (Some "a.png")])
           (orderLine (String (ascii_of_nat 193) "LBUM") 1 50) "a.png");
    reflexivity.
Defined.

(** The product "Álbum" (Á = U+00C1) is stored under the key "álbum" and
    looked up under "album": the item of that very name gets no image. *)
Example resolveImageForItem_accent :
  resolveImageForItem
    (stateWithProducts [mkProduct "p1" (Some (String (ascii_of_nat 193) "lbum"))
                                  (Some "a.png")])
    (orderLine (String (ascii_of_nat 193) "lbum") 1 50) = None.
Proof. reflexivity. Qed.

(* ------------------------------------------------------------------ *)
(** ** The status badges against the list shown *)

Lemma bySearch_blank (search : string) (o : OrderItem) :
  JS.trim search = "" -> bySearch search o = true.
Proof. intros H. unfold bySearch. now rewrite H. Qed.

Lemma byStatus_hasStatus (s : OrderStatus) (o : OrderItem) :
  byStatus (only s) o = hasStatus (statusString s) o.
Proof. reflexivity. Qed.

(** X4. With a blank search, the number on a status button is the number
    of rows shown once the button is pressed. *)
Theorem badgeCount_filtered (orders : list OrderItem) (s : StatusFilter)
        (search : string) :
  JS.trim search = "" ->
  List.length (filtered orders s search) = badgeCount s (counts orders).
Proof.
  intros Hs. unfold filtered.
  assert (E : filter (fun o => byStatus s o && bySearch search o) orders =
              filter (byStatus s) orders).
  { apply filter_ext. intros o. rewrite (bySearch_blank search o Hs).
    apply andb_true_r. }
  rewrite E. destruct s as [|[]]; cbn [badgeCount counts n_todas n_pendiente
                                       n_procesando n_completado].
  - f_equal. clear E. induction orders as [|o l IH]; [reflexivity|].
    cbn [filter byStatus]. now rewrite IH.
  - reflexivity.
  - reflexivity.
  - reflexivity.
Qed.

Lemma badgeCount_filtered_witness :
  List.length (filtered [orderInProcess; orderLinked] (only procesando) "  ") =
  badgeCount (only procesando) (counts [orderInProcess; orderLinked]).
Proof.
  apply (badgeCount_filtered [orderInProcess; orderLinked] (only procesando) "  ").
  reflexivity.
Defined.

Lemma status_exclusive (o : OrderItem) :
  (if hasStatus "pendiente" o then 1 else 0) +
  (if hasStatus "procesando" o then 1 else 0) +
  (if hasStatus "completado" o then 1 else 0) +
  (if otherStatus o then 1 else 0) = 1.
Proof.
  unfold otherStatus, hasStatus. destruct (o_status o) as [x|]; [|reflexivity].
  destruct (x =? "pendiente") eqn:E1.
  { apply String.eqb_eq in E1. subst x. reflexivity. }
  destruct (x =? "procesando") eqn:E2.
  { apply String.eqb_eq in E2. subst x. reflexivity. }
  destruct (x =? "completado"); reflexivity.
Qed.

Lemma length_filter_cons {A} (p : A -> bool) (x : A) (l : list A) :
  List.length (filter p (x :: l)) = (if p x then 1 else 0) + List.length (filter p l).
Proof. cbn [filter]. now destruct (p x). Qed.

(** X5. The three status counts and the orders of any other status (or
    of none) add up to the count of 'todas': an order is counted under at
    most one status, and one whose status is none of the three is counted
    under 'todas' only. *)
Theorem counts_partition (orders : list OrderItem) :
  n_todas (counts orders) =
  n_pendiente (counts orders) + n_procesando (counts orders) +
  n_completado (counts orders) + List.length (filter otherStatus orders).
Proof.
  cbn [counts n_todas n_pendiente n_procesando n_completado].
  induction orders as [|o l IH]; [reflexivity|].
  rewrite !length_filter_cons. cbn [List.length].
  pose proof (status_exclusive o). lia.
Qed.

(* ------------------------------------------------------------------ *)
(** ** The rows of the display *)

Lemma find_In {A} (p : A -> bool) (l : list A) (x : A) :
  JS.find p l = Some x -> In x l /\ p x = true.
Proof. unfold JS.find. apply find_some. Qed.





(* ------------------------------------------------------------------ *)
(** ** The contract of an order, once the lookups are loaded *)

Lemma contractLookups_fold (docs : list Contract) :
  contractLookups docs =
  fold_left addContract docs {| contractsMap := []; contractsByEmail := [] |}.
Proof. reflexivity. Qed.

Lemma addContracts_keep_id (k : string) (l : list Contract) :
  forall lk, (forall x, In x l -> c_id x <> k) ->
  lookup k (contractsMap (fold_left addContract l lk)) = lookup k (contractsMap lk).
Proof.
  induction l as [|d l IH]; intros lk H; [reflexivity|].
  cbn [fold_left]. rewrite IH by (intros x Hx; apply H; now right).
  cbn [addContract contractsMap]. apply lookup_store_other. apply H. now left.
Qed.


(** X7. Once the contracts are loaded, an order with a [contractId] is
    shown against the contract of that id, whatever its customer's
    e-mail. *)
Theorem resolveContract_by_id (l1 l2 : list Contract) (d : Contract) (o : OrderItem) :
  o_contractId o = Some (c_id d) -> c_id d <> "" ->
  (forall x, In x l2 -> c_id x <> c_id d) ->
  resolveContract (contractLookups (l1 ++ d :: l2)) o = Some d.
Proof.
  intros Ho Hne Hl2. unfold resolveContract. rewrite Ho.
  destruct (c_id d) as [|a cid] eqn:E; [contradiction|].
  rewrite contractLookups_fold, fold_left_app. cbn [fold_left].
  rewrite addContracts_keep_id by exact Hl2.
  cbn [addContract contractsMap]. rewrite E, lookup_store_same. reflexivity.
Qed.

Lemma resolveContract_by_id_witness :
  resolveContract
    (contractLookups ([contractOfClient "c0" "ana@example.com" []] ++
                      contractAlbum :: [contractC]))
    orderAlbum = Some contractAlbum.
Proof.
  apply (resolveContract_by_id [contractOfClient "c0" "ana@example.com" []]
                               [contractC] contractAlbum orderAlbum).
  - reflexivity.
  - discriminate.
  - intros x [<-|[]]. discriminate.
Defined.



(* ------------------------------------------------------------------ *)
(** ** What the loader writes *)

Lemma createdFor_incl (env : Env) (items : list OrderItem) (cs cs' : list Contract)
      (o : OrderItem) :
  incl cs cs' -> createdFor env items cs o -> createdFor env items cs' o.
Proof. intros Hi (c & id & Hc & H). exists c, id. split; auto. Qed.

Lemma ensureOrder_created (env : Env) (st : State) (items : list OrderItem)
      (db : Db) (gen : list OrderItem) (c : Contract) :
  exists created,
    db_orders (fst (ensureOrder env st items (db, gen) c)) = db_orders db ++ created /\
    Forall (createdFor env items [c]) created.
Proof.
  unfold ensureOrder.
  assert (Hsame : exists created, db_orders db = db_orders db ++ created /\
                                  Forall (createdFor env items [c]) created).
  { exists []. now rewrite app_nil_r. }
  destruct (JS.nullish (c_storeItems c) []) as [|si sis] eqn:Es; [exact Hsame|].
  destruct (existsb _ items) eqn:Ex; [exact Hsame|].
  destruct (match getOrdersWhereContractId env db (c_id c) with
            | Some docs => docs
            | None => []
            end); [|exact Hsame].
  destruct (addDoc env (orderData env c) db) as [[id db']|] eqn:Ha; [|exact Hsame].
  apply addDoc_spec in Ha. destruct Ha as [_ ->]. cbn [fst setOrders db_orders].
  eexists [ _ ]. split; [reflexivity|].
  constructor; [|constructor]. exists c, id.
  split; [now left|]. split; [rewrite Es; discriminate|]. split; [exact Ex | reflexivity].
Qed.

Lemma ensureOrders_created (env : Env) (st : State) (items : list OrderItem)
      (cs : list Contract) :
  forall (db : Db) (gen : list OrderItem),
  exists created,
    db_orders (fst (fold_left (ensureOrder env st items) cs (db, gen))) =
    db_orders db ++ created /\
    Forall (createdFor env items cs) created.
Proof.
  induction cs as [|c cs IH]; intros db gen; cbn [fold_left].
  - exists []. now rewrite app_nil_r.
  - destruct (ensureOrder_created env st items db gen c) as (cr1 & Ho & F1).
    destruct (ensureOrder env st items (db, gen) c) as [db1 gen1]. cbn [fst] in *.
    destruct (IH db1 gen1) as (cr2 & Ho' & F2).
    exists (cr1 ++ cr2). rewrite Ho', Ho, app_assoc. split; [reflexivity|].
    apply Forall_app. split.
    + eapply Forall_impl; [|exact F1]. intros o. apply createdFor_incl.
      intros x [<-|[]]. now left.
    + eapply Forall_impl; [|exact F2]. intros o. apply createdFor_incl.
      intros x Hx. now right.
Qed.

(** X9. The loader writes nothing but new order documents: the contracts,
    the products and the order documents there are stay as they are; every
    document it adds is written from a contract that the contracts query
    answered, that has store items and to which no loaded order refers;
    off line, or when the contracts query is rejected, it adds none.  The
    open order, the staged workflow and the contract lookups are not
    touched. *)
Theorem fetchOrders_only_appends (env : Env) (st : State) (db : Db) :
  db_contracts (snd (fetchOrders env st db)) = db_contracts db /\
  db_products (snd (fetchOrders env st db)) = db_products db /\
  (exists created,
     db_orders (snd (fetchOrders env st db)) = db_orders db ++ created /\
     Forall (createdFor env (loadItems env db)
                        (JS.nullish (getContractsByCreatedAt env db) [])) created /\
     (onLine env = false \/ getContractsByCreatedAt env db = None -> created = [])) /\
  viewing (fst (fetchOrders env st db)) = viewing st /\
  workflow (fst (fetchOrders env st db)) = workflow st /\
  lookups (fst (fetchOrders env st db)) = lookups st.
Proof.
  destruct (fetchOrders_appends env st db) as (Hc & Hp & _).
  destruct (fetchOrders_staged env st db) as (Hv & Hw & Hl).
  split; [exact Hc|]. split; [exact Hp|]. split; [|auto].
  assert (Hsame : exists created, db_orders db = db_orders db ++ created /\
            Forall (createdFor env (loadItems env db)
                      (JS.nullish (getContractsByCreatedAt env db) [])) created /\
            (onLine env = false \/ getContractsByCreatedAt env db = None -> created = [])).
  { exists []. rewrite app_nil_r. auto. }
  unfold fetchOrders. destruct (onLine env) eqn:On; cbn [negb]; [|exact Hsame].
  destruct (match getProducts env db with Some docs => productMaps docs | None => ([], []) end)
    as [byId byName].
  destruct (getContractsByCreatedAt env db) as [cs|] eqn:Ec; [|exact Hsame].
  cbn [JS.nullish].
  destruct (ensureOrders_created env st (loadItems env db) cs db []) as (created & Ho & F).
  destruct (fold_left (ensureOrder env st (loadItems env db)) cs (db, [])) as [db' gen].
  cbn [fst snd] in *. exists created. split; [exact Ho|]. split; [exact F|].
  intros [H|H]; discriminate.
Qed.

Lemma aggregateItems_spec (st : State) (its : list OrderLineItem) :
  forall acc,
    totalAmt (fold_left (aggregateItem st) its acc) =
      (totalAmt acc + sumZ (map aggregatedTotal its))%Z /\
    map li_total (aggItems (fold_left (aggregateItem st) its acc)) =
      map li_total (aggItems acc) ++ map (fun it => Some (aggregatedTotal it)) its.
Proof.
  induction its as [|it its IH]; intros acc; cbn [fold_left map sumZ fold_right].
  - rewrite Z.add_0_r, app_nil_r. auto.
  - destruct (IH (aggregateItem st acc it)) as [H1 H2]. rewrite H1, H2.
    cbn [aggregateItem totalAmt aggItems]. rewrite map_app. cbn [map li_total].
    rewrite <- app_assoc. cbn [app].
    unfold aggregatedTotal. change (fold_right Z.add 0%Z) with sumZ.
    split; [|reflexivity].
    destruct (li_total it); lia.
Qed.

Lemma aggregateOrders_spec (st : State) (os : list OrderItem) :
  forall acc,
    totalAmt (fold_left (aggregateOrder st) os acc) =
      (totalAmt acc + sumZ (map aggregatedTotal (itemsOf os)))%Z /\
    map li_total (aggItems (fold_left (aggregateOrder st) os acc)) =
      map li_total (aggItems acc) ++
      map (fun it => Some (aggregatedTotal it)) (itemsOf os).
Proof.
  induction os as [|eo os IH]; intros acc; cbn [fold_left itemsOf flat_map map sumZ fold_right].
  - rewrite Z.add_0_r, app_nil_r. auto.
  - destruct (IH (aggregateOrder st acc eo)) as [H1 H2]. rewrite H1, H2.
    assert (E1 : totalAmt (aggregateOrder st acc eo) =
                 totalAmt (fold_left (aggregateItem st) (JS.nullish (o_items eo) []) acc))
      by reflexivity.
    assert (E2 : aggItems (aggregateOrder st acc eo) =
                 aggItems (fold_left (aggregateItem st) (JS.nullish (o_items eo) []) acc))
      by reflexivity.
    rewrite E1, E2.
    destruct (aggregateItems_spec st (JS.nullish (o_items eo) []) acc) as [H3 H4].
    rewrite H3, H4. fold (itemsOf os). rewrite !map_app.
    assert (Hs : forall a b, sumZ (a ++ b) = (sumZ a + sumZ b)%Z).
    { induction a as [|x a IHa]; intros b; cbn [app sumZ fold_right]; [reflexivity|].
      change (fold_right Z.add 0%Z) with sumZ. rewrite IHa. lia. }
    rewrite Hs, <- app_assoc. split; [lia | reflexivity].
Qed.

(** X10. For a contract with store items to which no loaded order
    refers, but of which the [contractId] query finds orders, the loader
    writes nothing and shows one order: it carries the id of the first of
    these orders, the workflow of the contract, the items of all of them,
    and as its total the sum of their totals (an item without a stored
    total counting for its price times its quantity). *)
Theorem ensureOrder_aggregates (env : Env) (st : State) (items : list OrderItem)
        (db : Db) (gen : list OrderItem) (c : Contract)
        (first : OrderItem) (rest : list OrderItem) :
  JS.nullish (c_storeItems c) [] <> [] ->
  existsb (fun it => contractRef it =? c_id c) items = false ->
  getOrdersWhereContractId env db (c_id c) = Some (first :: rest) ->
  exists view,
    ensureOrder env st items (db, gen) c = (db, gen ++ [view]) /\
    o_id view = o_id first /\ o_contractId view = Some (c_id c) /\
    o_workflow view = c_workflow c /\
    o_total view = Some (sumZ (map aggregatedTotal (itemsOf (first :: rest)))) /\
    option_map (map li_total) (o_items view) =
      Some (map (fun it => Some (aggregatedTotal it)) (itemsOf (first :: rest))).
Proof.
  intros Hs Hx Hq. unfold ensureOrder. rewrite Hx, Hq.
  destruct (JS.nullish (c_storeItems c) []) as [|si sis]; [contradiction|].
  eexists. split; [reflexivity|]. unfold aggregatedOrder.
  cbn [o_id o_contractId o_workflow o_total o_items option_map].
  match goal with
  | |- context [fold_left (aggregateOrder st) (first :: rest) ?a] =>
      destruct (aggregateOrders_spec st (first :: rest) a) as [H1 H2]
  end.
  rewrite H1, H2. cbn [totalAmt aggItems map app]. repeat split.
Qed.

Lemma ensureOrder_aggregates_witness :
  exists view,
    ensureOrder exampleEnv initialState []
      ({| db_orders := [storedOrder "o7" "C" [orderLine "Album A" 2 100];
                        storedOrder "o8" "C" [orderLine "Marco" 1 30]];
          db_contracts := [contractC]; db_products := [] |}, []) contractC =
    ({| db_orders := [storedOrder "o7" "C" [orderLine "Album A" 2 100];
                      storedOrder "o8" "C" [orderLine "Marco" 1 30]];
        db_contracts := [contractC]; db_products := [] |}, [] ++ [view]) /\
    o_id view = "o7" /\ o_contractId view = Some "C" /\
    o_workflow view = None /\
    o_total view = Some 230%Z /\
    option_map (map li_total) (o_items view) = Some [Some 200%Z; Some 30%Z].
Proof.
  apply (ensureOrder_aggregates exampleEnv initialState []
           {| db_orders := [storedOrder "o7" "C" [orderLine "Album A" 2 100];
                            storedOrder "o8" "C" [orderLine "Marco" 1 30]];
              db_contracts := [contractC]; db_products := [] |}
           [] contractC
           (storedOrder "o7" "C" [orderLine "Album A" 2 100])
           [storedOrder "o8" "C" [orderLine "Marco" 1 30]]).
  - discriminate.
  - reflexivity.
  - reflexivity.
Defined.

(* ------------------------------------------------------------------ *)
(** ** Opening an order: [openWorkflow] *)

Lemma findIndex_find {A} (p : A -> bool) (l : list A) (i : nat) (x : A) :
  JS.findIndex p l = Some i -> nth_error l i = Some x -> JS.find p l = Some x.
Proof.
  revert i. induction l as [|y l IH]; intros i; cbn [JS.findIndex]; [discriminate|].
  unfold JS.find. cbn [find]. destruct (p y) eqn:Py.
  - intros [= <-]. cbn [nth_error]. now intros [= ->].
  - destruct (JS.findIndex p l) as [j|] eqn:Ej; [|discriminate].
    cbn [option_map]. intros [= <-]. cbn [nth_error]. intros Hn.
    apply (IH j eq_refl Hn).
Qed.

Lemma openWorkflow_run (env : Env) (st : State) (o : OrderItem) (db : Db)
      (s : UidSupply) :
  openWorkflow env st o db s =
  (withEditMode false
     (withStaged
        (fst (ensureDeliveryTasks (workflowOrEmpty (o_workflow o))
                (displayNames (getDisplayItems (lookups st) o)) s))
        (match contractsMap (lookups st) with
         | [] => loadContractsMap env (withViewing (Some o) st) db
         | _ => withViewing (Some o) st
         end)),
   snd (ensureDeliveryTasks (workflowOrEmpty (o_workflow o))
          (displayNames (getDisplayItems (lookups st) o)) s)).
Proof.
  unfold openWorkflow, bind, ret.
  destruct (ensureDeliveryTasks _ _ s) as [wf s']. cbn [fst snd].
  now rewrite jsonClone_id.
Qed.


Lemma getDisplayItems_noLookups (o : OrderItem) :
  getDisplayItems noLookups o = map normalizedRow (JS.nullish (o_items o) []).
Proof.
  unfold getDisplayItems, resolveContract, contractByEmail. cbn.
  destruct (o_contractId o) as [[|a x]|], (o_customer_email o) as [[|b y]|]; reflexivity.
Qed.

(** X12. When the contract lookups are empty as an order is opened, the
    handler loads them, but computes the delivery tasks with the lookups
    it was created with: the tasks staged are those of the names of the
    order's own items, whatever the store items of its contract. *)
Theorem openWorkflow_first_open (env : Env) (st : State) (o : OrderItem) (db : Db)
        (s : UidSupply) (docs : list Contract) :
  lookups st = noLookups -> getContracts env db = Some docs ->
  lookups (fst (openWorkflow env st o db s)) = contractLookups docs /\
  workflow (fst (openWorkflow env st o db s)) =
    Some (fst (ensureDeliveryTasks (workflowOrEmpty (o_workflow o))
                 (map lineName (JS.nullish (o_items o) [])) s)).
Proof.
  intros Hl Hq. rewrite openWorkflow_run, Hl. cbn [fst noLookups contractsMap].
  split.
  - unfold loadContractsMap. now rewrite Hq.
  - change {| contractsMap := []; contractsByEmail := [] |} with noLookups.
    rewrite getDisplayItems_noLookups. unfold displayNames. rewrite map_map.
    cbn [withEditMode withStaged workflow]. do 3 f_equal.
    apply map_ext. intros e. apply lineName_normalizedRow.
Qed.

Lemma openWorkflow_first_open_witness :
  lookups (fst (openWorkflow exampleEnv initialState orderNoItems dbC exampleUids)) =
    contractLookups [contractC] /\
  workflow (fst (openWorkflow exampleEnv initialState orderNoItems dbC exampleUids)) =
    Some (fst (ensureDeliveryTasks (workflowOrEmpty (o_workflow orderNoItems))
                 (map lineName (JS.nullish (o_items orderNoItems) [])) exampleUids)).
Proof.
  apply (openWorkflow_first_open exampleEnv initialState orderNoItems dbC exampleUids
           [contractC]); reflexivity.
Defined.

(** The order of the contract C, opened before the lookups are loaded,
    gets a delivery category without tasks; once the lookups are loaded,
    its display shows the album of the contract. *)
Example openWorkflow_first_open_album :
  workflow (fst (openWorkflow exampleEnv initialState orderNoItems dbC exampleUids)) =
    Some [mkCat "u0" "Entrega de productos" []] /\
  displayNames
    (getDisplayItems
       (lookups (fst (openWorkflow exampleEnv initialState orderNoItems dbC exampleUids)))
       orderNoItems) = ["Album A"].
Proof. split; reflexivity. Qed.

(* ------------------------------------------------------------------ *)
(** ** The categories of the contract that are no delivery categories *)

Lemma filter_setNth {A} (p : A -> bool) (l : list A) (i : nat) (x y : A) :
  nth_error l i = Some y -> p x = false -> p y = false ->
  filter p (setNth i x l) = filter p l.
Proof.
  revert i. induction l as [|a l IH]; intros [|i]; cbn [nth_error setNth filter];
    try discriminate.
  - intros [= ->] Hx Hy. now rewrite Hx, Hy.
  - intros Hn Hx Hy. now rewrite (IH i Hn Hx Hy).
Qed.

Lemma otherCategories_ensureDeliveryTasks (W : Workflow) (N : list string)
      (s : UidSupply) :
  otherCategories (fst (ensureDeliveryTasks W N s)) = otherCategories W.
Proof.
  unfold otherCategories.
  destruct (ensureDeliveryTasks_shape W N s)
    as [(i & cat & added & Hi & Hn & Hf & _ & _ & E) | (added & _ & _ & _ & _ & E)];
    rewrite E.
  - apply find_In in Hf as [_ Hd].
    apply (filter_setNth _ W i _ cat Hn).
    + unfold isDelivery in *. cbn [wc_name]. now rewrite Hd.
    + now rewrite Hd.
  - rewrite filter_app. cbn [filter]. rewrite isDelivery_default. cbn [negb].
    apply app_nil_r.
Qed.

Lemma otherCategories_mergeDone (ord : WorkflowCategory) (W : Workflow) :
  otherCategories (mergeDone ord W) = otherCategories W.
Proof.
  unfold otherCategories, mergeDone.
  induction W as [|c W IH]; [reflexivity|]. cbn [map filter].
  destruct (isDelivery c) eqn:D.
  - rewrite isDelivery_setTasks, D. exact IH.
  - rewrite D. cbn [negb]. now rewrite IH.
Qed.

Lemma otherCategories_setContractDeliveryDone (b : bool) (W : Workflow) :
  otherCategories (setContractDeliveryDone b W) = otherCategories W.
Proof.
  unfold otherCategories, setContractDeliveryDone.
  induction W as [|c W IH]; [reflexivity|]. cbn [map filter].
  destruct (isDelivery c) eqn:D.
  - rewrite isDelivery_setTasks, D. exact IH.
  - rewrite D. cbn [negb]. now rewrite IH.
Qed.

Lemma otherCategories_syncedWorkflow (st : State) (v : OrderItem) (wf : Workflow)
      (k : Contract) (s : UidSupply) :
  otherCategories (syncedWorkflow st v wf k s) =
  otherCategories (workflowOrEmpty (c_workflow k)).
Proof.
  unfold syncedWorkflow, ensuredWorkflow.
  destruct (JS.find isDelivery wf); [rewrite otherCategories_mergeDone|];
    apply otherCategories_ensureDeliveryTasks.
Qed.

Lemma contractWorkflowIn_written (db : Db) (cid : string) (W : Workflow)
      (paid : option bool) (k : Contract) :
  getContract cid db = Some (withContractWorkflow W paid k) ->
  contractWorkflowIn db cid = W.
Proof. intros H. unfold contractWorkflowIn. now rewrite H. Qed.

(** X13. The handlers that write the workflow of the linked contract
    ([saveWorkflow], [markDeliveryPaid], [resetDeliveryPaid]) leave its
    categories that are no delivery categories as the contract holds
    them: same categories, same order, same tasks and flags. *)
Theorem contract_other_categories_kept (env : Env) (st : State) (db : Db)
        (s : UidSupply) (v : OrderItem) (wf : Workflow) (cid : string) (k : Contract) :
  viewing st = Some v -> workflow st = Some wf ->
  targetContractId st v = Some cid -> getContract cid db = Some k ->
  match fst (saveWorkflow env st db s) with
  | Some (_, db') =>
      otherCategories (contractWorkflowIn db' cid) =
      otherCategories (workflowOrEmpty (c_workflow k))
  | None => True
  end /\
  otherCategories (contractWorkflowIn (snd (fst (markDeliveryPaid env st db s))) cid) =
    otherCategories (workflowOrEmpty (c_workflow k)) /\
  otherCategories (contractWorkflowIn (snd (fst (resetDeliveryPaid env st db s))) cid) =
    otherCategories (workflowOrEmpty (c_workflow k)).
Proof.
  intros Hv Hw Ht Hk. split; [|split].
  - destruct (fst (saveWorkflow env st db s)) as [[st' db']|] eqn:E; [|exact I].
    destruct (saveWorkflow_stores env st db s v wf cid k st' db' Hv Hw Ht Hk E) as [_ Hc].
    rewrite Hc. apply otherCategories_syncedWorkflow.
  - unfold markDeliveryPaid.
    rewrite (contractWorkflowIn_written _ _ _ _ _
               (writePaidState_contract true _ _ env st db s v cid k Hv Ht Hk)).
    rewrite otherCategories_setContractDeliveryDone.
    apply otherCategories_ensureDeliveryTasks.
  - unfold resetDeliveryPaid.
    rewrite (contractWorkflowIn_written _ _ _ _ _
               (writePaidState_contract false _ _ env st db s v cid k Hv Ht Hk)).
    rewrite otherCategories_setContractDeliveryDone.
    apply otherCategories_ensureDeliveryTasks.
Qed.

Lemma contract_other_categories_kept_witness :
  match fst (saveWorkflow exampleEnv stateEdited dbEdited exampleUids) with
  | Some (_, db') =>
      otherCategories (contractWorkflowIn db' "C") =
      otherCategories (workflowOrEmpty (c_workflow contractEdited))
  | None => True
  end /\
  otherCategories
    (contractWorkflowIn (snd (fst (markDeliveryPaid exampleEnv stateEdited dbEdited exampleUids)))
                        "C") =
    otherCategories (workflowOrEmpty (c_workflow contractEdited)) /\
  otherCategories
    (contractWorkflowIn (snd (fst (resetDeliveryPaid exampleEnv stateEdited dbEdited exampleUids)))
                        "C") =
    otherCategories (workflowOrEmpty (c_workflow contractEdited)).
Proof.
  apply (contract_other_categories_kept exampleEnv stateEdited dbEdited exampleUids
           orderInProcess
           [ mkCat "c1" "Entrega de productos"
               [ mkTask "t1" "Entregar Album A" true None None ] ]
           "C" contractEdited); reflexivity.
Defined.

(* ------------------------------------------------------------------ *)
(** ** What the handlers leave alone *)

Lemma find_map_other {A} (key : A -> string) (id id' : string) (f : A -> A)
      (l : list A) :
  (forall x, key (f x) = key x) -> id' <> id ->
  List.find (fun x => key x =? id') (map (fun x => if key x =? id then f x else x) l) =
  List.find (fun x => key x =? id') l.
Proof.
  intros Hk Hne. induction l as [|x l IH]; [reflexivity|]. cbn [map find].
  destruct (key x =? id) eqn:E.
  - apply String.eqb_eq in E. rewrite Hk, E.
    destruct (id =? id') eqn:E'; [apply String.eqb_eq in E'; congruence | exact IH].
  - destruct (key x =? id'); [reflexivity | exact IH].
Qed.

Lemma updateOrder_frame (id : string) (f : OrderItem -> OrderItem) (db db1 : Db) :
  (forall x, o_id (f x) = o_id x) -> updateOrder id f db = Some db1 ->
  (forall id', id' <> id -> getOrder id' db1 = getOrder id' db) /\
  db_contracts db1 = db_contracts db /\ db_products db1 = db_products db.
Proof.
  intros Hf. unfold updateOrder. destruct (getOrder id db); [|discriminate].
  intros [= <-]. split; [|split; reflexivity].
  intros id' Hne. unfold getOrder. cbn [setOrders db_orders].
  now apply find_map_other.
Qed.

Lemma updateContract_frame (id : string) (f : Contract -> Contract) (db db1 : Db) :
  (forall x, c_id (f x) = c_id x) -> updateContract id f db = Some db1 ->
  (forall id', id' <> id -> getContract id' db1 = getContract id' db) /\
  db_orders db1 = db_orders db /\ db_products db1 = db_products db.
Proof.
  intros Hf. unfold updateContract. destruct (getContract id db); [|discriminate].
  intros [= <-]. split; [|split; reflexivity].
  intros id' Hne. unfold getContract. cbn [setContracts db_contracts].
  now apply find_map_other.
Qed.

Lemma syncDeliveryToContract_frame (st : State) (v : OrderItem) (wf : Workflow)
      (cid : string) (db : Db) (s : UidSupply) :
  (forall cid', cid' <> cid ->
     getContract cid' (fst (syncDeliveryToContract st v wf cid db s)) = getContract cid' db) /\
  db_orders (fst (syncDeliveryToContract st v wf cid db s)) = db_orders db /\
  db_products (fst (syncDeliveryToContract st v wf cid db s)) = db_products db.
Proof.
  unfold syncDeliveryToContract, bind, ret.
  destruct (getContract cid db) as [k|]; [|cbn [fst]; auto].
  destruct (ensureDeliveryTasks _ _ s) as [merged s']. cbn [fst].
  match goal with
  | |- context [updateContract cid ?f db] =>
      destruct (updateContract cid f db) as [db1|] eqn:E; cbn [JS.nullish]; [|auto];
      apply (updateContract_frame cid f db db1); [reflexivity | exact E]
  end.
Qed.

Lemma getOrder_ext (id : string) (db db' : Db) :
  db_orders db' = db_orders db -> getOrder id db' = getOrder id db.
Proof. unfold getOrder. now intros ->. Qed.

Lemma getContract_ext (id : string) (db db' : Db) :
  db_contracts db' = db_contracts db -> getContract id db' = getContract id db.
Proof. unfold getContract. now intros ->. Qed.

Lemma saveWorkflow_frame_run (env : Env) (st : State) (db : Db) (s : UidSupply)
        (v : OrderItem) (wf : Workflow) (st' : State) (db' : Db) :
  viewing st = Some v -> workflow st = Some wf ->
  fst (saveWorkflow env st db s) = Some (st', db') ->
  (forall id o, id <> o_id v -> getOrder id db = Some o -> getOrder id db' = Some o) /\
  (forall cid, targetContractId st v <> Some cid ->
               getContract cid db' = getContract cid db) /\
  db_products db' = db_products db.
Proof.
  intros Hv Hw. unfold saveWorkflow. rewrite Hv, Hw.
  destruct (updateOrder (o_id v) (withWorkflow wf) db) as [db1|] eqn:Eu;
    [|cbn; discriminate].
  destruct (updateOrder_frame (o_id v) (withWorkflow wf) db db1 (fun x => eq_refl) Eu)
    as (Ho1 & Hc1 & Hp1).
  unfold bind, ret.
  destruct (targetContractId st v) as [cid0|] eqn:Et.
  - pose proof (syncDeliveryToContract_frame st v wf cid0 db1 s) as (Hc2 & Ho2 & Hp2).
    destruct (syncDeliveryToContract st v wf cid0 db1 s) as [db2 s2]. cbn [fst] in *.
    intros [= E]. assert (Ed : db' = snd (fetchOrders env st db2)) by now rewrite E.
    subst db'. split; [|split].
    + intros id o Hne Hg. apply fetchOrders_getOrder.
      rewrite (getOrder_ext id db1 db2 Ho2), (Ho1 id Hne). exact Hg.
    + intros cid Hne. rewrite fetchOrders_getContract.
      rewrite Hc2 by congruence. now apply getContract_ext.
    + destruct (fetchOrders_appends env st db2) as (_ & Hp & _). congruence.
  - cbn [fst]. intros [= E].
    assert (Ed : db' = snd (fetchOrders env st db1)) by now rewrite E.
    subst db'. split; [|split].
    + intros id o Hne Hg. apply fetchOrders_getOrder. rewrite (Ho1 id Hne). exact Hg.
    + intros cid _. rewrite fetchOrders_getContract. now apply getContract_ext.
    + destruct (fetchOrders_appends env st db1) as (_ & Hp & _). congruence.
Qed.

Lemma saveWorkflow_returns (env : Env) (st : State) (db : Db) (s : UidSupply)
      (v o0 : OrderItem) (wf : Workflow) :
  viewing st = Some v -> workflow st = Some wf -> getOrder (o_id v) db = Some o0 ->
  exists st' db', fst (saveWorkflow env st db s) = Some (st', db').
Proof.
  intros Hv Hw Hg. unfold saveWorkflow. rewrite Hv, Hw.
  destruct (updateOrder_get (o_id v) (withWorkflow wf) db o0 (fun x => eq_refl) Hg)
    as (db1 & -> & _).
  unfold bind, ret.
  destruct (match targetContractId st v with
            | Some cid => syncDeliveryToContract st v wf cid db1
            | None => fun s0 => (db1, s0)
            end s) as [db2 s2].
  cbn [fst]. destruct (fetchOrders env st db2) as [st' db']. eauto.
Qed.

(** X14. Saving the workflow of the order viewed, when its document
    exists, succeeds and changes no other order document, no contract but
    the one the order is synchronised to, and no product. *)
Theorem saveWorkflow_frame (env : Env) (st : State) (db : Db) (s : UidSupply)
        (v o0 : OrderItem) (wf : Workflow) :
  viewing st = Some v -> workflow st = Some wf -> getOrder (o_id v) db = Some o0 ->
  exists st' db',
    fst (saveWorkflow env st db s) = Some (st', db') /\
    (forall id o, id <> o_id v -> getOrder id db = Some o -> getOrder id db' = Some o) /\
    (forall cid, targetContractId st v <> Some cid ->
                 getContract cid db' = getContract cid db) /\
    db_products db' = db_products db.
Proof.
  intros Hv Hw Hg.
  destruct (saveWorkflow_returns env st db s v o0 wf Hv Hw Hg) as (st' & db' & E).
  exists st', db'. split; [exact E|].
  exact (saveWorkflow_frame_run env st db s v wf st' db' Hv Hw E).
Qed.

Lemma saveWorkflow_frame_witness :
  exists st' db',
    fst (saveWorkflow exampleEnv stateEdited dbEdited exampleUids) = Some (st', db') /\
    (forall id o, id <> o_id orderInProcess -> getOrder id dbEdited = Some o ->
                  getOrder id db' = Some o) /\
    (forall cid, targetContractId stateEdited orderInProcess <> Some cid ->
                 getContract cid db' = getContract cid dbEdited) /\
    db_products db' = db_products dbEdited.
Proof.
  apply (saveWorkflow_frame exampleEnv stateEdited dbEdited exampleUids orderInProcess
           orderInProcess
           [ mkCat "c1" "Entrega de productos"
               [ mkTask "t1" "Entregar Album A" true None None ] ]); reflexivity.
Defined.

(* ------------------------------------------------------------------ *)
(** ** [markDeliveryPaid] on the contract *)

Lemma setContractDeliveryDone_true (w : Workflow) :
  deliveryAllDone (setContractDeliveryDone true w).
Proof.
  intros cat t Hc Hd Ht. unfold setContractDeliveryDone in Hc.
  apply in_map_iff in Hc as (c0 & <- & _).
  destruct (isDelivery c0) eqn:D.
  - cbn [setTasks wc_tasks] in Ht. apply in_map_iff in Ht as (t0 & <- & _). reflexivity.
  - congruence.
Qed.

Lemma hasTitle_setDone (b : bool) (ts : list WorkflowTask) (title : string) :
  hasTitle (map (setDone b) ts) title = hasTitle ts title.
Proof.
  unfold hasTitle. induction ts as [|t ts IH]; [reflexivity|].
  cbn [map existsb setDone wt_title]. now rewrite IH.
Qed.

Lemma hasDeliveryTask_ensured (W : Workflow) (N : list string) (s : UidSupply)
      (b : bool) (n : string) :
  In n N ->
  hasDeliveryTask (setContractDeliveryDone b (fst (ensureDeliveryTasks W N s))) n.
Proof.
  intros Hn. destruct (ensureDeliveryTasks_result W N s) as (i & cat & Hi & Hc & Ht).
  assert (Hd : isDelivery cat = true).
  { apply (find_In isDelivery (fst (ensureDeliveryTasks W N s)) cat).
    exact (findIndex_find _ _ _ _ Hi Hc). }
  exists (setTasks (map (setDone b) (wc_tasks cat)) cat). split; [|split].
  - unfold setContractDeliveryDone. apply in_map_iff. exists cat.
    rewrite Hd. split; [reflexivity|]. eapply nth_error_In, Hc.
  - now rewrite isDelivery_setTasks.
  - cbn [setTasks wc_tasks]. rewrite hasTitle_setDone. now apply Ht.
Qed.

(** X15. [markDeliveryPaid] on an order whose contract resolves and
    exists leaves the contract with [depositPaid] true, its store items
    as they were, every task of its delivery categories done, and a
    delivery task for every row of the order's display; this does not
    depend on the order's own document, which may be missing. *)
Theorem markDeliveryPaid_contract (env : Env) (st : State) (db : Db) (s : UidSupply)
        (v : OrderItem) (cid : string) (k : Contract) :
  viewing st = Some v -> targetContractId st v = Some cid ->
  getContract cid db = Some k ->
  exists k',
    getContract cid (snd (fst (markDeliveryPaid env st db s))) = Some k' /\
    c_depositPaid k' = Some true /\ c_storeItems k' = c_storeItems k /\
    deliveryAllDone (workflowOrEmpty (c_workflow k')) /\
    forall r, In r (getDisplayItems (lookups st) v) ->
              hasDeliveryTask (workflowOrEmpty (c_workflow k')) (lineName r).
Proof.
  intros Hv Ht Hk. eexists. split.
  - unfold markDeliveryPaid.
    exact (writePaidState_contract true _ _ env st db s v cid k Hv Ht Hk).
  - cbn [withContractWorkflow c_depositPaid c_storeItems c_workflow workflowOrEmpty
         JS.nullish].
    split; [reflexivity|]. split; [reflexivity|].
    split; [apply setContractDeliveryDone_true|].
    intros r Hr. unfold ensuredWorkflow. apply hasDeliveryTask_ensured.
    unfold displayNames. now apply in_map.
Qed.

Lemma markDeliveryPaid_contract_witness :
  exists k',
    getContract "C"
      (snd (fst (markDeliveryPaid exampleEnv stateNoDocument dbC exampleUids))) = Some k' /\
    c_depositPaid k' = Some true /\ c_storeItems k' = c_storeItems contractC /\
    deliveryAllDone (workflowOrEmpty (c_workflow k')) /\
    forall r, In r (getDisplayItems (lookups stateNoDocument) orderLinked) ->
              hasDeliveryTask (workflowOrEmpty (c_workflow k')) (lineName r).
Proof.
  apply (markDeliveryPaid_contract exampleEnv stateNoDocument dbC exampleUids
           orderLinked "C" contractC); reflexivity.
Defined.

(* ------------------------------------------------------------------ *)
(** ** The checkbox of a task, set and set back *)

Lemma mapAt_mapAt {A} (k : nat) (f g : A -> A) (l : list A) :
  mapAt k f (mapAt k g l) = mapAt k (fun x => f (g x)) l.
Proof.
  revert k. induction l as [|x l IH]; intros [|k]; cbn [mapAt]; try reflexivity.
  now rewrite IH.
Qed.

Lemma mapAt_ext_nth {A} (k : nat) (f g : A -> A) (l : list A) :
  (forall x, nth_error l k = Some x -> f x = g x) -> mapAt k f l = mapAt k g l.
Proof.
  revert k. induction l as [|x l IH]; intros [|k] H; cbn [mapAt]; try reflexivity.
  - now rewrite (H x eq_refl).
  - f_equal. apply IH. intros y Hy. now apply H.
Qed.

Lemma mapAt_fixed {A} (k : nat) (f : A -> A) (l : list A) :
  (forall x, nth_error l k = Some x -> f x = x) -> mapAt k f l = l.
Proof.
  revert k. induction l as [|x l IH]; intros [|k] H; cbn [mapAt]; try reflexivity.
  - now rewrite (H x eq_refl).
  - f_equal. apply IH. intros y Hy. now apply H.
Qed.

Lemma nth_error_mapAt {A} (k : nat) (f : A -> A) (l : list A) (x : A) :
  nth_error l k = Some x -> nth_error (mapAt k f l) k = Some (f x).
Proof.
  revert k. induction l as [|y l IH]; intros [|k]; cbn [mapAt nth_error];
    try discriminate.
  - now intros [= ->].
  - apply IH.
Qed.

Lemma toggled_toggled (wf : Workflow) (ci ti : nat) (a b : bool) :
  toggled (toggled wf ci ti a) ci ti b = toggled wf ci ti b.
Proof.
  unfold toggled. rewrite mapAt_mapAt. apply mapAt_ext_nth. intros c _.
  unfold setTasks. cbn [wc_tasks wc_id wc_name]. f_equal. rewrite mapAt_mapAt.
  apply mapAt_ext_nth. intros t _. reflexivity.
Qed.

Lemma toggled_same (wf : Workflow) (ci ti : nat) (cat : WorkflowCategory)
      (t : WorkflowTask) :
  nth_error wf ci = Some cat -> nth_error (wc_tasks cat) ti = Some t ->
  toggled wf ci ti (wt_done t) = wf.
Proof.
  intros Hc Ht. unfold toggled. apply mapAt_fixed. intros c Hc'.
  assert (c = cat) by congruence. subst c.
  rewrite (mapAt_fixed ti (setDone (wt_done t)) (wc_tasks cat)).
  - now destruct cat.
  - intros t' Ht'. assert (t' = t) by congruence. subst t'. now destruct t.
Qed.

Lemma onTaskChange_order (st : State) (db : Db) (s : UidSupply) (v o0 : OrderItem)
      (wf : Workflow) (ci ti : nat) (checked : bool) :
  viewing st = Some v -> workflow st = Some wf ->
  JS.startsWith (o_id v) "contract-" = false ->
  getOrder (o_id v) db = Some o0 ->
  viewing (fst (fst (onTaskChange st ci ti checked db s))) = Some v /\
  workflow (fst (fst (onTaskChange st ci ti checked db s))) =
    Some (toggled wf ci ti checked) /\
  getOrder (o_id v) (snd (fst (onTaskChange st ci ti checked db s))) =
    Some (withWorkflow (toggled wf ci ti checked) o0).
Proof.
  intros Hv Hw Hs Hg. unfold onTaskChange. rewrite Hw, Hv, Hs.
  fold (toggled wf ci ti checked).
  destruct (updateOrder_get (o_id v) (withWorkflow (toggled wf ci ti checked)) db o0
              (fun x => eq_refl) Hg) as (db1 & -> & Hg1 & _).
  unfold bind, ret. destruct (targetContractId st v) as [cid|].
  - pose proof (syncDeliveryToContract_frame st v (toggled wf ci ti checked) cid db1 s)
      as (_ & Ho & _).
    destruct (syncDeliveryToContract st v (toggled wf ci ti checked) cid db1 s)
      as [db2 s2].
    cbn [fst snd withStaged viewing workflow] in *.
    split; [exact Hv|]. split; [reflexivity|].
    now rewrite (getOrder_ext (o_id v) db1 db2 Ho).
  - cbn [fst snd withStaged viewing workflow]. auto.
Qed.

(** X16. Setting the checkbox of a task and then setting it back
    restores the staged workflow, and leaves the order's document with
    that workflow: after the first change the document holds the staged
    workflow with that one flag changed, after the second the staged
    workflow as it was. *)
Theorem onTaskChange_back (st : State) (db : Db) (s : UidSupply) (v o0 : OrderItem)
        (wf : Workflow) (ci ti : nat) (cat : WorkflowCategory) (t : WorkflowTask) :
  viewing st = Some v -> workflow st = Some wf ->
  JS.startsWith (o_id v) "contract-" = false ->
  getOrder (o_id v) db = Some o0 ->
  nth_error wf ci = Some cat -> nth_error (wc_tasks cat) ti = Some t ->
  let r1 := onTaskChange st ci ti (negb (wt_done t)) db s in
  let r2 := onTaskChange (fst (fst r1)) ci ti (wt_done t) (snd (fst r1)) (snd r1) in
  orderWorkflowIn (snd (fst r1)) (o_id v) = toggled wf ci ti (negb (wt_done t)) /\
  (exists cat1, nth_error (toggled wf ci ti (negb (wt_done t))) ci = Some cat1 /\
                nth_error (wc_tasks cat1) ti = Some (setDone (negb (wt_done t)) t)) /\
  workflow (fst (fst r2)) = Some wf /\
  orderWorkflowIn (snd (fst r2)) (o_id v) = wf.
Proof.
  intros Hv Hw Hs Hg Hc Ht r1 r2.
  destruct (onTaskChange_order st db s v o0 wf ci ti (negb (wt_done t)) Hv Hw Hs Hg)
    as (Hv1 & Hw1 & Hg1).
  fold r1 in Hv1, Hw1, Hg1.
  destruct (onTaskChange_order (fst (fst r1)) (snd (fst r1)) (snd r1) v _ _ ci ti
              (wt_done t) Hv1 Hw1 Hs Hg1) as (_ & Hw2 & Hg2).
  fold r2 in Hw2, Hg2.
  rewrite toggled_toggled, (toggled_same wf ci ti cat t Hc Ht) in Hw2, Hg2.
  split; [|split; [|split]].
  - unfold orderWorkflowIn. now rewrite Hg1.
  - eexists. split.
    + unfold toggled. apply nth_error_mapAt, Hc.
    + cbn [setTasks wc_tasks]. apply nth_error_mapAt, Ht.
  - exact Hw2.
  - unfold orderWorkflowIn. now rewrite Hg2.
Qed.

Lemma onTaskChange_back_witness :
  let wf := [ mkCat "c1" "Entrega de productos"
                [ mkTask "t1" "Entregar Album A" true None None ] ] in
  let t := mkTask "t1" "Entregar Album A" true None None in
  let r1 := onTaskChange stateEdited 0 0 (negb (wt_done t)) dbEdited exampleUids in
  let r2 := onTaskChange (fst (fst r1)) 0 0 (wt_done t) (snd (fst r1)) (snd r1) in
  orderWorkflowIn (snd (fst r1)) (o_id orderInProcess) =
    toggled wf 0 0 (negb (wt_done t)) /\
  (exists cat1, nth_error (toggled wf 0 0 (negb (wt_done t))) 0 = Some cat1 /\
                nth_error (wc_tasks cat1) 0 = Some (setDone (negb (wt_done t)) t)) /\
  workflow (fst (fst r2)) = Some wf /\
  orderWorkflowIn (snd (fst r2)) (o_id orderInProcess) = wf.
Proof.
  apply (onTaskChange_back stateEdited dbEdited exampleUids orderInProcess orderInProcess
           [ mkCat "c1" "Entrega de productos"
               [ mkTask "t1" "Entregar Album A" true None None ] ]
           0 0
           (mkCat "c1" "Entrega de productos"
              [ mkTask "t1" "Entregar Album A" true None None ])
           (mkTask "t1" "Entregar Album A" true None None)); reflexivity.
Defined.

(* ------------------------------------------------------------------ *)
(** ** [updateStatus] and [remove] *)

(** X17. [updateStatus] on an order whose document exists sets the
    status of that document to the status given, leaves its other fields,
    the other order documents and the contracts as they are, and loads the
    orders again; on an id without a document it is rejected. *)
Theorem updateStatus_writes (env : Env) (st : State) (id : string)
        (status : OrderStatus) (db : Db) (o : OrderItem) :
  getOrder id db = Some o ->
  (exists st' db',
     updateStatus env st id status db = Some (st', db') /\
     getOrder id db' = Some (withStatus (statusString status) o) /\
     (forall id' o', id' <> id -> getOrder id' db = Some o' -> getOrder id' db' = Some o') /\
     db_contracts db' = db_contracts db) /\
  (forall id', getOrder id' db = None -> updateStatus env st id' status db = None).
Proof.
  intros Hg. split.
  - unfold updateStatus.
    destruct (updateOrder_get id (withStatus (statusString status)) db o
                (fun x => eq_refl) Hg) as (db1 & Eu & Hg1 & Hc1).
    rewrite Eu.
    destruct (updateOrder_frame id (withStatus (statusString status)) db db1
                (fun x => eq_refl) Eu) as (Ho1 & _ & _).
    exists (fst (fetchOrders env st db1)), (snd (fetchOrders env st db1)).
    split; [now destruct (fetchOrders env st db1)|].
    split; [now apply fetchOrders_getOrder|].
    split.
    + intros id' o' Hne Hg'. apply fetchOrders_getOrder. now rewrite Ho1.
    + destruct (fetchOrders_appends env st db1) as (Hc & _). congruence.
  - intros id' Hn. unfold updateStatus, updateOrder. now rewrite Hn.
Qed.

Lemma updateStatus_writes_witness :
  (exists st' db',
     updateStatus exampleEnv stateEdited "o1" completado dbEdited = Some (st', db') /\
     getOrder "o1" db' = Some (withStatus (statusString completado) orderInProcess) /\
     (forall id' o', id' <> "o1" -> getOrder id' dbEdited = Some o' ->
                     getOrder id' db' = Some o') /\
     db_contracts db' = db_contracts dbEdited) /\
  (forall id', getOrder id' dbEdited = None ->
               updateStatus exampleEnv stateEdited id' completado dbEdited = None).
Proof.
  apply (updateStatus_writes exampleEnv stateEdited "o1" completado dbEdited orderInProcess).
  reflexivity.
Defined.

Lemma ensureOrder_adds (env : Env) (st : State) (items : list OrderItem)
      (db : Db) (gen : list OrderItem) (c : Contract) (id : string) :
  JS.nullish (c_storeItems c) [] <> [] ->
  existsb (fun it => contractRef it =? c_id c) items = false ->
  getOrdersWhereContractId env db (c_id c) = Some [] ->
  addDocId env db (orderData env c) = Some id ->
  db_orders (fst (ensureOrder env st items (db, gen) c)) =
  db_orders db ++ [withId id None (orderData env c)].
Proof.
  intros Hs Hx Hq Ha. unfold ensureOrder. rewrite Hx, Hq.
  destruct (JS.nullish (c_storeItems c) []) as [|si sis]; [contradiction|].
  unfold addDoc. rewrite Ha. reflexivity.
Qed.

(** X18. [remove] does nothing when the confirmation is declined.  When
    it is confirmed, the order's document is deleted and the orders are
    loaded again; if the order was the only one that refers to a contract
    with store items, the loader then writes a new order for that
    contract: the store holds an order of the contract again. *)
Theorem remove_recreates (env : Env) (st : State) (db : Db) (id : string)
        (cs : list Contract) (c : Contract) :
  onLine env = true ->
  getContractsByCreatedAt env (deleteOrder id db) = Some cs ->
  In c cs -> NoDup (map c_id cs) ->
  JS.nullish (c_storeItems c) [] <> [] ->
  answersFromStore env (c_id c) ->
  (forall o, In o (db_orders db) -> o_id o <> id ->
             contractRef o <> c_id c /\ o_contractId o <> Some (c_id c)) ->
  (forall db' d, addDocId env db' d <> None) ->
  remove env false st id db = (st, db) /\
  exists newid,
    In (withId newid None (orderData env c))
       (db_orders (snd (remove env true st id db))).
Proof.
  intros On Hq Hc Hnd Hs Hans Href Hadd. split; [reflexivity|].
  unfold remove. cbn [negb].
  set (db0 := deleteOrder id db).
  assert (Href0 : unreferenced (c_id c) db0).
  { intros o Ho. unfold db0, deleteOrder in Ho. cbn [setOrders db_orders] in Ho.
    apply filter_In in Ho as [Ho Hid]. apply Href; [exact Ho|].
    intros E. rewrite E, String.eqb_refl in Hid. discriminate. }
  destruct (fetchOrders_online env st db0 cs On Hq) as [-> _].
  apply in_split in Hc as (l1 & l2 & ->).
  rewrite fold_left_app. cbn [fold_left].
  destruct (ensureOrders_append env st (loadItems env db0) l1 db0 [])
    as (_ & _ & cr1 & Ho1 & F1).
  destruct (fold_left (ensureOrder env st (loadItems env db0)) l1 (db0, []))
    as [db1 gen1]. cbn [fst] in Ho1, F1.
  assert (Hx : existsb (fun it => contractRef it =? c_id c) (loadItems env db0) = false).
  { apply not_true_is_false. intros Hx. apply existsb_exists in Hx as (o & Ho & E).
    apply String.eqb_eq in E.
    apply (loadItems_incl env (c_id c) db0 Hans) in Ho.
    now destruct (Href0 o Ho). }
  assert (Hw : getOrdersWhereContractId env db1 (c_id c) = Some []).
  { destruct Hans as (_ & _ & _ & Hw). rewrite Hw. f_equal.
    rewrite Ho1, filter_app.
    assert (E0 : forall l, (forall o, In o l -> o_contractId o <> Some (c_id c)) ->
               filter (fun o => match o_contractId o with
                                | Some x => x =? c_id c
                                | None => false
                                end) l = []).
    { induction l as [|o l IH]; intros H; [reflexivity|]. cbn [filter].
      destruct (o_contractId o) as [x|] eqn:Ex.
      - destruct (x =? c_id c) eqn:E.
        + apply String.eqb_eq in E. subst x. exfalso.
          apply (H o); [now left | exact Ex].
        + apply IH. intros o' Ho'. apply H. now right.
      - apply IH. intros o' Ho'. apply H. now right. }
    rewrite (E0 (db_orders db0)), (E0 cr1); [reflexivity | |].
    - intros o Ho. rewrite Forall_forall in F1.
      destruct (F1 o Ho) as (c' & i & Hc' & ->). cbn [withId orderData o_contractId].
      intros [= E]. rewrite map_app in Hnd. cbn [map] in Hnd.
      apply NoDup_remove_2 in Hnd. apply Hnd, in_or_app. left.
      rewrite <- E. now apply in_map.
    - intros o Ho. now destruct (Href0 o Ho). }
  destruct (addDocId env db1 (orderData env c)) as [newid|] eqn:Ea;
    [|now destruct (Hadd db1 (orderData env c))].
  pose proof (ensureOrder_adds env st (loadItems env db0) db1 gen1 c newid Hs Hx Hw Ea)
    as Ho2.
  destruct (ensureOrder env st (loadItems env db0) (db1, gen1) c) as [db2 gen2].
  cbn [fst] in Ho2.
  destruct (ensureOrders_append env st (loadItems env db0) l2 db2 gen2)
    as (_ & _ & cr2 & Ho3 & _).
  exists newid. rewrite Ho3, Ho2. apply in_or_app. left. apply in_or_app. right.
  now left.
Qed.

Lemma remove_recreates_witness :
  remove exampleEnv false stateOneAlbum "o1" dbLinked = (stateOneAlbum, dbLinked) /\
  exists newid,
    In (withId newid None (orderData exampleEnv contractC))
       (db_orders (snd (remove exampleEnv true stateOneAlbum "o1" dbLinked))).
Proof.
  apply (remove_recreates exampleEnv stateOneAlbum dbLinked "o1" [contractC] contractC).
  - reflexivity.
  - reflexivity.
  - now left.
  - repeat constructor. intros [].
  - discriminate.
  - apply exampleEnv_answersFromStore.
  - intros o [<-|[]] H. now contradiction H.
  - discriminate.
Defined.

(* ------------------------------------------------------------------ *)
(** ** [applyTemplateToOrder] *)

Lemma mapFresh_Forall2 {A B} (f : A -> Fresh B) (R : A -> B -> Prop) (l : list A) :
  (forall x s, R x (fst (f x s))) ->
  forall s, Forall2 R l (fst (mapFresh f l s)).
Proof.
  intros Hf. induction l as [|x l IH]; intros s; cbn [mapFresh].
  - constructor.
  - unfold bind, ret. specialize (Hf x s). destruct (f x s) as [y s1].
    specialize (IH s1). destruct (mapFresh f l s1) as [ys s2]. cbn [fst] in *.
    now constructor.
Qed.

Lemma orUid_keeps (id : option string) (s : UidSupply) (i : string) :
  truthy id = Some i -> fst (orUid id s) = i.
Proof. unfold orUid. now intros ->. Qed.

Lemma templateTask_spec (t : TemplateTask) (s : UidSupply) :
  fromTemplateTask t (fst (templateTask t s)).
Proof.
  unfold templateTask, bind, ret, fromTemplateTask.
  pose proof (orUid_keeps (tt_id t) s) as K.
  destruct (orUid (tt_id t) s) as [i s1]. cbn [fst] in *. repeat split; auto.
Qed.

Lemma templateCategory_spec (c : TemplateCategory) (s : UidSupply) :
  fromTemplateCategory c (fst (templateCategory c s)).
Proof.
  unfold templateCategory, bind, ret, fromTemplateCategory.
  pose proof (orUid_keeps (tc_id c) s) as K.
  destruct (orUid (tc_id c) s) as [i s1]. cbn [fst] in K.
  pose proof (mapFresh_Forall2 templateTask fromTemplateTask (tc_tasks c)
                templateTask_spec s1) as F.
  destruct (mapFresh templateTask (tc_tasks c) s1) as [ts s2]. cbn [fst] in *.
  repeat split; auto.
Qed.

Lemma Forall2_existsb {A B} (R : A -> B -> Prop) (p : A -> bool) (q : B -> bool)
      (l : list A) (l' : list B) :
  (forall x y, R x y -> p x = q y) -> Forall2 R l l' -> existsb p l = existsb q l'.
Proof.
  intros H F. induction F as [|x y l l' Hxy F IH]; [reflexivity|].
  cbn [existsb]. now rewrite (H x y Hxy), IH.
Qed.

(** X19. Applying a template stages one category per category of the
    template, in its order, with its name and its tasks; every task has
    the title, due time and note of the template and is not done, whatever
    the template says; an id of the template is kept, a missing one is
    drawn.  No delivery category is added: the staged workflow has one
    only if the template has.  Without a template nothing changes. *)
Theorem applyTemplateToOrder_stages (t : WorkflowTemplate) (st : State) (s : UidSupply) :
  (exists wf,
     workflow (fst (applyTemplateToOrder (Some t) st s)) = Some wf /\
     Forall2 fromTemplateCategory (tpl_categories t) wf /\
     existsb isDelivery wf =
       existsb (fun c => JS.includes (normalize (tc_name c)) "entrega")
               (tpl_categories t)) /\
  viewing (fst (applyTemplateToOrder (Some t) st s)) = viewing st /\
  applyTemplateToOrder None st s = (st, s).
Proof.
  split; [|split; [|reflexivity]].
  - unfold applyTemplateToOrder, bind, ret.
    pose proof (mapFresh_Forall2 templateCategory fromTemplateCategory (tpl_categories t)
                  templateCategory_spec s) as F.
    destruct (mapFresh templateCategory (tpl_categories t) s) as [wf s1].
    cbn [fst withStaged workflow] in *. exists wf.
    split; [reflexivity|]. split; [exact F|]. symmetry.
    apply (Forall2_existsb fromTemplateCategory _ _ _ _ (fun c w H =>
             f_equal (fun n => JS.includes (normalize n) "entrega") (eq_sym (proj1 H))) F).
  - unfold applyTemplateToOrder, bind, ret.
    destruct (mapFresh templateCategory (tpl_categories t) s) as [wf s1]. reflexivity.
Qed.

(** The template without a delivery category, applied to the order of the
    contract C: the staged workflow has no delivery category, and the one
    task is not done though the template has it done. *)
Example applyTemplateToOrder_edition :
  workflow (fst (applyTemplateToOrder (Some templateEdition) stateOneAlbum exampleUids)) =
    Some [ mkCat "k1" "Edicion" [ mkTask "u0" "Editar fotos" false None None ] ].
Proof. reflexivity. Qed.

(* ------------------------------------------------------------------ *)
(** ** [autoLinkOrders] *)




(** The order of the customer of the contract C, without [contractId], is
    linked to C by the e-mail, and one order is reported. *)
Example autoLinkOrders_by_email :
  let st := withOrders [orderOfCustomer "o9" " Ana@Example.com "] stateOneAlbum in
  let db := {| db_orders := [orderOfCustomer "o9" " Ana@Example.com "];
               db_contracts := [contractC]; db_products := [] |} in
  option_map o_contractId (getOrder "o9" (snd (fst (autoLinkOrders exampleEnv true st db)))) =
    Some (Some "C") /\
  snd (autoLinkOrders exampleEnv true st db) = Some 1.
Proof. split; reflexivity. Qed.

(* ------------------------------------------------------------------ *)
(** ** Edit mode *)

Lemma removeAt_last {A} (l : list A) (x : A) : removeAt (List.length l) (l ++ [x]) = l.
Proof. induction l as [|a l IH]; cbn [List.length app removeAt]; [reflexivity | now rewrite IH]. Qed.

Lemma removeAt_beyond {A} (l : list A) (k : nat) : removeAt (List.length l + k) l = l.
Proof.
  induction l as [|a l IH]; cbn [List.length Nat.add removeAt]; [now destruct k|].
  now rewrite IH.
Qed.

Lemma setNth_setNth {A} (l : list A) (i : nat) (x y : A) :
  setNth i y (setNth i x l) = setNth i y l.
Proof.
  revert i. induction l as [|a l IH]; intros [|i]; cbn [setNth]; try reflexivity.
  now rewrite IH.
Qed.

Lemma nth_error_setNth_Some {A} (l : list A) (i : nat) (x y : A) :
  nth_error l i = Some y -> nth_error (setNth i x l) i = Some x.
Proof.
  intros H. apply nth_error_setNth_same. apply nth_error_Some. congruence.
Qed.

Lemma doneFlags_setNth (w : Workflow) (ci : nat) (cat cat' : WorkflowCategory) :
  nth_error w ci = Some cat -> map wt_done (wc_tasks cat') = map wt_done (wc_tasks cat) ->
  doneFlags (setNth ci cat' w) = doneFlags w.
Proof.
  revert ci. induction w as [|c w IH]; intros [|ci]; cbn [nth_error setNth];
    try discriminate.
  - intros [= ->] H. unfold doneFlags. cbn [map]. now rewrite H.
  - intros Hn H. unfold doneFlags in *. cbn [map]. now rewrite (IH ci Hn H).
Qed.

Lemma map_setNth_same {A B} (f : A -> B) (l : list A) (i : nat) (x y : A) :
  nth_error l i = Some y -> f x = f y -> map f (setNth i x l) = map f l.
Proof.
  revert i. induction l as [|a l IH]; intros [|i]; cbn [nth_error setNth map];
    try discriminate.
  - intros [= ->] H. now rewrite H.
  - intros Hn H. now rewrite (IH i Hn H).
Qed.

(** X21. In edit mode, removing the task that was just added to a
    category, and removing the category that was just added, give back
    the staged workflow; writing to a category the name it has, or to a
    task the title it has, changes nothing; a new title or due time of a
    task changes no [done] flag; and removing a category at an index
    beyond the workflow removes none. *)
Theorem editMode_round_trips (w : Workflow) (ci ti k : nat) (cat : WorkflowCategory)
        (t : WorkflowTask) (val : string) (iso : option string) (s : UidSupply) :
  nth_error w ci = Some cat -> nth_error (wc_tasks cat) ti = Some t ->
  deleteTask ci (List.length (wc_tasks cat)) (fst (addTask ci (Some w) s)) = Some w /\
  deleteCategory (List.length w) (Some (fst (addCategory (Some w) s))) = w /\
  renameCategory ci (wc_name cat) (Some w) = Some w /\
  renameTask ci ti (wt_title t) (Some w) = Some w /\
  (exists w1 w2,
     renameTask ci ti val (Some w) = Some w1 /\ doneFlags w1 = doneFlags w /\
     setTaskDue ci ti iso (Some w) = Some w2 /\ doneFlags w2 = doneFlags w) /\
  deleteCategory (List.length w + k) (Some w) = w.
Proof.
  intros Hc Ht. split; [|split; [|split; [|split; [|split]]]].
  - unfold addTask, deleteTask, updateTasks, bind, ret, uid.
    unfold workflowOrEmpty. cbn [JS.nullish]. rewrite Hc. cbn [fst JS.nullish].
    rewrite (nth_error_setNth_Some w ci _ cat Hc). cbn [setTasks wc_tasks wc_id wc_name].
    rewrite removeAt_last, setNth_setNth. f_equal. apply setNth_same.
    rewrite Hc. now destruct cat.
  - unfold addCategory, deleteCategory, bind, ret, uid, workflowOrEmpty.
    cbn [JS.nullish fst]. apply removeAt_last.
  - unfold renameCategory, updateAt, workflowOrEmpty. cbn [JS.nullish]. rewrite Hc.
    f_equal. apply setNth_same. rewrite Hc. now destruct cat.
  - unfold renameTask, updateTasks, updateAt, workflowOrEmpty. cbn [JS.nullish].
    rewrite Hc, Ht. f_equal. apply setNth_same. rewrite Hc. f_equal.
    destruct cat as [i n ts]. unfold setTasks. cbn [wc_id wc_name wc_tasks] in *.
    f_equal. symmetry. apply setNth_same. rewrite Ht. now destruct t.
  - unfold renameTask, setTaskDue, updateTasks, updateAt, workflowOrEmpty.
    cbn [JS.nullish]. rewrite Hc, Ht. do 2 eexists.
    split; [reflexivity|]. split; [|split; [reflexivity|]].
    + apply (doneFlags_setNth w ci cat _ Hc). cbn [setTasks wc_tasks].
      now apply (map_setNth_same wt_done _ ti _ t).
    + apply (doneFlags_setNth w ci cat _ Hc). cbn [setTasks wc_tasks].
      now apply (map_setNth_same wt_done _ ti _ t).
  - unfold deleteCategory, workflowOrEmpty. cbn [JS.nullish]. apply removeAt_beyond.
Qed.

Lemma editMode_round_trips_witness :
  let cat := mkCat "c2" "Entrega" [ mkTask "t2" "Entregar Album A" false None None ] in
  let t := mkTask "t2" "Entregar Album A" false None None in
  deleteTask 1 (List.length (wc_tasks cat)) (fst (addTask 1 (Some exampleWorkflow) exampleUids))
    = Some exampleWorkflow /\
  deleteCategory (List.length exampleWorkflow)
                 (Some (fst (addCategory (Some exampleWorkflow) exampleUids))) =
    exampleWorkflow /\
  renameCategory 1 (wc_name cat) (Some exampleWorkflow) = Some exampleWorkflow /\
  renameTask 1 0 (wt_title t) (Some exampleWorkflow) = Some exampleWorkflow /\
  (exists w1 w2,
     renameTask 1 0 "Entregar marco" (Some exampleWorkflow) = Some w1 /\
     doneFlags w1 = doneFlags exampleWorkflow /\
     setTaskDue 1 0 (Some "2024-07-01T10:00:00.000Z") (Some exampleWorkflow) = Some w2 /\
     doneFlags w2 = doneFlags exampleWorkflow) /\
  deleteCategory (List.length exampleWorkflow + 3) (Some exampleWorkflow) = exampleWorkflow.
Proof.
  apply (editMode_round_trips exampleWorkflow 1 0 3
           (mkCat "c2" "Entrega" [ mkTask "t2" "Entregar Album A" false None None ])
           (mkTask "t2" "Entregar Album A" false None None)
           "Entregar marco" (Some "2024-07-01T10:00:00.000Z") exampleUids);
    reflexivity.
Defined.

(* ------------------------------------------------------------------ *)
(** ** The summary of the order viewed *)

Section Summary.

Import QArith_base.
Local Open Scope Q_scope.




End Summary.









(** The subtotal of the order with the album at 50 whose contract has it
    at 80 is that of the contract, 80, while the row of the display shows
    the price of the order; the deposit is 40. *)
Example storeTotal_album :
  storeTotal (lookupsOf contractAlbum) orderAlbum = 80%Z /\
  map li_price (getDisplayItems (lookupsOf contractAlbum) orderAlbum) = [Some 50%Z] /\
  QArith_base.Qeq (depositAmount 80) (QArith_base.inject_Z 40).
Proof. repeat split. Qed.

Lemma contractLookups_byId (docs : list Contract) :
  Forall (fun kv => In (snd kv) docs /\ c_id (snd kv) = fst kv)
         (contractsMap (contractLookups docs)).
Proof.
  rewrite contractLookups_fold.
  set (Q := fun kv : string * Contract => In (snd kv) docs /\ c_id (snd kv) = fst kv).
  assert (G : forall l lk, incl l docs -> Forall Q (contractsMap lk) ->
                           Forall Q (contractsMap (fold_left addContract l lk))).
  { induction l as [|d l IH]; intros lk Hl Hlk; [exact Hlk|].
    cbn [fold_left]. apply IH.
    - intros x Hx. apply Hl. now right.
    - cbn [addContract contractsMap]. apply Forall_store; [exact Hlk|].
      split; [apply Hl; now left | reflexivity]. }
  apply G; [apply incl_refl | constructor].
Qed.

Lemma writePaidContract_paid (paid : bool) (env : Env) (st st1 : State)
      (v : OrderItem) (db1 : Db) (s : UidSupply) (c : Contract) :
  In c (db_contracts (snd (fst (writePaidContract paid env st st1 v db1 s)))) ->
  targetContractId st v = Some (c_id c) -> c_depositPaid c = Some paid.
Proof.
  intros Hin Ht. unfold writePaidContract in Hin. rewrite Ht in Hin.
  destruct (getContract (c_id c) db1) as [k|] eqn:Eg.
  - unfold bind, ret in Hin.
    destruct (ensureDeliveryTasks _ _ s) as [merged s']. cbn [fst snd] in Hin.
    unfold updateContract in Hin. rewrite Eg in Hin.
    cbn [JS.nullish setContracts db_contracts] in Hin.
    apply in_map_iff in Hin as (c0 & E & _).
    destruct (c_id c0 =? c_id c) eqn:Ec.
    + subst c. reflexivity.
    + subst c0. rewrite String.eqb_refl in Ec. discriminate.
  - cbn [ret fst snd] in Hin. unfold getContract in Eg.
    pose proof (find_none _ _ Eg c Hin) as H. cbn in H.
    rewrite String.eqb_refl in H. discriminate.
Qed.

Lemma writePaidState_final (paid : bool) (status : string) (deliveredAt : option string)
      (env : Env) (st : State) (db : Db) (s : UidSupply) (v : OrderItem) :
  viewing st = Some v ->
  viewing (fst (fst (writePaidState paid status deliveredAt env st db s))) =
    Some (withPaidState (setDeliveryDone paid (workflowOrEmpty (workflow st)))
                        paid status v) /\
  lookups (fst (fst (writePaidState paid status deliveredAt env st db s))) =
    match getContracts env (snd (fst (writePaidState paid status deliveredAt env st db s))) with
    | Some docs => contractLookups docs
    | None => noLookups
    end /\
  (forall c,
     In c (db_contracts (snd (fst (writePaidState paid status deliveredAt env st db s)))) ->
     targetContractId st v = Some (c_id c) -> c_depositPaid c = Some paid).
Proof.
  intros Hv. unfold writePaidState. rewrite Hv. unfold bind, ret.
  match goal with
  | |- context [writePaidContract paid env st ?st1 v ?db1 s] =>
      pose proof (writePaidContract_frame paid env st st1 v db1 s) as (_ & Hv1 & _);
      pose proof (writePaidContract_paid paid env st st1 v db1 s) as Hp;
      destruct (writePaidContract paid env st st1 v db1 s) as [[st2 db2] s2]
  end.
  cbn [fst snd] in *.
  destruct (fetchOrders_staged env st2 db2) as (Hv3 & _).
  destruct (fetchOrders_appends env st2 db2) as (Hc3 & _).
  destruct (fetchOrders env st2 db2) as [st3 db3]. cbn [fst snd] in *.
  split; [|split].
  - cbn [loadContractsMap withLookups viewing]. now rewrite Hv3, Hv1.
  - reflexivity.
  - intros c Hin. apply Hp. now rewrite <- Hc3.
Qed.

(** X23. After [markDeliveryPaid] the summary of the order viewed shows
    the deposit as paid.  After [resetDeliveryPaid] it shows it as not
    paid, provided the contracts are read from the store: the contract
    that the summary reads then holds [depositPaid] false, or is not
    found. *)
Theorem summary_depositPaid (env : Env) (st : State) (db : Db) (s : UidSupply)
        (v : OrderItem) :
  viewing st = Some v ->
  (forall d l, getContracts env d = Some l -> incl l (db_contracts d)) ->
  (exists v1,
     viewing (fst (fst (markDeliveryPaid env st db s))) = Some v1 /\
     depositPaid (lookups (fst (fst (markDeliveryPaid env st db s)))) v1 = true) /\
  (exists v2,
     viewing (fst (fst (resetDeliveryPaid env st db s))) = Some v2 /\
     depositPaid (lookups (fst (fst (resetDeliveryPaid env st db s)))) v2 = false).
Proof.
  intros Hv Hq. split.
  - unfold markDeliveryPaid.
    destruct (writePaidState_final true "completado" (Some (now env)) env st db s v Hv)
      as (Hv1 & _).
    eexists. split; [exact Hv1|].
    unfold depositPaid. cbn [withPaidState o_depositPaid JS.nullish]. apply orb_true_r.
  - unfold resetDeliveryPaid.
    destruct (writePaidState_final false "pendiente" None env st db s v Hv)
      as (Hv2 & Hl & Hp).
    eexists. split; [exact Hv2|].
    unfold depositPaid, summaryContract.
    cbn [withPaidState o_depositPaid o_contractId JS.nullish]. rewrite orb_false_r.
    destruct (truthy (o_contractId v)) as [cid|] eqn:Ec; [|reflexivity].
    rewrite Hl.
    destruct (getContracts env _) as [docs|] eqn:Eg; [|reflexivity].
    destruct (lookup cid (contractsMap (contractLookups docs))) as [c|] eqn:El;
      [|reflexivity].
    apply lookup_In in El.
    pose proof (contractLookups_byId docs) as F. rewrite Forall_forall in F.
    destruct (F _ El) as [Hin Hid]. cbn [fst snd] in Hin, Hid.
    rewrite (Hp c); [reflexivity | exact (Hq _ _ Eg c Hin) |].
    rewrite Hid. now apply targetContractId_explicit.
Qed.

Lemma summary_depositPaid_witness :
  (exists v1,
     viewing (fst (fst (markDeliveryPaid exampleEnv stateEdited dbEdited exampleUids))) =
       Some v1 /\
     depositPaid (lookups (fst (fst (markDeliveryPaid exampleEnv stateEdited dbEdited
                                       exampleUids)))) v1 = true) /\
  (exists v2,
     viewing (fst (fst (resetDeliveryPaid exampleEnv stateEdited dbEdited exampleUids))) =
       Some v2 /\
     depositPaid (lookups (fst (fst (resetDeliveryPaid exampleEnv stateEdited dbEdited
                                       exampleUids)))) v2 = false).
Proof.
  apply (summary_depositPaid exampleEnv stateEdited dbEdited exampleUids orderInProcess).
  - reflexivity.
  - intros d l [= <-]. apply incl_refl.
Defined.

(* ------------------------------------------------------------------ *)
(** ** The floating WhatsApp panel *)

Example encodeURIComponent_default :
  URI.encodeURIComponent defaultText = "Hola%2C%20quiero%20reservar%20una%20sesi%C3%B3n".
Proof. reflexivity. Qed.

Lemma allChars_append (p : ascii -> bool) (a b : string) :
  allChars p (a ++ b)%string = allChars p a && allChars p b.
Proof.
  induction a as [|c a IH]; [reflexivity|]. cbn [append allChars].
  now rewrite IH, andb_assoc.
Qed.

Lemma escapeChar_query (c : ascii) :
  allChars queryChar (if URI.unreserved c then String c EmptyString else URI.escapeChar c)
  = true.
Proof. each_char c. Qed.

Lemma encodeURIComponent_query (s : string) :
  allChars queryChar (URI.encodeURIComponent s) = true.
Proof.
  induction s as [|c s IH]; [reflexivity|]. cbn [URI.encodeURIComponent].
  now rewrite allChars_append, escapeChar_query, IH.
Qed.

(** X24. [sendWhatsApp] opens the address "https://wa.me/5541984875565"
    with one parameter, [text], whose value holds unreserved characters
    and [%] escapes only (no space, [&], [#], [=], [+] or [?]), whatever
    the message typed; it then clears the message and closes the panel.
    The text is the message without the white space around it; when that
    is empty, it is the default greeting, and the address is the very
    address of the link that the layout renders. *)
Theorem sendWhatsApp_url (p : Panel) :
  exists text,
    fst (sendWhatsApp p) = ("https://wa.me/5541984875565?text=" ++ text)%string /\
    allChars queryChar text = true /\
    snd (sendWhatsApp p) = {| panelOpen := false; message := "" |} /\
    (JS.trim (message p) <> "" -> text = URI.encodeURIComponent (JS.trim (message p))) /\
    (JS.trim (message p) = "" -> fst (sendWhatsApp p) = layoutWhatsAppHref).
Proof.
  unfold sendWhatsApp. cbn [fst snd].
  eexists. split; [reflexivity|]. split; [apply encodeURIComponent_query|].
  split; [reflexivity|]. split; intros H.
  - destruct (JS.trim (message p)); [contradiction | reflexivity].
  - now rewrite H.
Qed.

(* ------------------------------------------------------------------ *)
(** ** [ensureDeliveryTasks], one list of names after another *)

Lemma addDeliveryTasks_app (N1 N2 : list string) :
  forall (ts : list WorkflowTask) (s : UidSupply),
    addDeliveryTasks ts (N1 ++ N2) s =
    addDeliveryTasks (fst (addDeliveryTasks ts N1 s)) N2 (snd (addDeliveryTasks ts N1 s)).
Proof.
  induction N1 as [|n N1 IH]; intros ts s; cbn [app addDeliveryTasks]; [reflexivity|].
  unfold bind. destruct (addDeliveryTask ts n s) as [ts1 s1]. apply IH.
Qed.

(** X25. Ensuring the delivery tasks of a list of names and then, on the
    result and with the identifiers that are left, those of a second list
    gives what one call gives for the two lists joined: the same
    workflow, with the same identifiers, and the same identifiers left. *)
Theorem ensureDeliveryTasks_compose (W : Workflow) (N1 N2 : list string)
        (s : UidSupply) :
  ensureDeliveryTasks (fst (ensureDeliveryTasks W N1 s)) N2
                      (snd (ensureDeliveryTasks W N1 s)) =
  ensureDeliveryTasks W (N1 ++ N2) s.
Proof.
  destruct (JS.findIndex isDelivery W) as [i|] eqn:Ei.
  - destruct (findIndex_Some_nth _ _ _ Ei) as (cat & Hn & Hd & _).
    rewrite (ensureDeliveryTasks_found W N1 s i cat Ei Hn),
            (ensureDeliveryTasks_found W (N1 ++ N2) s i cat Ei Hn).
    cbn [fst snd].
    set (c1 := mkCat (wc_id cat) (wc_name cat) (fst (addDeliveryTasks (wc_tasks cat) N1 s))).
    assert (Hd1 : isDelivery c1 = true) by exact Hd.
    rewrite (ensureDeliveryTasks_found (setNth i c1 W) N2 _ i c1
               (findIndex_setNth _ _ _ _ Ei Hd1)
               (nth_error_setNth_Some W i c1 cat Hn)).
    rewrite setNth_setNth, addDeliveryTasks_app. reflexivity.
  - rewrite (ensureDeliveryTasks_absent W N1 s Ei),
            (ensureDeliveryTasks_absent W (N1 ++ N2) s Ei).
    cbn [fst snd].
    set (c1 := mkCat (s 0) "Entrega de productos"
                     (fst (addDeliveryTasks [] N1 (afterUid s)))).
    rewrite (ensureDeliveryTasks_found (W ++ [c1]) N2 _ (List.length W) c1
               (findIndex_app_None _ _ _ Ei (isDelivery_default _ _))
               (nth_error_length_app W c1)).
    rewrite setNth_length_app, addDeliveryTasks_app. reflexivity.
Qed.

(* ------------------------------------------------------------------ *)
(** ** The contract shown and the contract synchronised *)





(** An order whose [contractId] names no loaded contract and whose
    customer is the client of C: shown against C, synchronised to "gone". *)
Example shown_not_synchronised :
  let o := withContractId "gone" (orderOfCustomer "o9" "ana@example.com") in
  resolveContract (contractLookups [contractC]) o = Some contractC /\
  targetContractId stateOneAlbum o = Some "gone".
Proof. split; reflexivity. Qed.

(* ------------------------------------------------------------------ *)
(** ** The identifiers that [ensureDeliveryTasks] draws *)

Lemma addDeliveryTask_ids (ts : list WorkflowTask) (n : string) (s : UidSupply) :
  exists added,
    fst (addDeliveryTask ts n s) = ts ++ added /\
    map wt_id added = drawn s (List.length added) /\
    forall m, snd (addDeliveryTask ts n s) m = s (List.length added + m).
Proof.
  unfold addDeliveryTask. destruct (hasTitle ts (deliveryTitle n)).
  - exists []. cbn. rewrite app_nil_r. auto.
  - eexists [ _ ]. cbn. auto.
Qed.

Lemma drawn_app (s s1 : UidSupply) (k1 k2 : nat) :
  (forall m, s1 m = s (k1 + m)) ->
  drawn s k1 ++ drawn s1 k2 = drawn s (k1 + k2).
Proof.
  intros H. unfold drawn. rewrite seq_app, map_app. f_equal. cbn [Nat.add].
  assert (G : forall a, map s1 (seq a k2) = map s (seq (k1 + a) k2)).
  { induction k2 as [|k2 IH]; intros a; cbn [seq map]; [reflexivity|].
    rewrite H. f_equal. rewrite <- Nat.add_succ_r. apply IH. }
  rewrite (G 0), Nat.add_0_r. reflexivity.
Qed.

Lemma addDeliveryTasks_ids (ns : list string) :
  forall (ts : list WorkflowTask) (s : UidSupply),
  exists added,
    fst (addDeliveryTasks ts ns s) = ts ++ added /\
    map wt_id added = drawn s (List.length added) /\
    forall m, snd (addDeliveryTasks ts ns s) m = s (List.length added + m).
Proof.
  induction ns as [|n ns IH]; intros ts s; cbn [addDeliveryTasks].
  - exists []. cbn. rewrite app_nil_r. auto.
  - unfold bind. destruct (addDeliveryTask_ids ts n s) as (a1 & E1 & I1 & S1).
    destruct (addDeliveryTask ts n s) as [ts1 s1]. cbn [fst snd] in *. subst ts1.
    destruct (IH (ts ++ a1) s1) as (a2 & E2 & I2 & S2).
    exists (a1 ++ a2). rewrite E2, app_assoc. split; [reflexivity|].
    rewrite map_app, length_app, I1, I2. split.
    + now apply drawn_app.
    + intros m. rewrite S2, S1. f_equal. lia.
Qed.

Lemma NoDup_map_injective {A B} (f : A -> B) (l : list A) :
  (forall a b, f a = f b -> a = b) -> NoDup l -> NoDup (map f l).
Proof.
  intros Hinj H. induction H as [|x l Hx H IH]; cbn [map]; constructor; [|exact IH].
  intros Hin. apply in_map_iff in Hin as (y & E & Hy). apply Hinj in E. now subst y.
Qed.

(** X27. [ensureDeliveryTasks] gives the identifiers it draws, in the
    order drawn and each once, to what it creates: to the delivery
    category when it creates it, then to the tasks it appends, in their
    order; it leaves the supply after the last identifier it used.  With
    a supply that never repeats, the identifiers of what it creates are
    pairwise distinct. *)
Theorem ensureDeliveryTasks_ids (W : Workflow) (N : list string) (s : UidSupply) :
  exists k,
    (forall m, snd (ensureDeliveryTasks W N s) m = s (k + m)) /\
    ((exists i cat added,
        JS.findIndex isDelivery W = Some i /\ nth_error W i = Some cat /\
        fst (ensureDeliveryTasks W N s) =
          setNth i (mkCat (wc_id cat) (wc_name cat) (wc_tasks cat ++ added)) W /\
        map wt_id added = drawn s k) \/
     (exists added,
        JS.findIndex isDelivery W = None /\
        fst (ensureDeliveryTasks W N s) =
          W ++ [mkCat (s 0) "Entrega de productos" added] /\
        s 0 :: map wt_id added = drawn s k)) /\
    ((forall a b, s a = s b -> a = b) -> NoDup (drawn s k)).
Proof.
  assert (Hnd : forall k, (forall a b, s a = s b -> a = b) -> NoDup (drawn s k)).
  { intros k Hinj. unfold drawn. apply NoDup_map_injective; [exact Hinj|].
    apply seq_NoDup. }
  destruct (JS.findIndex isDelivery W) as [i|] eqn:Ei.
  - destruct (nth_error W i) as [cat|] eqn:En.
    2:{ exfalso. destruct (findIndex_Some_nth _ _ _ Ei) as (x & Hx & _). congruence. }
    rewrite (ensureDeliveryTasks_found W N s i cat Ei En). cbn [fst snd].
    destruct (addDeliveryTasks_ids N (wc_tasks cat) s) as (added & E & I & Hs).
    exists (List.length added). split; [exact Hs|]. split; [|apply Hnd].
    left. exists i, cat, added. rewrite E. auto.
  - rewrite (ensureDeliveryTasks_absent W N s Ei). cbn [fst snd].
    destruct (addDeliveryTasks_ids N [] (afterUid s)) as (added & E & I & Hs).
    exists (S (List.length added)). split; [|split; [|apply Hnd]].
    + intros m. rewrite Hs. reflexivity.
    + right. exists added. cbn [app] in E. rewrite E. split; [reflexivity|].
      split; [reflexivity|]. rewrite I.
      change (s 0 :: drawn (afterUid s) (List.length added))
        with (drawn s 1 ++ drawn (afterUid s) (List.length added)).
      now apply drawn_app.
Qed.

(* ------------------------------------------------------------------ *)
(** ** Admin mode: the header and the layout *)

Lemma notifyAdminChange_isAdmin (b : Browser) (val : bool) (w : Site) :
  isAdmin (header (notifyAdminChange b val w)) = val.
Proof. reflexivity. Qed.

(** X28. [notifyAdminChange(val)] leaves the header with [isAdmin = val]
    and makes the layout start the image overlay when [val] is true and
    stop it when it is false, whether or not [localStorage] can be
    written; it signs out exactly when [val] is false.  When
    [localStorage] can be written, the stored flag agrees with [val]: a
    later ['storage'] event, and a later load of the page, give the same
    admin mode.  When it cannot, the stored flag is left as it was. *)
Theorem notifyAdminChange_agrees (b : Browser) (val : bool) (w : Site) :
  isAdmin (header (notifyAdminChange b val w)) = val /\
  effects (notifyAdminChange b val w) =
    effects w ++ (if val then [] else [SignOut]) ++
    [if val then InitOverlay else DestroyOverlay] /\
  (storageWorks b = true ->
     adminFlag (notifyAdminChange b val w) = val /\
     isAdmin (header (headerHandler None (notifyAdminChange b val w))) = val /\
     isAdmin (header (mountSite (notifyAdminChange b val w))) = val) /\
  (storageWorks b = false ->
     storage (notifyAdminChange b val w) = storage w).
Proof.
  unfold notifyAdminChange, dispatchAdminModeChanged, layoutHandler, headerHandler,
    mountSite, eventValue, adminFlag.
  destruct val, (storageWorks b); cbn; rewrite <- ?app_assoc; repeat split;
    try discriminate; try reflexivity.
  all: intros _; repeat split; try reflexivity.
Qed.

Lemma authErrorText_not_empty (e : AuthError) : authErrorText e <> "".
Proof.
  unfold authErrorText.
  repeat match goal with
         | |- context [if ?c then _ else _] => destruct c
         end; discriminate.
Qed.

(** X29. [submitAdminModal] turns admin mode on, closes and clears the
    modal, starts the overlay and goes to "/admin-store" when both fields
    are filled, the browser is on line and the service accepts the
    trimmed e-mail with the password.  In every other case it leaves
    admin mode, the stored flag, the modal and its fields as they are,
    shows a message that is not empty, neither starts the overlay nor
    navigates, and does not call the service when a field is empty or the
    browser is off line.  The eye button ([toggleAdminFromHeader]) never
    leaves admin mode on. *)
Theorem submitAdminModal_gate (b : Browser) (w : Site) :
  (signsIn b w = true ->
     isAdmin (header (submitAdminModal b w)) = true /\
     showAdminModal (header (submitAdminModal b w)) = false /\
     adminEmail (header (submitAdminModal b w)) = "" /\
     adminPassword (header (submitAdminModal b w)) = "" /\
     adminModalError (header (submitAdminModal b w)) = "" /\
     effects (submitAdminModal b w) =
       effects w ++ [SignIn (JS.trim (adminEmail (header w))) (adminPassword (header w));
                     InitOverlay; Navigate "/admin-store"]) /\
  (signsIn b w = false ->
     header (submitAdminModal b w) =
       setAdminModalError (adminModalError (header (submitAdminModal b w))) (header w) /\
     adminModalError (header (submitAdminModal b w)) <> "" /\
     storage (submitAdminModal b w) = storage w /\
     (effects (submitAdminModal b w) = effects w \/
      notAttempted b w = false /\
      effects (submitAdminModal b w) =
        effects w ++ [SignIn (JS.trim (adminEmail (header w)))
                             (adminPassword (header w))])) /\
  isAdmin (header (toggleAdminFromHeader b w)) = false.
Proof.
  split; [|split].
  - unfold signsIn, submitAdminModal. intros H.
    apply andb_prop in H as [H Hs]. apply andb_prop in H as [H Ho].
    apply andb_prop in H as [He Hp]. apply negb_true_iff in He, Hp.
    rewrite He, Hp, Ho. cbn [orb negb].
    destruct (signIn b _ _); [discriminate|].
    unfold notifyAdminChange, dispatchAdminModeChanged, layoutHandler, headerHandler,
      eventValue.
    destruct (storageWorks b); cbn; rewrite <- ?app_assoc; repeat split.
  - unfold signsIn, notAttempted, submitAdminModal. intros H.
    destruct (adminEmail (header w) =? "") eqn:He.
    { cbn. repeat split; [discriminate | now left]. }
    destruct (adminPassword (header w) =? "") eqn:Hp.
    { cbn. repeat split; [discriminate | now left]. }
    destruct (siteOnLine b) eqn:Ho.
    2:{ cbn. repeat split; [discriminate | now left]. }
    cbn [orb negb andb] in *.
    destruct (signIn b _ _) as [e|]; [|discriminate].
    cbn. repeat split; [apply authErrorText_not_empty | now right].
  - unfold toggleAdminFromHeader.
    destruct (isAdmin (header w)) eqn:E; cbn [negb].
    + apply notifyAdminChange_isAdmin.
    + reflexivity.
Qed.

(* ------------------------------------------------------------------ *)
(** ** The links of the navigation *)

Lemma ceilHalf_bounds (n : nat) : n <= 2 * ceilHalf n <= n + 1.
Proof.
  unfold ceilHalf. pose proof (Nat.div_mod_eq (n + 1) 2) as H.
  pose proof (Nat.mod_upper_bound (n + 1) 2) as U. lia.
Qed.

(** X30. The navigation shows a link exactly when it has no key or its
    page is enabled in the feature flags: the link "Serviços" is always
    shown, a link of a disabled page never, and no link has the key
    "admin".  On the desktop the links shown are split around the logo
    without loss or repetition, the left part holding as many links as
    the right part or one more. *)
Theorem navLinks_shown (t : string -> string) (pages : string -> bool) :
  (forall x, In x (navLinks t pages) <->
             In x (links t) /\
             (forall k, truthy (nl_key x) = Some k -> pages k = true)) /\
  In servicesLink (navLinks t pages) /\
  (forall x k, In x (navLinks t pages) -> truthy (nl_key x) = Some k -> k <> "admin") /\
  leftLinks (navLinks t pages) ++ rightLinks (navLinks t pages) = navLinks t pages /\
  List.length (rightLinks (navLinks t pages)) <= List.length (leftLinks (navLinks t pages)) /\
  List.length (leftLinks (navLinks t pages)) <= List.length (rightLinks (navLinks t pages)) + 1.
Proof.
  assert (Hin : forall x, In x (navLinks t pages) <->
                In x (links t) /\
                (forall k, truthy (nl_key x) = Some k -> pages k = true)).
  { intros x. unfold navLinks. rewrite filter_In. split; intros [Hx H]; split; auto.
    - intros k Hk. now rewrite Hk in H.
    - destruct (truthy (nl_key x)) as [k|]; [now apply H | reflexivity]. }
  split; [exact Hin|]. split; [|split; [|split; [|split]]].
  - apply Hin. split; [right; left; reflexivity | discriminate].
  - intros x k Hx Hk. apply Hin in Hx as [Hx _]. cbn [links In] in Hx.
    repeat (destruct Hx as [<-|Hx]; [cbn in Hk; try discriminate;
                                     injection Hk as <-; discriminate|]).
    contradiction.
  - apply firstn_skipn.
  - unfold leftLinks, rightLinks. rewrite length_firstn, length_skipn.
    pose proof (ceilHalf_bounds (List.length (navLinks t pages))). lia.
  - unfold leftLinks, rightLinks. rewrite length_firstn, length_skipn.
    pose proof (ceilHalf_bounds (List.length (navLinks t pages))). lia.
Qed.
